(** * File discovery of the lint driver: [findFiles] and its helpers

    A shallow embedding of the file-discovery part of the ESLint helper
    module ([normalizeToPosix], [isGlobPattern], [globMatch], [globSearch],
    [throwErrorForUnmatchedPatterns], [globMultiSearch], [findFiles]) and
    the properties its specification states about it.

    The JavaScript code is asynchronous and effectful.  It is modelled in a
    small monad [M] that threads
      - the mutable variables a closure captures (the [unmatchedPatterns]
        set and the [filePaths] array of [globSearch], the [found] flag of
        [globMatch]),
      - a chronological trace of the calls made to the outside world
        (file system, matcher, configuration loader),
    and that ends in a value, a thrown error, or a generator left suspended
    at a [yield]. *)

From Stdlib Require Import String Ascii List Bool Arith Lia.
Import ListNotations.
Local Open Scope string_scope.
Local Open Scope list_scope.

Set Implicit Arguments.

(* ------------------------------------------------------------------------- *)
(** ** Errors *)
(* ------------------------------------------------------------------------- *)

(** A JavaScript value that is a string or [undefined]. *)
Definition JsString := option string.

(** Errors that do not come from this module: I/O failures, failures of
    the configuration loader, type errors of the language.  The module
    looks at two properties of whatever a search was rejected with,
    [basePath] and [unmatchedPatterns], and a foreign error can have them
    too.  Of [basePath] only its truth value is read.  Of
    [unmatchedPatterns] only the element at index 0 is read:
    [sys_unmatchedPatterns] is [None] for a value that cannot be indexed
    ([undefined] when the error has no such property, or [null]), and
    otherwise the elements of the value, where an element that is not a
    string stands as [undefined]. *)
Record SysErr : Type := {
  sys_code : string;
  sys_basePath : bool;
  sys_unmatchedPatterns : option (list JsString)
}.

(** A foreign error without these properties. *)
Definition plain (code : string) : SysErr :=
  {| sys_code := code;
     sys_basePath := false;
     sys_unmatchedPatterns := None |}.

(** The three error classes of the module, and foreign errors.  The
    [pattern] of [NoFilesFoundError] and [AllFilesIgnoredError] is whatever
    the caller passes, which can be [undefined] when an array is indexed out
    of range. *)
Inductive Error : Type :=
| NoFilesFoundError (pattern : JsString) (globEnabled : bool)
| UnmatchedSearchPatternsError
    (basePath : string) (unmatchedPatterns : list JsString)
    (patterns rawPatterns : list string)
| AllFilesIgnoredError (pattern : JsString)
| SystemError (e : SysErr).

(** [!error.basePath] in [globMultiSearch]: of the errors of the module
    only an [UnmatchedSearchPatternsError] has the property, and the empty
    string is falsy; a foreign error may or may not have it. *)
Definition error_basePath_truthy (error : Error) : bool :=
  match error with
  | UnmatchedSearchPatternsError basePath _ _ _ => negb (basePath =? "")
  | SystemError e => sys_basePath e
  | _ => false
  end.

(** [error.unmatchedPatterns], as far as it can be indexed. *)
Definition error_unmatchedPatterns (error : Error)
  : option (list JsString) :=
  match error with
  | UnmatchedSearchPatternsError _ unmatchedPatterns _ _ =>
      Some unmatchedPatterns
  | SystemError e => sys_unmatchedPatterns e
  | _ => None
  end.

(** The errors the specification calls discovery errors. *)
Definition is_discovery_error (error : Error) : bool :=
  match error with
  | SystemError _ => false
  | _ => true
  end.

(* ------------------------------------------------------------------------- *)
(** ** Trace of external calls *)
(* ------------------------------------------------------------------------- *)

Inductive Event : Type :=
| EvStat (filePath : string)
| EvIsDirectory (dirPath : string)
| EvList (dirPath : string)
| EvMatch (pattern path : string) (partial : bool)
| EvLoadConfigArrayForDirectory (absolutePath : string)
| EvIsDirectoryIgnored (absolutePath : string)
| EvLoadConfigArrayForFile (absolutePath : string)
| EvGetConfig (absolutePath : string).

Definition is_provider_event (ev : Event) : bool :=
  match ev with
  | EvLoadConfigArrayForDirectory _ | EvIsDirectoryIgnored _
  | EvLoadConfigArrayForFile _ | EvGetConfig _ => true
  | _ => false
  end.

Definition is_walk_event (ev : Event) : bool :=
  match ev with
  | EvIsDirectory _ | EvList _ => true
  | _ => false
  end.

Definition is_stat_event (ev : Event) : bool :=
  match ev with
  | EvStat _ => true
  | _ => false
  end.

(* ------------------------------------------------------------------------- *)
(** ** The effect monad *)
(* ------------------------------------------------------------------------- *)

(** How a computation ends: with a value, with a thrown error, or (for the
    body of a generator) parked at a [yield] that its consumer never
    resumes. *)
Inductive Outcome (A : Type) : Type :=
| Ok (a : A)
| Throw (e : Error)
| Suspend.

Arguments Ok {A} a.
Arguments Throw {A} e.
Arguments Suspend {A}.

(** [L] is the type of the captured mutable variables. *)
Definition M (L A : Type) : Type :=
  L -> list Event -> Outcome A * L * list Event.

Definition ret {L A} (a : A) : M L A :=
  fun l t => (Ok a, l, t).

Definition bind {L A B} (m : M L A) (k : A -> M L B) : M L B :=
  fun l t =>
    match m l t with
    | (Ok a, l', t') => k a l' t'
    | (Throw e, l', t') => (Throw e, l', t')
    | (Suspend, l', t') => (Suspend, l', t')
    end.

Definition throw {L A} (e : Error) : M L A :=
  fun l t => (Throw e, l, t).

Definition suspend {L A} : M L A :=
  fun l t => (Suspend, l, t).

Definition get {L} : M L L :=
  fun l t => (Ok l, l, t).

Definition modify {L} (f : L -> L) : M L unit :=
  fun l t => (Ok tt, f l, t).

Definition emit {L} (ev : Event) : M L unit :=
  fun l t => (Ok tt, l, t ++ [ev]).

(** An external call that may reject: it is traced, then returns or
    throws. *)
Definition call {L A} (ev : Event) (r : SysErr + A) : M L A :=
  fun l t =>
    match r with
    | inr a => (Ok a, l, t ++ [ev])
    | inl e => (Throw (SystemError e), l, t ++ [ev])
    end.

(** Runs [m] with fresh captured variables [init]; they are dropped when
    [m] ends. *)
Definition scoped {L L' A} (init : L') (m : M L' A) : M L A :=
  fun l t => let '(o, _, t') := m init t in (o, l, t').

Declare Scope m_scope.
Delimit Scope m_scope with m.
Notation "x <- c1 ;; c2" := (bind c1 (fun x => c2))
  (at level 61, c1 at next level, right associativity) : m_scope.
Notation "c1 ;; c2" := (bind c1 (fun _ => c2))
  (at level 61, right associativity) : m_scope.
Local Open Scope m_scope.

Definition outcome_of {L A} (r : Outcome A * L * list Event) : Outcome A :=
  fst (fst r).
Definition local_of {L A} (r : Outcome A * L * list Event) : L :=
  snd (fst r).
Definition trace_of {L A} (r : Outcome A * L * list Event) : list Event :=
  snd r.

(** [Array.prototype.some] with an effectful callback: stops at the first
    element for which the callback is true. *)
Fixpoint some {L A} (f : A -> M L bool) (xs : list A) : M L bool :=
  match xs with
  | [] => ret false
  | x :: rest => b <- f x ;; if b then ret true else some f rest
  end.

(** [Array.prototype.reduce] with an effectful callback: visits every
    element. *)
Fixpoint reduce {L A B} (f : B -> A -> M L B) (xs : list A) (init : B)
  : M L B :=
  match xs with
  | [] => ret init
  | x :: rest => v <- f init x ;; reduce f rest v
  end.

(* ------------------------------------------------------------------------- *)
(** ** JavaScript [Map] and [Set] keyed by strings

    Both iterate in insertion order; setting an existing key keeps its
    position. *)
(* ------------------------------------------------------------------------- *)

Module JsMap.
Definition t (V : Type) : Type := list (string * V).

Fixpoint set {V} (k : string) (v : V) (m : t V) : t V :=
  match m with
  | [] => [(k, v)]
  | (k', v') :: rest =>
      if k' =? k then (k, v) :: rest else (k', v') :: set k v rest
  end.

Fixpoint get {V} (k : string) (m : t V) : option V :=
  match m with
  | [] => None
  | (k', v') :: rest => if k' =? k then Some v' else get k rest
  end.

Definition has {V} (k : string) (m : t V) : bool :=
  match get k m with
  | Some _ => true
  | None => false
  end.

Definition keys {V} (m : t V) : list string := map fst m.
End JsMap.

Module JsSet.
Definition t (A : Type) : Type := list A.

Section Elements.
Variable A : Type.
Variable eqb : A -> A -> bool.

Definition add (x : A) (s : t A) : t A :=
  if existsb (eqb x) s then s else s ++ [x].

Definition delete (x : A) (s : t A) : t A :=
  filter (fun y => negb (eqb x y)) s.

(** [new Set(iterable)] *)
Definition from (xs : list A) : t A :=
  fold_left (fun s x => add x s) xs [].
End Elements.

Definition size {A} (s : t A) : nat := length s.
End JsSet.

Definition JsString_eqb (a b : JsString) : bool :=
  match a, b with
  | Some x, Some y => x =? y
  | None, None => true
  | _, _ => false
  end.

(** [array.indexOf(x)], with [None] for [-1]. *)
Fixpoint indexOf (xs : list string) (x : JsString) : option nat :=
  match xs with
  | [] => None
  | y :: rest =>
      if JsString_eqb (Some y) x then Some 0
      else option_map S (indexOf rest x)
  end.

(** [array[i]] where [i] is the result of [indexOf]: [undefined] at [-1]
    and past the end. *)
Definition at_index (xs : list string) (i : option nat) : JsString :=
  match i with
  | Some n => nth_error xs n
  | None => None
  end.

(* ------------------------------------------------------------------------- *)
(** ** File-related helpers *)
(* ------------------------------------------------------------------------- *)

(** [pattern.replace(/\\/gu, "/")] *)
Fixpoint normalizeToPosix (pattern : string) : string :=
  match pattern with
  | EmptyString => EmptyString
  | String c rest =>
      String (if Ascii.eqb c "\"%char then "/"%char else c)
             (normalizeToPosix rest)
  end.

Fixpoint endsWithSlash (s : string) : bool :=
  match s with
  | EmptyString => false
  | String c EmptyString => Ascii.eqb c "/"%char
  | String _ rest => endsWithSlash rest
  end.

(* ------------------------------------------------------------------------- *)
(** ** The outside world *)
(* ------------------------------------------------------------------------- *)

(** The libraries the module requires ([node:path], [is-glob],
    [glob-parent], [minimatch]).  They are parameters of the development:
    nothing is assumed about what they compute. *)
Record Platform : Type := {
  path_sep_is_backslash : bool;
  path_resolve : string -> string -> string;
  path_relative : string -> string -> string;
  isGlob : string -> bool;
  globParent : string -> string;
  (** [new Minimatch(pattern, { dot: true }).match(path, partial)] *)
  minimatch : string -> string -> bool -> bool
}.

(** The type of a file as [fs.Stats] reports it. *)
Inductive FileType : Type :=
| S_IFREG | S_IFDIR | S_IFLNK | S_IFBLK | S_IFCHR | S_IFIFO | S_IFSOCK.

Record Stats : Type := { st_type : FileType }.

Definition isFile (stat : Stats) : bool :=
  match st_type stat with S_IFREG => true | _ => false end.

Definition Stats_isDirectory (stat : Stats) : bool :=
  match st_type stat with S_IFDIR => true | _ => false end.

(** What reading a directory gives, with the whole tree below it: the walk
    happens on a finite tree that does not change while it is walked. *)
Inductive DirEnt : Type :=
| FileEnt (name : string)
| DirectoryEnt (name : string) (contents : DirRead)
with DirRead : Type :=
| Enoent
| Eio (e : SysErr)
| Entries (es : list DirEnt).

Definition ent_name (x : DirEnt) : string :=
  match x with
  | FileEnt name => name
  | DirectoryEnt name _ => name
  end.

Definition ent_isDirectory (x : DirEnt) : bool :=
  match x with
  | FileEnt _ => false
  | DirectoryEnt _ _ => true
  end.

Record FileSystem : Type := {
  (** [fsp.stat(filePath)]; [None] when the promise rejects. *)
  fs_stat : string -> option Stats;
  (** [hfs.isDirectory(dirPath)]: false for a path that does not exist
      or is not a directory; every other failure of the check rejects,
      such as [ENOTDIR] for a path below a regular file. *)
  hfs_isDirectory : string -> SysErr + bool;
  (** The directory tree [hfs.walk] reads below a path. *)
  hfs_list : string -> DirRead
}.

(** The configuration loader.  A config array answers
    [isDirectoryIgnored] and [getConfig]; [getConfig] gives [None] for
    [undefined].  Loading can fail. *)
Record ConfigArray (Config : Type) : Type := {
  isDirectoryIgnored : string -> bool;
  getConfig : string -> option Config
}.

Record ConfigLoader (Config : Type) : Type := {
  loadConfigArrayForDirectory : string -> SysErr + ConfigArray Config;
  loadConfigArrayForFile : string -> SysErr + ConfigArray Config
}.

Definition isSome {A} (o : option A) : bool :=
  match o with
  | Some _ => true
  | None => false
  end.

(* ------------------------------------------------------------------------- *)
(** ** The directory walker *)
(* ------------------------------------------------------------------------- *)

(** A walk entry: the path relative to the directory the walk started at,
    with forward slashes. *)
Record WalkEntry : Type := {
  entry_path : string;
  entry_isDirectory : bool;
  entry_depth : nat
}.

Section Walk.
Variable L : Type.
Variables directoryFilter entryFilter : WalkEntry -> M L bool.
(** What the consumer of the generator does with a yielded entry before
    it asks for the next one; [suspend] when it never asks again. *)
Variable consumer : WalkEntry -> M L unit.

Definition walkEntry_of (parentPath : string) (depth : nat) (x : DirEnt)
  : WalkEntry :=
  {| entry_path :=
       if parentPath =? "" then ent_name x
       else parentPath ++ "/" ++ ent_name x;
     entry_isDirectory := ent_isDirectory x;
     entry_depth := depth |}.

Definition child_dirPath (dirPath name : string) : string :=
  (if endsWithSlash dirPath then dirPath else dirPath ++ "/") ++ name.

(** Modelled from the spec: the directory walker of section 4.D, which the
    code takes from the humanfs package ([hfs.walk]) and which is not
    part of this repository.  The directory the walk starts at is read
    without asking any filter (rule D-1).  Every entry of a directory
    that was read is shown to the entry filter and yielded when the
    filter accepts it; an entry that is a directory is then shown to the
    directory filter and read when the filter accepts it, so the filter
    of a parent completes before any filter of a child runs.  A directory
    that has disappeared reads as empty; any other read failure is
    thrown. *)
Fixpoint walk_dir (dirPath parentPath : string) (depth : nat) (d : DirRead)
  {struct d} : M L unit :=
  emit (EvList dirPath) ;;
  match d with
  | Enoent => ret tt
  | Eio e => throw (SystemError e)
  | Entries es =>
      (fix each (es : list DirEnt) : M L unit :=
         match es with
         | [] => ret tt
         | x :: rest =>
             walk_ent dirPath parentPath depth x ;; each rest
         end) es
  end
with walk_ent (dirPath parentPath : string) (depth : nat) (x : DirEnt)
  {struct x} : M L unit :=
  let walkEntry := walkEntry_of parentPath depth x in
  shouldEmitEntry <- entryFilter walkEntry ;;
  (if shouldEmitEntry then consumer walkEntry else ret tt) ;;
  match x with
  | FileEnt _ => ret tt
  | DirectoryEnt name contents =>
      shouldWalkDirectory <- directoryFilter walkEntry ;;
      if shouldWalkDirectory
      then walk_dir (child_dirPath dirPath name) (entry_path walkEntry)
                    (S depth) contents
      else ret tt
  end.

Fixpoint walk_each (dirPath parentPath : string) (depth : nat)
  (es : list DirEnt) : M L unit :=
  match es with
  | [] => ret tt
  | x :: rest =>
      walk_ent dirPath parentPath depth x ;;
      walk_each dirPath parentPath depth rest
  end.
End Walk.

(** Runs a generator up to its first [yield] or to its end
    ([generator.next()]); the promise settles either way. *)
Definition next {L} (generator : M L unit) : M L unit :=
  fun l t =>
    match generator l t with
    | (Suspend, l', t') => (Ok tt, l', t')
    | r => r
    end.

(** [Promise.allSettled] over the searches.  The searches share nothing but
    the trace (every search has its own captured variables and the loader
    and the file system are read only), so they are run one after the
    other. *)
Inductive Settled : Type :=
| Fulfilled (value : list string)
| Rejected (reason : Error).

Definition settle {L} (m : M L (list string)) : M L Settled :=
  fun l t =>
    match m l t with
    | (Ok v, l', t') => (Ok (Fulfilled v), l', t')
    | (Throw e, l', t') => (Ok (Rejected e), l', t')
    | (Suspend, l', t') => (Suspend, l', t')
    end.

Fixpoint allSettled {L} (ms : list (M L (list string))) : M L (list Settled) :=
  match ms with
  | [] => ret []
  | m :: rest =>
      r <- settle m ;;
      rs <- allSettled rest ;;
      ret (r :: rs)
  end.

(** [result.value] as [flatMap] sees it: the array of a fulfilled result;
    a rejected result has no [value], and [flatMap] keeps the [undefined]
    as one element. *)
Definition settled_value (result : Settled) : list JsString :=
  match result with
  | Fulfilled value => map Some value
  | Rejected _ => [None]
  end.

(** [array.map] with an effectful callback, in index order. *)
Fixpoint mapM {L A B} (f : A -> M L B) (xs : list A) : M L (list B) :=
  match xs with
  | [] => ret []
  | x :: rest => y <- f x ;; ys <- mapM f rest ;; ret (y :: ys)
  end.

(* ------------------------------------------------------------------------- *)
(** ** The module *)
(* ------------------------------------------------------------------------- *)

(** Modelled from the spec: the compiled matcher of section 3, which
    "holds the relative pattern string" it was compiled from.  The code
    takes it from the minimatch package ([new Minimatch(pattern, options)]),
    which is not part of this repository, and reads the string back as
    [matcher.pattern]. *)
Record Minimatch : Type := { matcher_pattern : string }.

(** The value type of the [searches] map. *)
Record GlobSearch : Type := {
  search_patterns : list string;
  search_rawPatterns : list string
}.

(** The variables the filters of [globSearch] capture and mutate. *)
Record SearchVars : Type := {
  unmatchedPatterns : JsSet.t string;
  filePaths : list string
}.

(** The variables the [forEach] callback of [findFiles] mutates. *)
Record FindVars : Type := {
  results : list string;
  missingPatterns : list string;
  searches : JsMap.t GlobSearch
}.

Section Discovery.
Variable plat : Platform.
Variable fs : FileSystem.
Variable Config : Type.

Definition isGlobPattern (pattern : string) : bool :=
  isGlob plat
    (if path_sep_is_backslash plat then normalizeToPosix pattern else pattern).

(** [matcher.match(path, partial)] *)
Definition matcher_match {L} (matcher : Minimatch) (path : string)
  (partial : bool) : M L bool :=
  emit (EvMatch (matcher_pattern matcher) path partial) ;;
  ret (minimatch plat (matcher_pattern matcher) path partial).

(** *** [globMatch] *)

Definition globMatch_directoryFilter (matcher : Minimatch) (entry : WalkEntry)
  : M bool bool :=
  found <- get ;;
  if negb found then matcher_match matcher (entry_path entry) true
  else ret false.

Definition globMatch_entryFilter (matcher : Minimatch) (entry : WalkEntry)
  : M bool bool :=
  found <- get ;;
  if found || entry_isDirectory entry then ret false
  else
    m <- matcher_match matcher (entry_path entry) false ;;
    if m then modify (fun _ => true) ;; ret true
    else ret false.

Definition globMatch {L} (basePath pattern : string) : M L bool :=
  scoped false
    (let patternToUse :=
       normalizeToPosix (path_relative plat basePath pattern) in
     let matcher := {| matcher_pattern := patternToUse |} in
     isDir <- call (EvIsDirectory basePath) (hfs_isDirectory fs basePath) ;;
     if isDir then
       next (walk_dir (globMatch_directoryFilter matcher)
                      (globMatch_entryFilter matcher)
                      (fun _ => suspend)
                      basePath "" 1 (hfs_list fs basePath)) ;;
       get
     else get).

(** *** [globSearch] *)

Section GlobSearch.
Variable basePath : string.
Variable patterns : list string.
Variable rawPatterns : list string.
Variable configLoader : ConfigLoader Config.
Variable errorOnUnmatchedPattern : bool.

Definition patternToUse_of (pattern : string) : string :=
  normalizeToPosix (path_relative plat basePath pattern).

Definition relativeToPatterns : JsMap.t string :=
  fold_left
    (fun m pattern => JsMap.set (patternToUse_of pattern) pattern m)
    patterns [].

Definition matchers : list Minimatch :=
  map (fun pattern => {| matcher_pattern := patternToUse_of pattern |})
      patterns.

Definition directoryFilter (entry : WalkEntry) : M SearchVars bool :=
  prefixMatch <-
    some (fun matcher => matcher_match matcher (entry_path entry) true)
         matchers ;;
  if negb prefixMatch then ret false
  else
    let absolutePath := path_resolve plat basePath (entry_path entry) in
    configs <- call (EvLoadConfigArrayForDirectory absolutePath)
                    (loadConfigArrayForDirectory configLoader absolutePath) ;;
    emit (EvIsDirectoryIgnored absolutePath) ;;
    ret (negb (isDirectoryIgnored configs absolutePath)).

Definition delete_unmatched (pattern : string) (vars : SearchVars)
  : SearchVars :=
  {| unmatchedPatterns := JsSet.delete String.eqb pattern
                                       (unmatchedPatterns vars);
     filePaths := filePaths vars |}.

Definition entryFilter (entry : WalkEntry) : M SearchVars bool :=
  let absolutePath := path_resolve plat basePath (entry_path entry) in
  if entry_isDirectory entry then ret false
  else
    configs <- call (EvLoadConfigArrayForFile absolutePath)
                    (loadConfigArrayForFile configLoader absolutePath) ;;
    emit (EvGetConfig absolutePath) ;;
    let config := getConfig configs absolutePath in
    vars <- get ;;
    matchesPattern <-
      (if (0 <? JsSet.size (unmatchedPatterns vars))%nat then
         reduce
           (fun previousValue matcher =>
              pathMatches <- matcher_match matcher (entry_path entry) false ;;
              (if pathMatches && isSome config
               then modify (delete_unmatched (matcher_pattern matcher))
               else ret tt) ;;
              ret (pathMatches || previousValue))
           matchers false
       else
         some (fun matcher => matcher_match matcher (entry_path entry) false)
              matchers) ;;
    ret (matchesPattern && isSome config).

Definition push_filePath (entry : WalkEntry) : M SearchVars unit :=
  modify (fun vars =>
            {| unmatchedPatterns := unmatchedPatterns vars;
               filePaths := filePaths vars
                            ++ [path_resolve plat basePath (entry_path entry)]
            |}).

(** The part of [globSearch] that runs once the filters exist. *)
Definition globSearch_body : M SearchVars (list string) :=
  isDir <- call (EvIsDirectory basePath) (hfs_isDirectory fs basePath) ;;
  (if isDir then
     walk_dir directoryFilter entryFilter push_filePath
              basePath "" 1 (hfs_list fs basePath)
   else ret tt) ;;
  vars <- get ;;
  if errorOnUnmatchedPattern && (0 <? JsSet.size (unmatchedPatterns vars))%nat
  then throw (UnmatchedSearchPatternsError
                basePath
                (map (fun pattern => JsMap.get pattern relativeToPatterns)
                     (unmatchedPatterns vars))
                patterns rawPatterns)
  else ret (filePaths vars).

Definition globSearch {L} : M L (list string) :=
  if (length patterns =? 0)%nat then ret []
  else
    scoped {| unmatchedPatterns :=
                JsSet.from String.eqb (JsMap.keys relativeToPatterns);
              filePaths := [] |}
           globSearch_body.
End GlobSearch.

(** *** [throwErrorForUnmatchedPatterns]

    [unmatched] is the argument [unmatchedPatterns] as far as it can be
    indexed: indexing [undefined] or [null] throws a [TypeError].
    [unmatchedPatterns[0]] is [undefined] for an empty array, and
    [path.relative] throws a [TypeError] on what is not a string. *)
Definition throwErrorForUnmatchedPatterns {L} (basePath : string)
  (patterns rawPatterns : list string) (unmatched : option (list JsString))
  : M L unit :=
  match unmatched with
  | None => throw (SystemError (plain "TypeError"))
  | Some unmatchedPatterns =>
      let pattern : JsString := hd None unmatchedPatterns in
      let rawPattern := at_index rawPatterns (indexOf patterns pattern) in
      patternHasMatch <-
        match pattern with
        | Some p => globMatch basePath p
        | None => throw (SystemError (plain "ERR_INVALID_ARG_TYPE"))
        end ;;
      if patternHasMatch then throw (AllFilesIgnoredError rawPattern)
      else throw (NoFilesFoundError rawPattern true)
  end.

(** *** [globMultiSearch] *)

Definition normalizedSearches_of (searches : JsMap.t GlobSearch)
  : list (string * GlobSearch) :=
  filter (fun s => (0 <? length (search_patterns (snd s)))%nat) searches.

Definition run_searches {L} (configLoader : ConfigLoader Config)
  (errorOnUnmatchedPattern : bool)
  (normalizedSearches : list (string * GlobSearch)) : M L (list Settled) :=
  allSettled
    (map (fun s =>
            globSearch (fst s) (search_patterns (snd s))
                       (search_rawPatterns (snd s))
                       configLoader errorOnUnmatchedPattern)
         normalizedSearches).

(** The first loop of [globMultiSearch], over [results[i]] and
    [normalizedSearches[i]]. *)
Fixpoint handle_errors {L} (errorOnUnmatchedPattern : bool)
  (settled : list (Settled * (string * GlobSearch))) : M L unit :=
  match settled with
  | [] => ret tt
  | (Fulfilled _, _) :: rest => handle_errors errorOnUnmatchedPattern rest
  | (Rejected error, currentSearch) :: rest =>
      if negb (error_basePath_truthy error) then throw error
      else
        (if errorOnUnmatchedPattern then
           throwErrorForUnmatchedPatterns
             (fst currentSearch)
             (search_patterns (snd currentSearch))
             (search_rawPatterns (snd currentSearch))
             (error_unmatchedPatterns error)
         else ret tt) ;;
        handle_errors errorOnUnmatchedPattern rest
  end.

Definition globMultiSearch {L} (searches : JsMap.t GlobSearch)
  (configLoader : ConfigLoader Config) (errorOnUnmatchedPattern : bool)
  : M L (list JsString) :=
  let normalizedSearches := normalizedSearches_of searches in
  results <- run_searches configLoader errorOnUnmatchedPattern
                          normalizedSearches ;;
  handle_errors errorOnUnmatchedPattern
                (combine results normalizedSearches) ;;
  ret (flat_map settled_value results).

(** *** [findFiles] *)

Definition empty_search : GlobSearch :=
  {| search_patterns := []; search_rawPatterns := [] |}.

(** [if (!searches.has(key)) searches.set(key, { patterns: [], rawPatterns: [] })],
    then a [push] on each of the two arrays of [searches.get(key)].  The
    arrays are those stored in the map, so the pushes update the map entry
    in place. *)
Definition push_search (key globbyPattern rawPattern : string)
  (searches : JsMap.t GlobSearch) : JsMap.t GlobSearch :=
  let searches1 :=
    if JsMap.has key searches then searches
    else JsMap.set key empty_search searches in
  match JsMap.get key searches1 with
  | Some s =>
      JsMap.set key
        {| search_patterns := search_patterns s ++ [globbyPattern];
           search_rawPatterns := search_rawPatterns s ++ [rawPattern] |}
        searches1
  | None => searches1
  end.

Definition push_result (filePath : string) (vars : FindVars) : FindVars :=
  {| results := results vars ++ [filePath];
     missingPatterns := missingPatterns vars;
     searches := searches vars |}.

Definition push_missing (pattern : string) (vars : FindVars) : FindVars :=
  {| results := results vars;
     missingPatterns := missingPatterns vars ++ [pattern];
     searches := searches vars |}.

Definition add_search (key globbyPattern rawPattern : string)
  (vars : FindVars) : FindVars :=
  {| results := results vars;
     missingPatterns := missingPatterns vars;
     searches := push_search key globbyPattern rawPattern (searches vars) |}.

(** The callback of [stats.forEach]: [stat] is [stats[index]], [filePath]
    is [filePaths[index]] and [input] is [patterns[index]]. *)
Definition forEach_stat (globInputPaths : bool) (cwd : string)
  (vars : FindVars) (stat : option Stats) (filePath input : string)
  : FindVars :=
  let pattern := normalizeToPosix input in
  match stat with
  | Some stat =>
      let vars1 := if isFile stat then push_result filePath vars else vars in
      if Stats_isDirectory stat
      then add_search filePath (normalizeToPosix filePath ++ "/**") pattern
                      vars1
      else vars1
  | None =>
      if globInputPaths && isGlobPattern pattern then
        let basePath := path_resolve plat cwd (globParent plat pattern) in
        add_search basePath filePath pattern vars
      else push_missing pattern vars
  end.

Definition initial_vars (cwd : string) : FindVars :=
  {| results := [];
     missingPatterns := [];
     searches := [(cwd, empty_search)] |}.

(** The state of [results], [missingPatterns] and [searches] after the
    [forEach] loop. *)
Definition classified (globInputPaths : bool) (cwd : string)
  (patterns : list string) (stats : list (option Stats)) : FindVars :=
  let filePaths := map (path_resolve plat cwd) patterns in
  fold_left
    (fun vars item =>
       forEach_stat globInputPaths cwd vars
                    (fst item) (fst (snd item)) (snd (snd item)))
    (combine stats (combine filePaths patterns))
    (initial_vars cwd).

(** [fsp.stat(filePath).catch(() => {})] *)
Definition stat_or_undefined {L} (filePath : string) : M L (option Stats) :=
  emit (EvStat filePath) ;; ret (fs_stat fs filePath).

Definition findFiles {L} (patterns : list string) (globInputPaths : bool)
  (cwd : string) (configLoader : ConfigLoader Config)
  (errorOnUnmatchedPattern : bool) : M L (list JsString) :=
  let filePaths := map (path_resolve plat cwd) patterns in
  stats <- mapM stat_or_undefined filePaths ;;
  let vars := classified globInputPaths cwd patterns stats in
  if errorOnUnmatchedPattern
     && (0 <? length (missingPatterns vars))%nat
  then throw (NoFilesFoundError (hd_error (missingPatterns vars))
                                globInputPaths)
  else
    globbyResults <- globMultiSearch (searches vars) configLoader
                                     errorOnUnmatchedPattern ;;
    ret (JsSet.from JsString_eqb
           (map Some (results vars) ++ globbyResults)).

End Discovery.

(** Runs a top-level call: no captured variables, empty trace. *)
Definition run {A} (m : M unit A) : Outcome A * list Event :=
  let '(o, _, t) := m tt [] in (o, t).

(* ------------------------------------------------------------------------- *)
(** ** A sample world

    A small POSIX-like instance of the parameters, on which the model runs:
    the tree of the end-to-end scenarios of the specification, under the
    working directory [/r]. *)
(* ------------------------------------------------------------------------- *)

Module Sample.

Fixpoint split_slash_aux (s acc : string) : list string :=
  match s with
  | EmptyString => [acc]
  | String c rest =>
      if Ascii.eqb c "/"%char then acc :: split_slash_aux rest ""
      else split_slash_aux rest (acc ++ String c "")
  end.

Definition split_slash (s : string) : list string := split_slash_aux s "".

Fixpoint join_slash (segs : list string) : string :=
  match segs with
  | [] => ""
  | [s] => s
  | s :: rest => s ++ "/" ++ join_slash rest
  end.

Fixpoint has_star (s : string) : bool :=
  match s with
  | EmptyString => false
  | String c rest => Ascii.eqb c "*"%char || has_star rest
  end.

Fixpoint strip_prefix (p s : string) : option string :=
  match p, s with
  | EmptyString, _ => Some s
  | String a p', String b s' =>
      if Ascii.eqb a b then strip_prefix p' s' else None
  | _, _ => None
  end.

Fixpoint ends_with (suffix s : string) : bool :=
  (s =? suffix) ||
  match s with
  | EmptyString => false
  | String _ rest => ends_with suffix rest
  end.

Definition resolve (from to : string) : string :=
  match to with
  | String "/" _ => to
  | "" | "." => from
  | _ => from ++ "/" ++ to
  end.

Definition relative (from to : string) : string :=
  match strip_prefix from to with
  | Some (String "/" rest) => rest
  | Some "" => ""
  | _ => to
  end.

Fixpoint static_segments (segs : list string) : list string :=
  match segs with
  | [] => []
  | [_] => []
  | s :: rest => if has_star s then [] else s :: static_segments rest
  end.

Definition glob_parent (pattern : string) : string :=
  match static_segments (split_slash pattern) with
  | [] => "."
  | segs => join_slash segs
  end.

(** One segment against one pattern segment: [*], [*suffix] or a literal. *)
Definition segment_match (pat seg : string) : bool :=
  match pat with
  | String "*" suffix => ends_with suffix seg
  | _ => pat =? seg
  end.

Fixpoint segments_match (fuel : nat) (pats segs : list string)
  (partial : bool) : bool :=
  match fuel with
  | O => false
  | S fuel' =>
      match pats, segs with
      | _, [] => partial || forallb (String.eqb "**") pats
      | [], _ :: _ => false
      | p :: ps, s :: ss =>
          if p =? "**" then
            segments_match fuel' ps segs partial
            || segments_match fuel' pats ss partial
          else segment_match p s && segments_match fuel' ps ss partial
      end
  end.

Definition glob_match (pattern path : string) (partial : bool) : bool :=
  let pats := split_slash pattern in
  let segs := split_slash path in
  segments_match (S (length pats + length segs)) pats segs partial.

Definition platform : Platform :=
  {| path_sep_is_backslash := false;
     path_resolve := resolve;
     path_relative := relative;
     isGlob := has_star;
     globParent := glob_parent;
     minimatch := glob_match |}.

Definition tree_c : DirRead :=
  Entries [DirectoryEnt "d" (Entries [FileEnt "w.js"; FileEnt ".hidden.js"])].

Definition tree_r : DirRead :=
  Entries [DirectoryEnt "a" (Entries [FileEnt "x.js"; FileEnt "y.txt"]);
           DirectoryEnt "b" (Entries [FileEnt "z.js"]);
           DirectoryEnt "c" tree_c;
           FileEnt "pipe"].

Definition directories : list (string * DirRead) :=
  [("/r", tree_r);
   ("/r/a", Entries [FileEnt "x.js"; FileEnt "y.txt"]);
   ("/r/b", Entries [FileEnt "z.js"]);
   ("/r/c", tree_c);
   ("/r/c/d", Entries [FileEnt "w.js"; FileEnt ".hidden.js"])].

Definition regular_files : list string :=
  ["/r/a/x.js"; "/r/a/y.txt"; "/r/b/z.js"; "/r/c/d/w.js";
   "/r/c/d/.hidden.js"].

Definition stat (filePath : string) : option Stats :=
  if existsb (String.eqb filePath) regular_files
  then Some {| st_type := S_IFREG |}
  else if JsMap.has filePath directories
  then Some {| st_type := S_IFDIR |}
  else if filePath =? "/r/pipe" then Some {| st_type := S_IFIFO |}
  else None.

Definition file_system : FileSystem :=
  {| fs_stat := stat;
     hfs_isDirectory := fun dirPath => inr (JsMap.has dirPath directories);
     hfs_list := fun dirPath =>
                   match JsMap.get dirPath directories with
                   | Some d => d
                   | None => Enoent
                   end |}.

(** The provider of the scenarios: directory [b] is ignored, [y.txt] has
    no configuration. *)
Definition config_array : ConfigArray unit :=
  {| isDirectoryIgnored := fun absolutePath => absolutePath =? "/r/b";
     getConfig := fun absolutePath =>
                    if absolutePath =? "/r/a/y.txt" then None else Some tt |}.

Definition config_loader : ConfigLoader unit :=
  {| loadConfigArrayForDirectory := fun _ => inr config_array;
     loadConfigArrayForFile := fun _ => inr config_array |}.

(** A provider that ignores every directory and configures no file. *)
Definition hostile_array : ConfigArray unit :=
  {| isDirectoryIgnored := fun _ => true;
     getConfig := fun _ => None |}.

Definition hostile_loader : ConfigLoader unit :=
  {| loadConfigArrayForDirectory := fun _ => inr hostile_array;
     loadConfigArrayForFile := fun _ => inr hostile_array |}.

(** A provider that cannot load the configuration of [x.js]. *)
Definition failing_loader : ConfigLoader unit :=
  {| loadConfigArrayForDirectory := fun _ => inr config_array;
     loadConfigArrayForFile :=
       fun absolutePath =>
         if absolutePath =? "/r/a/x.js" then inl (plain "EACCES")
         else inr config_array |}.

(** A provider that cannot load the configuration of [x.js] either, and
    whose error has a [basePath] property. *)
Definition tagged_error : SysErr :=
  {| sys_code := "CONFIG";
     sys_basePath := true;
     sys_unmatchedPatterns := None |}.

Definition tagged_loader : ConfigLoader unit :=
  {| loadConfigArrayForDirectory := fun _ => inr config_array;
     loadConfigArrayForFile :=
       fun absolutePath =>
         if absolutePath =? "/r/a/x.js" then inl tagged_error
         else inr config_array |}.

(** The same tree on a file system that reports a path below a regular
    file as it is reported in practice: the path does not exist for
    [stat], and the directory check fails with [ENOTDIR] instead of
    answering. *)
Definition below_a_file (path : string) : bool :=
  existsb (fun file => isSome (strip_prefix (file ++ "/") path))
          regular_files.

Definition posix_file_system : FileSystem :=
  {| fs_stat := stat;
     hfs_isDirectory :=
       fun dirPath =>
         if below_a_file dirPath then inl (plain "ENOTDIR")
         else inr (JsMap.has dirPath directories);
     hfs_list := hfs_list file_system |}.

Definition find (patterns : list string) (globInputPaths : bool)
  (errorOnUnmatchedPattern : bool) : Outcome (list JsString) :=
  fst (run (findFiles platform file_system patterns globInputPaths "/r"
                      config_loader errorOnUnmatchedPattern)).

End Sample.

(* ------------------------------------------------------------------------- *)
(** ** The walk of a group as the specification words it

    Section 4.D of the specification describes the walk of a group without
    state: which directories are entered (rules D-1 to D-3) and which
    entries are emitted (rule F-3).  These definitions follow its words;
    the theorems below compare them with [globSearch]. *)
(* ------------------------------------------------------------------------- *)

Section GroupWalkSpec.
Variable plat : Platform.
Variable Config : Type.
Variable basePath : string.
Variable patterns : list string.
Variable configLoader : ConfigLoader Config.

(** [get_config(absolute_path)] is not absent. *)
Definition has_config (absolutePath : string) : bool :=
  match loadConfigArrayForFile configLoader absolutePath with
  | inr configs => isSome (getConfig configs absolutePath)
  | inl _ => false
  end.

(** The provider answers, and does not report the directory ignored. *)
Definition provider_keeps_directory (absolutePath : string) : bool :=
  match loadConfigArrayForDirectory configLoader absolutePath with
  | inr configs => negb (isDirectoryIgnored configs absolutePath)
  | inl _ => false
  end.

(** [matches(f)] for at least one compiled matcher. *)
Definition matches_some (relativePath : string) : bool :=
  existsb (fun matcher =>
             minimatch plat (matcher_pattern matcher) relativePath false)
          (matchers plat basePath patterns).

(** [matches_prefix(d)] for at least one compiled matcher. *)
Definition prefix_matches_some (relativePath : string) : bool :=
  existsb (fun matcher =>
             minimatch plat (matcher_pattern matcher) relativePath true)
          (matchers plat basePath patterns).

(** Rules D-2 and D-3. *)
Definition spec_descend (entry : WalkEntry) : bool :=
  prefix_matches_some (entry_path entry)
  && provider_keeps_directory
       (path_resolve plat basePath (entry_path entry)).

(** Rule F-3. *)
Definition spec_include (entry : WalkEntry) : bool :=
  negb (entry_isDirectory entry)
  && matches_some (entry_path entry)
  && has_config (path_resolve plat basePath (entry_path entry)).

(** The entries the walk reaches, in the order it reaches them: every entry
    of the base directory (D-1) and of every directory it descends into. *)
Fixpoint reached_dir (parentPath : string) (depth : nat) (d : DirRead)
  {struct d} : list WalkEntry :=
  match d with
  | Entries es =>
      (fix each (es : list DirEnt) : list WalkEntry :=
         match es with
         | [] => []
         | x :: rest => reached_ent parentPath depth x ++ each rest
         end) es
  | _ => []
  end
with reached_ent (parentPath : string) (depth : nat) (x : DirEnt)
  {struct x} : list WalkEntry :=
  let entry := walkEntry_of parentPath depth x in
  entry ::
  match x with
  | FileEnt _ => []
  | DirectoryEnt _ contents =>
      if spec_descend entry
      then reached_dir (entry_path entry) (S depth) contents
      else []
  end.

(** A pattern of the unmatched set has been hit by an entry: one of the
    matchers compiled from it matches the entry, which has a
    configuration. *)
Definition hits (entry : WalkEntry) (pattern : string) : bool :=
  negb (entry_isDirectory entry)
  && existsb (fun matcher =>
                (matcher_pattern matcher =? pattern)
                && minimatch plat (matcher_pattern matcher)
                             (entry_path entry) false)
             (matchers plat basePath patterns)
  && has_config (path_resolve plat basePath (entry_path entry)).

(** The unmatched set after the walk has reached [entries]. *)
Definition spec_unmatched (entries : list WalkEntry)
  (unmatched : JsSet.t string) : JsSet.t string :=
  filter (fun pattern => negb (existsb (fun entry => hits entry pattern)
                                       entries))
         unmatched.
End GroupWalkSpec.

(** The prefix of [xs] that a short-circuiting search inspects. *)
Fixpoint upto_first {A} (f : A -> bool) (xs : list A) : list A :=
  match xs with
  | [] => []
  | x :: rest => if f x then [x] else x :: upto_first f rest
  end.

(** The classes of section 4.A of the specification. *)
Inductive PatternClass : Type :=
| literal_file (absolutePath : string)
| literal_directory (absolutePath : string)
| glob (normalized : string)
| missing (raw : string).

(* ------------------------------------------------------------------------- *)
(** ** The filters of [globSearch] in closed form

    What one call of a filter returns, does to the captured variables and
    adds to the trace, written without the monad.  [directoryFilter_spec]
    and [entryFilter_spec] prove that the filters compute exactly this. *)
(* ------------------------------------------------------------------------- *)

Section FilterResults.
Variable plat : Platform.
Variable Config : Type.
Variable basePath : string.
Variable patterns : list string.
Variable configLoader : ConfigLoader Config.

Local Abbreviation group_matchers := (matchers plat basePath patterns).

Definition match_event (path : string) (partial : bool) (matcher : Minimatch)
  : Event :=
  EvMatch (matcher_pattern matcher) path partial.

Definition matches_of (path : string) (partial : bool) (matcher : Minimatch)
  : bool :=
  minimatch plat (matcher_pattern matcher) path partial.

(** The pattern is dropped from the unmatched set by the callback of
    [reduce] at one of the matchers [ms]. *)
Definition dropped_by (ms : list Minimatch) (path : string)
  (configured : bool) (pattern : string) : bool :=
  existsb (fun matcher =>
             (matcher_pattern matcher =? pattern)
             && matches_of path false matcher)
          ms
  && configured.

Definition reduce_callback (path : string) (config : option Config)
  (previousValue : bool) (matcher : Minimatch) : M SearchVars bool :=
  pathMatches <- matcher_match plat matcher path false ;;
  (if pathMatches && isSome config
   then modify (delete_unmatched (matcher_pattern matcher))
   else ret tt) ;;
  ret (pathMatches || previousValue).

Definition directoryFilter_result (entry : WalkEntry) (vars : SearchVars)
  (t : list Event) : Outcome bool * SearchVars * list Event :=
  let asked := upto_first (matches_of (entry_path entry) true) group_matchers in
  let t1 := t ++ map (match_event (entry_path entry) true) asked in
  let absolutePath := path_resolve plat basePath (entry_path entry) in
  if existsb (matches_of (entry_path entry) true) group_matchers then
    match loadConfigArrayForDirectory configLoader absolutePath with
    | inr configs =>
        (Ok (negb (isDirectoryIgnored configs absolutePath)), vars,
         t1 ++ [EvLoadConfigArrayForDirectory absolutePath;
                EvIsDirectoryIgnored absolutePath])
    | inl e =>
        (Throw (SystemError e), vars,
         t1 ++ [EvLoadConfigArrayForDirectory absolutePath])
    end
  else (Ok false, vars, t1).

Definition entryFilter_result (entry : WalkEntry) (vars : SearchVars)
  (t : list Event) : Outcome bool * SearchVars * list Event :=
  let path := entry_path entry in
  let absolutePath := path_resolve plat basePath path in
  if entry_isDirectory entry then (Ok false, vars, t)
  else
    match loadConfigArrayForFile configLoader absolutePath with
    | inl e =>
        (Throw (SystemError e), vars,
         t ++ [EvLoadConfigArrayForFile absolutePath])
    | inr configs =>
        let config := getConfig configs absolutePath in
        let t1 := t ++ [EvLoadConfigArrayForFile absolutePath;
                        EvGetConfig absolutePath] in
        let matchesPattern := existsb (matches_of path false) group_matchers in
        if (0 <? JsSet.size (unmatchedPatterns vars))%nat then
          (Ok (matchesPattern && isSome config),
           {| unmatchedPatterns :=
                filter (fun pattern =>
                          negb (dropped_by group_matchers path (isSome config)
                                           pattern))
                       (unmatchedPatterns vars);
              filePaths := filePaths vars |},
           t1 ++ map (match_event path false) group_matchers)
        else
          (Ok (matchesPattern && isSome config), vars,
           t1 ++ map (match_event path false)
                     (upto_first (matches_of path false) group_matchers))
    end.
End FilterResults.

(* ------------------------------------------------------------------------- *)
(** ** A group as the specification words it *)
(* ------------------------------------------------------------------------- *)

Section GroupSpec.
Variable plat : Platform.
Variable fs : FileSystem.
Variable Config : Type.
Variable basePath : string.
Variable patterns : list string.
Variable configLoader : ConfigLoader Config.

(** The unmatched set when the walk starts: the relative patterns of the
    group. *)
Definition initial_unmatched : JsSet.t string :=
  JsSet.from String.eqb (JsMap.keys (relativeToPatterns plat basePath patterns)).

(** The entries the walk of the group reaches: none when [base_path] is not
    a directory. *)
Definition group_entries : list WalkEntry :=
  match hfs_isDirectory fs basePath with
  | inr true =>
      reached_dir plat basePath patterns configLoader "" 1
                  (hfs_list fs basePath)
  | _ => []
  end.

(** The files the group yields. *)
Definition group_files : list string :=
  map (fun entry => path_resolve plat basePath (entry_path entry))
      (filter (spec_include plat basePath patterns configLoader)
              group_entries).

(** The unmatched set when the walk has finished. *)
Definition group_unmatched : JsSet.t string :=
  spec_unmatched plat basePath patterns configLoader
                 group_entries initial_unmatched.
End GroupSpec.

(* ------------------------------------------------------------------------- *)
(** ** Postconditions *)
(* ------------------------------------------------------------------------- *)

(** The computation only appends to the trace, and only events that
    satisfy [P]. *)
Definition appends (P : Event -> Prop) {L A} (m : M L A) : Prop :=
  forall l t, exists rest, trace_of (m l t) = t ++ rest /\ Forall P rest.

Definition extends {L A} (m : M L A) : Prop := appends (fun _ => True) m.

Section Postconditions.
Variable plat : Platform.
Variable fs : FileSystem.
Variable Config : Type.
Variable basePath : string.
Variable patterns : list string.
Variable rawPatterns : list string.
Variable configLoader : ConfigLoader Config.
Variable errorOnUnmatchedPattern : bool.

(** What a part of the walk that reaches [entries] does to the captured
    variables: when it ends normally, the included entries have been
    appended to [filePaths] and the hit patterns have left the unmatched
    set; it throws nothing but foreign errors, and then the unmatched set
    has at most shrunk; nothing suspends it. *)
Definition walk_post (entries : list WalkEntry) (vars : SearchVars)
  (r : Outcome unit * SearchVars * list Event) : Prop :=
  match outcome_of r with
  | Ok _ =>
      filePaths (local_of r) =
        filePaths vars
        ++ map (fun entry => path_resolve plat basePath (entry_path entry))
               (filter (spec_include plat basePath patterns configLoader)
                       entries)
      /\ unmatchedPatterns (local_of r) =
           spec_unmatched plat basePath patterns configLoader
                          entries (unmatchedPatterns vars)
  | Throw e =>
      is_discovery_error e = false
      /\ exists keep,
           unmatchedPatterns (local_of r) =
             filter keep (unmatchedPatterns vars)
  | Suspend => False
  end.

(** What [globSearch] ends with, for a group that has patterns: the files
    of the group, and an empty unmatched set if unmatched patterns are
    errors; or a foreign error; or the error that carries the unmatched
    patterns. *)
Definition search_post (o : Outcome (list string)) : Prop :=
  match o with
  | Ok result =>
      result = group_files plat fs basePath patterns configLoader
      /\ (errorOnUnmatchedPattern = true ->
          group_unmatched plat fs basePath patterns configLoader = [])
  | Throw error =>
      (exists e, error = SystemError e)
      \/ (errorOnUnmatchedPattern = true
          /\ group_unmatched plat fs basePath patterns configLoader <> []
          /\ error =
               UnmatchedSearchPatternsError
                 basePath
                 (map (fun pattern =>
                         JsMap.get pattern
                                   (relativeToPatterns plat basePath patterns))
                      (group_unmatched plat fs basePath patterns
                                       configLoader))
                 patterns rawPatterns)
  | Suspend => False
  end.
End Postconditions.

(* ------------------------------------------------------------------------- *)
(** ** Classification and grouping as the specification words them *)
(* ------------------------------------------------------------------------- *)

Section ClassifierSpec.
Variable plat : Platform.
Variable globInputPaths : bool.
Variable cwd : string.

(** Section 4.A, steps 2 to 5, on the outcome of the stat of step 1. *)
Definition spec_classify (input : string) (stat : option Stats)
  : PatternClass :=
  match stat with
  | Some stat =>
      if isFile stat then literal_file (path_resolve plat cwd input)
      else if Stats_isDirectory stat
           then literal_directory (path_resolve plat cwd input)
           else missing input
  | None =>
      if globInputPaths && isGlobPattern plat (normalizeToPosix input)
      then glob (normalizeToPosix input)
      else missing input
  end.

(** The classes the code assigns: as [spec_classify], except that a path
    that exists and is neither a regular file nor a directory gets no class,
    and that a missing pattern is kept with forward slashes. *)
Definition classify (input : string) (stat : option Stats)
  : option PatternClass :=
  match stat with
  | Some stat =>
      if isFile stat then Some (literal_file (path_resolve plat cwd input))
      else if Stats_isDirectory stat
           then Some (literal_directory (path_resolve plat cwd input))
           else None
  | None =>
      if globInputPaths && isGlobPattern plat (normalizeToPosix input)
      then Some (glob (normalizeToPosix input))
      else Some (missing (normalizeToPosix input))
  end.

(** Section 4.B: what the grouper does with a classified pattern.  The
    group of a literal directory gets the pattern [**] below it, that of a
    glob is keyed by its static prefix resolved against [cwd] and gets the
    pattern in absolute form. *)
Definition spec_group (input : string) (class : PatternClass)
  (vars : FindVars) : FindVars :=
  match class with
  | literal_file absolutePath => push_result absolutePath vars
  | literal_directory absolutePath =>
      add_search absolutePath (normalizeToPosix absolutePath ++ "/**")
                 (normalizeToPosix input) vars
  | glob normalized =>
      add_search (path_resolve plat cwd (globParent plat normalized))
                 (path_resolve plat cwd input) normalized vars
  | missing raw => push_missing raw vars
  end.
End ClassifierSpec.

(** What the result of one search of [globMultiSearch] is, for the group
    [search] it was started for. *)
Definition settled_post (plat : Platform) (fs : FileSystem) {Config : Type}
  (configLoader : ConfigLoader Config) (errorOnUnmatchedPattern : bool)
  (search : string * GlobSearch) (result : Settled) : Prop :=
  match result with
  | Fulfilled value => search_post plat fs (fst search)
                                   (search_patterns (snd search))
                                   (search_rawPatterns (snd search))
                                   configLoader errorOnUnmatchedPattern
                                   (Ok value)
  | Rejected reason => search_post plat fs (fst search)
                                   (search_patterns (snd search))
                                   (search_rawPatterns (snd search))
                                   configLoader errorOnUnmatchedPattern
                                   (Throw reason)
  end.

(** The first rejected result, with the search it belongs to. *)
Fixpoint first_rejected (settled : list (Settled * (string * GlobSearch)))
  : option (Error * (string * GlobSearch)) :=
  match settled with
  | [] => None
  | (Fulfilled _, _) :: rest => first_rejected rest
  | (Rejected reason, search) :: _ => Some (reason, search)
  end.

(** The first rejected result whose reason has no truthy [basePath]. *)
Fixpoint first_unexpected (settled : list (Settled * (string * GlobSearch)))
  : option (Error * (string * GlobSearch)) :=
  match settled with
  | [] => None
  | (Fulfilled _, _) :: rest => first_unexpected rest
  | (Rejected reason, search) :: rest =>
      if error_basePath_truthy reason then first_unexpected rest
      else Some (reason, search)
  end.

(** The two arrays of every group have the same length. *)
Definition same_lengths (searches : JsMap.t GlobSearch) : Prop :=
  forall key search,
    In (key, search) searches ->
    length (search_patterns search) = length (search_rawPatterns search).

(* ------------------------------------------------------------------------- *)
(** ** The second pass as the specification words it

    Section 4.E describes the second pass as a walk with the
    configuration disabled: no directory is ignored and every file counts
    as configured. *)
(* ------------------------------------------------------------------------- *)

(** A configuration provider that ignores no directory and has a
    configuration for every file. *)
Definition permissive_array : ConfigArray unit :=
  {| isDirectoryIgnored := fun _ => false;
     getConfig := fun _ => Some tt |}.

Definition permissive_loader : ConfigLoader unit :=
  {| loadConfigArrayForDirectory := fun _ => inr permissive_array;
     loadConfigArrayForFile := fun _ => inr permissive_array |}.

(** What the walk of [globMatch] does to [found], started with [found]
    false over a part of the tree that reaches [entries]: it runs to the end
    exactly when no entry is a file the pattern matches, and is suspended
    with [found] set at the first such file. *)
Definition match_post (plat : Platform) (basePath pattern : string)
  (entries : list WalkEntry) (r : Outcome unit * bool * list Event) : Prop :=
  let hit :=
    existsb (spec_include plat basePath [pattern] permissive_loader) entries in
  match outcome_of r with
  | Ok _ => local_of r = false /\ hit = false
  | Suspend => local_of r = true /\ hit = true
  | Throw e => is_discovery_error e = false
  end.

(** Where the patterns of a group come from: [raw] is an input pattern
    with forward slashes, and [pattern] is what the loop of [findFiles]
    makes of that input, which is the resolved input for a glob pattern
    and everything below the resolved input for a directory. *)
Definition from_input (plat : Platform) (cwd : string) (inputs : list string)
  (pattern raw : string) : Prop :=
  exists input,
    In input inputs
    /\ raw = normalizeToPosix input
    /\ (pattern = path_resolve plat cwd input
        \/ pattern
           = (normalizeToPosix (path_resolve plat cwd input) ++ "/**")%string).

(** The patterns and the raw patterns of every group correspond by
    position, and [P] holds of every pair. *)
Definition paired (P : string -> string -> Prop)
  (searches : JsMap.t GlobSearch) : Prop :=
  forall key search i pattern raw,
    In (key, search) searches ->
    nth_error (search_patterns search) i = Some pattern ->
    nth_error (search_rawPatterns search) i = Some raw ->
    P pattern raw.

(* ------------------------------------------------------------------------- *)
(** ** Induction on directory trees *)
(* ------------------------------------------------------------------------- *)

Section TreeInduction.
Variable P : DirEnt -> Prop.
Variable Q : DirRead -> Prop.
Hypothesis P_file : forall name, P (FileEnt name).
Hypothesis P_directory :
  forall name contents, Q contents -> P (DirectoryEnt name contents).
Hypothesis Q_enoent : Q Enoent.
Hypothesis Q_eio : forall e, Q (Eio e).
Hypothesis Q_entries : forall es, Forall P es -> Q (Entries es).

Fixpoint DirEnt_tree_ind (x : DirEnt) : P x :=
  match x with
  | FileEnt name => P_file name
  | DirectoryEnt name contents =>
      P_directory name (DirRead_tree_ind contents)
  end
with DirRead_tree_ind (d : DirRead) : Q d :=
  match d with
  | Enoent => Q_enoent
  | Eio e => Q_eio e
  | Entries es =>
      Q_entries
        ((fix all (es : list DirEnt) : Forall P es :=
            match es with
            | [] => Forall_nil P
            | x :: rest => Forall_cons x (DirEnt_tree_ind x) (all rest)
            end) es)
  end.
End TreeInduction.


From Stdlib Require Import Permutation DecimalString NArith.

(* ------------------------------------------------------------------------- *)
(** ** More of the discovery code, for the properties beyond the
       specification *)
(* ------------------------------------------------------------------------- *)

Fixpoint has_backslash (s : string) : bool :=
  match s with
  | EmptyString => false
  | String c rest => Ascii.eqb c "\"%char || has_backslash rest
  end.

(** The same libraries on a platform with the other [path.sep]. *)
Definition with_sep (backslash : bool) (plat : Platform) : Platform :=
  {| path_sep_is_backslash := backslash;
     path_resolve := path_resolve plat;
     path_relative := path_relative plat;
     isGlob := isGlob plat;
     globParent := globParent plat;
     minimatch := minimatch plat |}.

(** The base paths of the groups are distinct and [cwd] is the first. *)
Definition well_keyed (cwd : string) (searches : JsMap.t GlobSearch) : Prop :=
  NoDup (JsMap.keys searches) /\ hd_error (JsMap.keys searches) = Some cwd.


(* ------------------------------------------------------------------------- *)
(** ** Results-related helpers *)
(* ------------------------------------------------------------------------- *)

(** More of [node:path], [node:fs] and the process, and the [hash] module
    of the CLI engine; parameters like those of [Platform]. *)
Record NodeLib : Type := {
  path_dirname : string -> string;
  path_normalize : string -> string;
  path_isAbsolute : string -> bool;
  path_join : string -> string -> string;
  hash : string -> string;
  process_cwd : string;
  (** [fs.lstatSync(path)]; [None] when it throws. *)
  fs_lstatSync : string -> option Stats
}.

(** [path.sep] *)
Definition path_sep (plat : Platform) : ascii :=
  if path_sep_is_backslash plat then "\"%char else "/"%char.

(** [string.split(separator)] for a separator of one character. *)
Fixpoint split_aux (sep : ascii) (s acc : string) : list string :=
  match s with
  | EmptyString => [acc]
  | String c rest =>
      if Ascii.eqb c sep then acc :: split_aux sep rest ""
      else split_aux sep rest (acc ++ String c "")
  end.

Definition split (sep : ascii) (s : string) : list string :=
  split_aux sep s "".

(** [array.includes(x)] on strings. *)
Definition includes (xs : list string) (x : string) : bool :=
  existsb (String.eqb x) xs.

(** The double quote, which the messages contain. *)
Definition dquote : string := String (ascii_of_nat 34) "".

(** A fix of a lint message: the range to replace and the new text. *)
Record Fix : Type := { fix_range : nat * nat; fix_text : string }.

(** A lint message.  [fatal] and [fix] can be [undefined], [ruleId] and
    [nodeType] can be [null]; [severity] is 0, 1 or 2 in practice, and any
    number here. *)
Record LintMessage : Type := {
  ruleId : option string;
  fatal : option bool;
  severity : nat;
  message : string;
  msg_fix : option Fix;
  nodeType : option string
}.

(** The truth value of [message.fatal]. *)
Definition fatal_truthy (m : LintMessage) : bool :=
  match fatal m with
  | Some true => true
  | _ => false
  end.

Definition isErrorMessage (m : LintMessage) : bool :=
  (severity m =? 2)%nat.

(** The test of the loop of [calculateStatsPerFile]: the message counts as
    an error. *)
Definition is_error (m : LintMessage) : bool :=
  fatal_truthy m || isErrorMessage m.

(** The counters of [calculateStatsPerFile]. *)
Record FileStats : Type := {
  errorCount : nat;
  fatalErrorCount : nat;
  warningCount : nat;
  fixableErrorCount : nat;
  fixableWarningCount : nat
}.

(** The body of the loop of [calculateStatsPerFile]. *)
Definition count_message (stat : FileStats) (m : LintMessage) : FileStats :=
  if fatal_truthy m || (severity m =? 2)%nat then
    {| errorCount := S (errorCount stat);
       fatalErrorCount :=
         if fatal_truthy m then S (fatalErrorCount stat)
         else fatalErrorCount stat;
       warningCount := warningCount stat;
       fixableErrorCount :=
         if isSome (msg_fix m) then S (fixableErrorCount stat)
         else fixableErrorCount stat;
       fixableWarningCount := fixableWarningCount stat |}
  else
    {| errorCount := errorCount stat;
       fatalErrorCount := fatalErrorCount stat;
       warningCount := S (warningCount stat);
       fixableErrorCount := fixableErrorCount stat;
       fixableWarningCount :=
         if isSome (msg_fix m) then S (fixableWarningCount stat)
         else fixableWarningCount stat |}.

Definition zero_stats : FileStats :=
  {| errorCount := 0; fatalErrorCount := 0; warningCount := 0;
     fixableErrorCount := 0; fixableWarningCount := 0 |}.

Definition calculateStatsPerFile (messages : list LintMessage) : FileStats :=
  fold_left count_message messages zero_stats.

Definition add_stats (a b : FileStats) : FileStats :=
  {| errorCount := errorCount a + errorCount b;
     fatalErrorCount := fatalErrorCount a + fatalErrorCount b;
     warningCount := warningCount a + warningCount b;
     fixableErrorCount := fixableErrorCount a + fixableErrorCount b;
     fixableWarningCount := fixableWarningCount a + fixableWarningCount b |}.

(** A lint result. *)
Record LintResult : Type := {
  result_filePath : string;
  result_messages : list LintMessage;
  result_suppressedMessages : list LintMessage;
  result_errorCount : nat;
  result_warningCount : nat;
  result_fatalErrorCount : nat;
  result_fixableErrorCount : nat;
  result_fixableWarningCount : nat
}.

(** The counters a result carries. *)
Definition result_stats (r : LintResult) : FileStats :=
  {| errorCount := result_errorCount r;
     fatalErrorCount := result_fatalErrorCount r;
     warningCount := result_warningCount r;
     fixableErrorCount := result_fixableErrorCount r;
     fixableWarningCount := result_fixableWarningCount r |}.

Definition message_external : string :=
  "File ignored because outside of base path.".

Definition message_unconfigured : string :=
  "File ignored because no matching configuration was supplied.".

Definition message_node_modules : string :=
  "File ignored by default because it is located under the node_modules directory. Use ignore pattern "
  ++ dquote ++ "!**/node_modules/" ++ dquote
  ++ " to disable file ignore settings or use "
  ++ dquote ++ "--no-warn-ignored" ++ dquote
  ++ " to suppress this warning.".

Definition message_ignore_pattern : string :=
  "File ignored because of a matching ignore pattern. Use "
  ++ dquote ++ "--no-ignore" ++ dquote
  ++ " to disable file ignore settings or use "
  ++ dquote ++ "--no-warn-ignored" ++ dquote
  ++ " to suppress this warning.".

Section ResultHelpers.
Variable plat : Platform.
Variable node : NodeLib.

(** [baseDir && path.dirname(path.relative(baseDir, filePath))
              .split(path.sep).includes("node_modules")], as a truth
    value: the empty [baseDir] is falsy. *)
Definition isInNodeModules (filePath baseDir : string) : bool :=
  negb (baseDir =? "")
  && includes (split (path_sep plat)
                     (path_dirname node (path_relative plat baseDir filePath)))
              "node_modules".

Definition createIgnoreResult (filePath baseDir configStatus : string)
  : LintResult :=
  let message :=
    if configStatus =? "external" then message_external
    else if configStatus =? "unconfigured" then message_unconfigured
    else if isInNodeModules filePath baseDir then message_node_modules
    else message_ignore_pattern in
  {| result_filePath := filePath;
     result_messages :=
       [{| ruleId := None;
           fatal := Some false;
           severity := 1;
           message := message;
           msg_fix := None;
           nodeType := None |}];
     result_suppressedMessages := [];
     result_errorCount := 0;
     result_warningCount := 1;
     result_fatalErrorCount := 0;
     result_fixableErrorCount := 0;
     result_fixableWarningCount := 0 |}.

(** *** Cache-related helpers *)

(** [s.slice(-1) === path.sep] *)
Fixpoint ends_with_sep (s : string) : bool :=
  match s with
  | EmptyString => false
  | String c EmptyString => Ascii.eqb c (path_sep plat)
  | String _ rest => ends_with_sep rest
  end.

(** [prefix] is [None] when the option is absent. *)
Definition getCacheFile (cacheFile cwd : string) (prefix : option string)
  : string :=
  let prefix := match prefix with Some p => p | None => ".cache_" end in
  let normalizedCacheFile := path_normalize node cacheFile in
  let resolvedCacheFile := path_resolve plat cwd normalizedCacheFile in
  let looksLikeADirectory := ends_with_sep normalizedCacheFile in
  let getCacheFileForDirectory :=
    path_join node resolvedCacheFile (prefix ++ hash node cwd) in
  match fs_lstatSync node resolvedCacheFile with
  | Some fileStats =>
      if Stats_isDirectory fileStats || looksLikeADirectory
      then getCacheFileForDirectory
      else resolvedCacheFile
  | None =>
      if looksLikeADirectory then getCacheFileForDirectory
      else resolvedCacheFile
  end.
End ResultHelpers.

(** The rest of the sample world. *)
Module SampleNode.

Definition dirname (p : string) : string :=
  match removelast (Sample.split_slash p) with
  | [] => "."
  | segs => Sample.join_slash segs
  end.

Definition is_absolute (p : string) : bool :=
  match p with
  | String "/" _ => true
  | _ => false
  end.

Definition join (a b : string) : string := (a ++ "/" ++ b)%string.

Definition node : NodeLib :=
  {| path_dirname := dirname;
     path_normalize := fun p => p;
     path_isAbsolute := is_absolute;
     path_join := join;
     hash := fun s => String.string_of_list_ascii
                        (rev (String.list_ascii_of_string s));
     process_cwd := "/r";
     fs_lstatSync := Sample.stat |}.

End SampleNode.

(* ------------------------------------------------------------------------- *)
(** ** General helpers and options-related helpers *)
(* ------------------------------------------------------------------------- *)

(** A function value: the default rule filter [() => true], or a function
    of the caller. *)
Inductive FunctionRef : Type :=
| ConstTrue
| Closure (id : nat).

(** The values an option can hold.  Arrays have no holes; an object is the
    list of its own enumerable properties in the order of [Object.keys],
    and has no getters. *)
#[local] Unset Elimination Schemes.
Inductive JsValue : Type :=
| VUndefined
| VNull
| VBool (b : bool)
| VNumber (n : nat)
| VString (s : string)
| VFunction (f : FunctionRef)
| VArray (items : list JsValue)
| VObject (props : list (string * JsValue)).
#[local] Set Elimination Schemes.

Definition typeof (v : JsValue) : string :=
  match v with
  | VUndefined => "undefined"
  | VNull => "object"
  | VBool _ => "boolean"
  | VNumber _ => "number"
  | VString _ => "string"
  | VFunction _ => "function"
  | VArray _ => "object"
  | VObject _ => "object"
  end.

Definition Array_isArray (v : JsValue) : bool :=
  match v with VArray _ => true | _ => false end.

(** [v === null] *)
Definition is_null (v : JsValue) : bool :=
  match v with VNull => true | _ => false end.

(** [v === true] *)
Definition is_true (v : JsValue) : bool :=
  match v with VBool true => true | _ => false end.

(** [v === s] for a string literal [s]. *)
Definition is_string (v : JsValue) (s : string) : bool :=
  match v with VString t => (t =? s)%string | _ => false end.

(** [Object.keys(v)] of an array or an object; it is called on nothing
    else. *)
Definition Object_keys (v : JsValue) : list string :=
  match v with
  | VObject props => map fst props
  | VArray items =>
      map (fun i => NilEmpty.string_of_uint (Nat.to_uint i))
          (seq 0 (length items))
  | _ => []
  end.

(** A string holds the UTF-8 encoding of the JavaScript string.  The
    encoding of a code point below U+10000: *)
Definition utf8 (code : N) : list ascii :=
  (if code <? 128 then [ascii_of_N code]
   else if code <? 2048 then
     [ascii_of_N (192 + code / 64); ascii_of_N (128 + code mod 64)]
   else
     [ascii_of_N (224 + code / 4096);
      ascii_of_N (128 + (code / 64) mod 64);
      ascii_of_N (128 + code mod 64)])%N.

(** The code points that [trim] strips.  White space: U+0009, U+000B,
    U+000C, U+FEFF and the space separators U+0020, U+00A0, U+1680, U+2000
    to U+200A, U+202F, U+205F and U+3000; line terminators: U+000A, U+000D,
    U+2028 and U+2029. *)
Definition white_space_code_points : list N :=
  [ 9; 10; 11; 12; 13; 32; 160; 5760;
    8192; 8193; 8194; 8195; 8196; 8197; 8198; 8199; 8200; 8201; 8202;
    8232; 8233; 8239; 8287; 12288; 65279 ]%N.

Definition white_space : list (list ascii) :=
  map utf8 white_space_code_points.

(** [s] without its prefix [prefix]. *)
Fixpoint drop_prefix (prefix s : list ascii) : option (list ascii) :=
  match prefix, s with
  | [], _ => Some s
  | a :: prefix', b :: s' =>
      if Ascii.eqb a b then drop_prefix prefix' s' else None
  | _ :: _, [] => None
  end.

(** [s] without the first element of [table] that it starts with. *)
Fixpoint drop_first (table : list (list ascii)) (s : list ascii)
  : option (list ascii) :=
  match table with
  | [] => None
  | w :: rest =>
      match drop_prefix w s with
      | Some s' => Some s'
      | None => drop_first rest s
      end
  end.

(** [s] without the elements of [table] that it starts with, one after
    the other; [fuel] bounds their number. *)
Fixpoint drop_all (table : list (list ascii)) (fuel : nat) (s : list ascii)
  : list ascii :=
  match fuel with
  | O => s
  | S fuel' =>
      match drop_first table s with
      | Some s' => drop_all table fuel' s'
      | None => s
      end
  end.

Definition trimStart_bytes (s : list ascii) : list ascii :=
  drop_all white_space (length s) s.

(** The encoding of a character never ends with the encoding of another
    one, so the characters at the end are stripped on the reversed
    bytes. *)
Definition trimEnd_bytes (s : list ascii) : list ascii :=
  rev (drop_all (map (@rev ascii) white_space) (length s) (rev s)).

(** [s.trim()] *)
Definition trim (s : string) : string :=
  string_of_list_ascii
    (trimEnd_bytes (trimStart_bytes (list_ascii_of_string s))).

(** The string consists of white space and line terminators only. *)
Definition blank (s : string) : Prop :=
  exists ws,
    Forall (fun w => In w white_space) ws
    /\ list_ascii_of_string s = concat ws.

(** No element of [table] is the beginning of another one. *)
Definition starts_with (prefix s : list ascii) : bool :=
  isSome (drop_prefix prefix s).

Definition prefix_free (table : list (list ascii)) : bool :=
  forallb (fun w =>
             forallb (fun w' => negb (starts_with w w') || starts_with w' w)
                     table)
          table.

Definition isNonEmptyString (value : JsValue) : bool :=
  match value with
  | VString s => negb (trim s =? "")%string
  | _ => false
  end.

Definition isArrayOfNonEmptyString (value : JsValue) : bool :=
  match value with
  | VArray items =>
      negb (length items =? 0)%nat && forallb isNonEmptyString items
  | _ => false
  end.

Definition isEmptyArrayOrArrayOfNonEmptyString (value : JsValue) : bool :=
  match value with
  | VArray items => forallb isNonEmptyString items
  | _ => false
  end.

Definition isFixType (x : JsValue) : bool :=
  is_string x "directive" || is_string x "problem"
  || is_string x "suggestion" || is_string x "layout".

Definition isFixTypeArray (x : JsValue) : bool :=
  match x with
  | VArray items => forallb isFixType items
  | _ => false
  end.

(** The normalized options. *)
Record ESLintOptions : Type := {
  opt_allowInlineConfig : JsValue;
  opt_baseConfig : JsValue;
  opt_cache : JsValue;
  opt_cacheLocation : JsValue;
  opt_cacheStrategy : JsValue;
  opt_configFile : JsValue;
  opt_overrideConfig : JsValue;
  opt_cwd : JsValue;
  opt_errorOnUnmatchedPattern : JsValue;
  opt_fix : JsValue;
  opt_fixTypes : JsValue;
  opt_flags : JsValue;
  opt_globInputPaths : JsValue;
  opt_ignore : JsValue;
  opt_ignorePatterns : JsValue;
  opt_stats : JsValue;
  opt_passOnNoPatterns : JsValue;
  opt_warnIgnored : JsValue;
  opt_ruleFilter : JsValue
}.

(** How [processOptions] ends: with the normalized options, with
    [throw new ESLintInvalidOptionsError(errors)], or with a [TypeError] of
    the language. *)
Inductive OptionsResult : Type :=
| Normalized (o : ESLintOptions)
| InvalidOptions (errors : list string)
| TypeError.

(** [options[key]]: [undefined] when the object has no such property. *)
Definition get_property (options : list (string * JsValue)) (key : string)
  : JsValue :=
  match find (fun kv => (fst kv =? key)%string) options with
  | Some kv => snd kv
  | None => VUndefined
  end.

(** A destructured property with a default: the default stands in for
    [undefined]. *)
Definition with_default (options : list (string * JsValue)) (key : string)
  (default : JsValue) : JsValue :=
  match get_property options key with
  | VUndefined => default
  | v => v
  end.

(** The names [processOptions] destructures. *)
Definition known_options : list string :=
  [ "allowInlineConfig"; "baseConfig"; "cache"; "cacheLocation";
    "cacheStrategy"; "cwd"; "errorOnUnmatchedPattern"; "fix"; "fixTypes";
    "flags"; "globInputPaths"; "ignore"; "ignorePatterns"; "overrideConfig";
    "overrideConfigFile"; "plugins"; "stats"; "warnIgnored";
    "passOnNoPatterns"; "ruleFilter" ].

(** [...unknownOptions]: the properties that are not destructured. *)
Definition rest_properties (options : list (string * JsValue))
  : list (string * JsValue) :=
  filter (fun kv => negb (includes known_options (fst kv))) options.

(** [errors.push(message)] *)
Definition push (errors : list string) (message : string) : list string :=
  errors ++ [message].

(** [if (test) { errors.push(message); }] *)
Definition push_if (test : bool) (message : string) (errors : list string)
  : list string :=
  if test then push errors message else errors.

Definition removed (name : string) : string :=
  "'" ++ name ++ "' has been removed.".

Definition removed_use (name replacement : string) : string :=
  removed name ++ " Please use the '" ++ replacement ++ "' option instead.".

Definition must_be (name what : string) : string :=
  "'" ++ name ++ "' must be " ++ what ++ ".".

Section Options.
Variable node : NodeLib.

Definition processOptions (options : list (string * JsValue))
  : OptionsResult :=
  let allowInlineConfig :=
    with_default options "allowInlineConfig" (VBool true) in
  let baseConfig := with_default options "baseConfig" VNull in
  let cache := with_default options "cache" (VBool false) in
  let cacheLocation :=
    with_default options "cacheLocation" (VString ".eslintcache") in
  let cacheStrategy :=
    with_default options "cacheStrategy" (VString "metadata") in
  let cwd := with_default options "cwd" (VString (process_cwd node)) in
  let errorOnUnmatchedPattern :=
    with_default options "errorOnUnmatchedPattern" (VBool true) in
  let fixOption := with_default options "fix" (VBool false) in
  let fixTypes := with_default options "fixTypes" VNull in
  let flags := with_default options "flags" (VArray []) in
  let globInputPaths := with_default options "globInputPaths" (VBool true) in
  let ignore := with_default options "ignore" (VBool true) in
  let ignorePatterns := with_default options "ignorePatterns" VNull in
  let overrideConfig := with_default options "overrideConfig" VNull in
  let overrideConfigFile := with_default options "overrideConfigFile" VNull in
  let plugins := with_default options "plugins" (VObject []) in
  let stats := with_default options "stats" (VBool false) in
  let warnIgnored := with_default options "warnIgnored" (VBool true) in
  let passOnNoPatterns :=
    with_default options "passOnNoPatterns" (VBool false) in
  let ruleFilter :=
    with_default options "ruleFilter" (VFunction ConstTrue) in
  let unknownOptions := rest_properties options in
  let errors : list string := [] in
  let unknownOptionKeys := map fst unknownOptions in
  let errors :=
    if (1 <=? length unknownOptionKeys)%nat then
      let errors :=
        push errors
             ("Unknown options: " ++ String.concat ", " unknownOptionKeys) in
      let errors :=
        push_if (includes unknownOptionKeys "cacheFile")
                (removed_use "cacheFile" "cacheLocation") errors in
      let errors :=
        push_if (includes unknownOptionKeys "configFile")
                (removed_use "configFile" "overrideConfigFile") errors in
      let errors :=
        push_if (includes unknownOptionKeys "envs") (removed "envs") errors in
      let errors :=
        push_if (includes unknownOptionKeys "extensions")
                (removed "extensions") errors in
      let errors :=
        push_if (includes unknownOptionKeys "resolvePluginsRelativeTo")
                (removed "resolvePluginsRelativeTo") errors in
      let errors :=
        push_if (includes unknownOptionKeys "globals")
                (removed_use "globals"
                             "overrideConfig.languageOptions.globals")
                errors in
      let errors :=
        push_if (includes unknownOptionKeys "ignorePath")
                (removed "ignorePath") errors in
      let errors :=
        push_if (includes unknownOptionKeys "ignorePattern")
                (removed_use "ignorePattern" "overrideConfig.ignorePatterns")
                errors in
      let errors :=
        push_if (includes unknownOptionKeys "parser")
                (removed_use "parser" "overrideConfig.languageOptions.parser")
                errors in
      let errors :=
        push_if (includes unknownOptionKeys "parserOptions")
                (removed_use "parserOptions"
                             "overrideConfig.languageOptions.parserOptions")
                errors in
      let errors :=
        push_if (includes unknownOptionKeys "rules")
                (removed_use "rules" "overrideConfig.rules") errors in
      let errors :=
        push_if (includes unknownOptionKeys "rulePaths")
                (removed "rulePaths"
                 ++ " Please define your rules using plugins.") errors in
      let errors :=
        push_if (includes unknownOptionKeys "reportUnusedDisableDirectives")
                (removed_use
                   "reportUnusedDisableDirectives"
                   "overrideConfig.linterOptions.reportUnusedDisableDirectives")
                errors in
      errors
    else errors in
  let errors :=
    push_if (negb (typeof allowInlineConfig =? "boolean"))
            (must_be "allowInlineConfig" "a boolean") errors in
  let errors :=
    push_if (negb (typeof baseConfig =? "object"))
            (must_be "baseConfig" "an object or null") errors in
  let errors :=
    push_if (negb (typeof cache =? "boolean"))
            (must_be "cache" "a boolean") errors in
  let errors :=
    push_if (negb (isNonEmptyString cacheLocation))
            (must_be "cacheLocation" "a non-empty string") errors in
  let errors :=
    push_if (negb (is_string cacheStrategy "metadata")
             && negb (is_string cacheStrategy "content"))
            (must_be "cacheStrategy"
                     ("any of " ++ dquote ++ "metadata" ++ dquote ++ ", "
                      ++ dquote ++ "content" ++ dquote))
            errors in
  let errors :=
    push_if (negb (isNonEmptyString cwd)
             || negb (match cwd with
                      | VString s => path_isAbsolute node s
                      | _ => false
                      end))
            (must_be "cwd" "an absolute path") errors in
  let errors :=
    push_if (negb (typeof errorOnUnmatchedPattern =? "boolean"))
            (must_be "errorOnUnmatchedPattern" "a boolean") errors in
  let errors :=
    push_if (negb (typeof fixOption =? "boolean")
             && negb (typeof fixOption =? "function"))
            (must_be "fix" "a boolean or a function") errors in
  let errors :=
    push_if (negb (is_null fixTypes) && negb (isFixTypeArray fixTypes))
            (must_be "fixTypes"
                     ("an array of any of "
                      ++ dquote ++ "directive" ++ dquote ++ ", "
                      ++ dquote ++ "problem" ++ dquote ++ ", "
                      ++ dquote ++ "suggestion" ++ dquote ++ ", and "
                      ++ dquote ++ "layout" ++ dquote))
            errors in
  let errors :=
    push_if (negb (isEmptyArrayOrArrayOfNonEmptyString flags))
            (must_be "flags" "an array of non-empty strings") errors in
  let errors :=
    push_if (negb (typeof globInputPaths =? "boolean"))
            (must_be "globInputPaths" "a boolean") errors in
  let errors :=
    push_if (negb (typeof ignore =? "boolean"))
            (must_be "ignore" "a boolean") errors in
  let errors :=
    push_if (negb (isEmptyArrayOrArrayOfNonEmptyString ignorePatterns)
             && negb (is_null ignorePatterns))
            (must_be "ignorePatterns"
                     "an array of non-empty strings or null") errors in
  let errors :=
    push_if (negb (typeof overrideConfig =? "object"))
            (must_be "overrideConfig" "an object or null") errors in
  let errors :=
    push_if (negb (isNonEmptyString overrideConfigFile)
             && negb (is_null overrideConfigFile)
             && negb (is_true overrideConfigFile))
            (must_be "overrideConfigFile"
                     "a non-empty string, null, or true") errors in
  let errors :=
    push_if (negb (typeof passOnNoPatterns =? "boolean"))
            (must_be "passOnNoPatterns" "a boolean") errors in
  let errors :=
    if negb (typeof plugins =? "object") then
      push errors (must_be "plugins" "an object or null")
    else if negb (is_null plugins) && includes (Object_keys plugins) ""
    then push errors "'plugins' must not include an empty string."
    else errors in
  let errors :=
    push_if (Array_isArray plugins)
            "'plugins' doesn't add plugins to configuration to load. Please use the 'overrideConfig.plugins' option instead."
            errors in
  let errors :=
    push_if (negb (typeof stats =? "boolean"))
            (must_be "stats" "a boolean") errors in
  let errors :=
    push_if (negb (typeof warnIgnored =? "boolean"))
            (must_be "warnIgnored" "a boolean") errors in
  let errors :=
    push_if (negb (typeof ruleFilter =? "function"))
            (must_be "ruleFilter" "a function") errors in
  if (0 <? length errors)%nat then InvalidOptions errors
  else
    (* [path.normalize] and the spread throw a [TypeError] on what is not a
       string and not iterable. *)
    match cwd, flags with
    | VString cwd_string, VArray flag_items =>
        Normalized
          {| opt_allowInlineConfig := allowInlineConfig;
             opt_baseConfig := baseConfig;
             opt_cache := cache;
             opt_cacheLocation := cacheLocation;
             opt_cacheStrategy := cacheStrategy;
             opt_configFile :=
               if is_true overrideConfigFile then VBool false
               else overrideConfigFile;
             opt_overrideConfig := overrideConfig;
             opt_cwd := VString (path_normalize node cwd_string);
             opt_errorOnUnmatchedPattern := errorOnUnmatchedPattern;
             opt_fix := fixOption;
             opt_fixTypes := fixTypes;
             opt_flags := VArray flag_items;
             opt_globInputPaths := globInputPaths;
             opt_ignore := ignore;
             opt_ignorePatterns := ignorePatterns;
             opt_stats := stats;
             opt_passOnNoPatterns := passOnNoPatterns;
             opt_warnIgnored := warnIgnored;
             opt_ruleFilter := ruleFilter |}
    | _, _ => TypeError
    end.

End Options.

(* ========================================================================= *)
(** * Properties *)
(* ========================================================================= *)

(** ** Lists, sets and maps *)

Lemma filter_filter {A} (f g : A -> bool) (xs : list A) :
  filter f (filter g xs) = filter (fun x => g x && f x) xs.
Proof.
  induction xs as [|x xs IH]; simpl; [reflexivity|].
  destruct (g x); simpl; [destruct (f x)|]; now rewrite IH.
Qed.

Lemma filter_true {A} (xs : list A) : filter (fun _ => true) xs = xs.
Proof. induction xs; simpl; congruence. Qed.

Lemma JsString_eqb_eq (a b : JsString) : JsString_eqb a b = true <-> a = b.
Proof.
  destruct a as [x|], b as [y|]; simpl; try (split; congruence).
  rewrite String.eqb_eq. split; congruence.
Qed.

Section SetFacts.
Variable A : Type.
Variable eqb : A -> A -> bool.
Hypothesis eqb_eq : forall x y, eqb x y = true <-> x = y.

Lemma existsb_eqb_In (x : A) (s : list A) :
  existsb (eqb x) s = true <-> In x s.
Proof.
  rewrite existsb_exists. split.
  - intros (y & Hy & E). apply eqb_eq in E. now subst.
  - intros H. exists x. split; [assumption|now apply eqb_eq].
Qed.

Lemma JsSet_add_In (x y : A) (s : list A) :
  In y (JsSet.add eqb x s) <-> y = x \/ In y s.
Proof.
  unfold JsSet.add.
  destruct (existsb (eqb x) s) eqn:E.
  - apply existsb_eqb_In in E. split; [tauto|]. intros [->|H]; assumption.
  - rewrite in_app_iff. simpl. intuition congruence.
Qed.

Lemma JsSet_add_NoDup (x : A) (s : list A) :
  NoDup s -> NoDup (JsSet.add eqb x s).
Proof.
  intros H. unfold JsSet.add.
  destruct (existsb (eqb x) s) eqn:E; [assumption|].
  apply NoDup_app; [assumption| constructor; [intros []|constructor] |].
  intros y Hy [<-|[]].
  apply existsb_eqb_In in Hy. congruence.
Qed.

Lemma fold_add_In (xs s : list A) (y : A) :
  In y (fold_left (fun s x => JsSet.add eqb x s) xs s)
  <-> In y s \/ In y xs.
Proof.
  revert s. induction xs as [|x xs IH]; intros s; simpl; [tauto|].
  rewrite IH, JsSet_add_In. intuition congruence.
Qed.

Lemma fold_add_NoDup (xs s : list A) :
  NoDup s -> NoDup (fold_left (fun s x => JsSet.add eqb x s) xs s).
Proof.
  revert s. induction xs as [|x xs IH]; intros s H; simpl; [assumption|].
  apply IH, JsSet_add_NoDup, H.
Qed.

(** [new Set(xs)] has the elements of [xs], each once. *)
Lemma JsSet_from_In (xs : list A) (y : A) :
  In y (JsSet.from eqb xs) <-> In y xs.
Proof. unfold JsSet.from. rewrite fold_add_In. simpl. tauto. Qed.

Lemma JsSet_from_NoDup (xs : list A) : NoDup (JsSet.from eqb xs).
Proof. apply fold_add_NoDup. constructor. Qed.

(** The first occurrence of every element is the one that is kept: a new
    element goes behind everything before it, and a repeated one changes
    nothing. *)
Lemma fold_add_app (xs s : list A) :
  fold_left (fun s x => JsSet.add eqb x s) xs s =
  s ++ fold_left (fun s x => JsSet.add eqb x s)
                 (filter (fun x => negb (existsb (eqb x) s)) xs) [].
Proof.
  remember (length xs) as n eqn:Hn.
  assert (Hle : length xs <= n) by lia. clear Hn.
  revert xs s Hle.
  induction n as [|n IH]; intros [|x xs] s Hle; simpl in *;
    try (now rewrite app_nil_r); try lia.
  assert (Hadd : forall s', JsSet.add eqb x s' =
                 if existsb (eqb x) s' then s' else s' ++ [x])
    by reflexivity.
  rewrite Hadd.
  destruct (existsb (eqb x) s) eqn:E; simpl.
  - apply IH. lia.
  - rewrite Hadd. simpl.
    rewrite (IH xs) by lia.
    rewrite (IH (filter _ xs) [x]).
    + rewrite <- app_assoc. f_equal. f_equal. f_equal.
      rewrite filter_filter. apply filter_ext. intros y.
      rewrite existsb_app. simpl.
      now rewrite orb_false_r, negb_orb.
    + pose proof (filter_length_le
                    (fun x => negb (existsb (eqb x) s)) xs).
      lia.
Qed.

Lemma JsSet_from_cons (x : A) (xs : list A) :
  JsSet.from eqb (x :: xs) =
  x :: JsSet.from eqb (filter (fun y => negb (eqb y x)) xs).
Proof.
  unfold JsSet.from. simpl. unfold JsSet.add at 2. simpl.
  rewrite fold_add_app. simpl. f_equal. f_equal.
  apply filter_ext. intros y. now rewrite orb_false_r.
Qed.
End SetFacts.

(** ** The map from relative patterns to patterns *)

Lemma JsMap_get_set {V} (k k' : string) (v : V) (m : JsMap.t V) :
  JsMap.get k' (JsMap.set k v m)
  = if k =? k' then Some v else JsMap.get k' m.
Proof.
  induction m as [|[k0 v0] m IH]; simpl.
  - reflexivity.
  - destruct (k0 =? k) eqn:E0; simpl.
    + apply String.eqb_eq in E0. subst k0. now destruct (k =? k').
    + rewrite IH. destruct (k0 =? k') eqn:E1; [|reflexivity].
      apply String.eqb_eq in E1. subst k0. now rewrite String.eqb_sym, E0.
Qed.

Lemma JsMap_get_keys {V} (k : string) (m : JsMap.t V) :
  In k (JsMap.keys m) -> exists v, JsMap.get k m = Some v.
Proof.
  unfold JsMap.keys. induction m as [|[k0 v0] m IH]; simpl; [tauto|].
  intros [->|H].
  - rewrite String.eqb_refl. eauto.
  - destruct (k0 =? k); eauto.
Qed.

Lemma JsMap_get_In {V} (k : string) (v : V) (m : JsMap.t V) :
  JsMap.get k m = Some v -> In (k, v) m.
Proof.
  induction m as [|[k0 v0] m IH]; simpl; [discriminate|].
  destruct (k0 =? k) eqn:E.
  - apply String.eqb_eq in E. intros [= ->]. subst. now left.
  - intros H. right. now apply IH.
Qed.

Lemma JsMap_set_In {V} (k k' : string) (v v' : V) (m : JsMap.t V) :
  In (k', v') (JsMap.set k v m) -> (k', v') = (k, v) \/ In (k', v') m.
Proof.
  induction m as [|[k0 v0] m IH]; simpl.
  - intros [H|[]]. now left.
  - destruct (k0 =? k); simpl.
    + intros [H|H]; [now left|right; now right].
    + intros [H|H]; [right; now left|].
      destruct (IH H); [now left|right; now right].
Qed.

Lemma JsMap_set_nonempty {V} (k : string) (v : V) (m : JsMap.t V) :
  JsMap.set k v m <> [].
Proof. destruct m as [|[k0 v0] m]; simpl; [|destruct (k0 =? k)]; discriminate. Qed.

(** ** The filters of [globSearch] in closed form *)

Section FilterFacts.
Variable plat : Platform.
Variable Config : Type.
Variable basePath : string.
Variable patterns : list string.
Variable configLoader : ConfigLoader Config.

Local Abbreviation group_matchers := (matchers plat basePath patterns).
Local Abbreviation matches_of := (matches_of plat).
Local Abbreviation dropped_by := (dropped_by plat).
Local Abbreviation reduce_callback := (reduce_callback plat).

(** [some] asks the matchers in order and stops at the first that
    matches. *)
Lemma some_matchers_spec L (ms : list Minimatch) path partial (l : L) t :
  some (fun matcher => matcher_match plat matcher path partial) ms l t =
  (Ok (existsb (matches_of path partial) ms), l,
   t ++ map (match_event path partial)
            (upto_first (matches_of path partial) ms)).
Proof.
  revert t. induction ms as [|m ms IH]; intros t; simpl.
  - now rewrite app_nil_r.
  - unfold bind, matcher_match, emit, ret at 1. simpl.
    unfold matches_of at 1 3. fold (matches_of path partial).
    destruct (minimatch plat (matcher_pattern m) path partial); simpl.
    + reflexivity.
    + rewrite IH. now rewrite <- app_assoc.
Qed.

(** [reduce] asks every matcher and drops from the unmatched set the
    pattern of each matcher that matches, when the file has a
    configuration. *)
Lemma reduce_matchers_spec (ms : list Minimatch) path
  (config : option Config) previousValue vars t :
  reduce (reduce_callback path config) ms previousValue vars t =
  (Ok (existsb (matches_of path false) ms || previousValue),
   {| unmatchedPatterns :=
        filter (fun pattern =>
                  negb (dropped_by ms path (isSome config) pattern))
               (unmatchedPatterns vars);
      filePaths := filePaths vars |},
   t ++ map (match_event path false) ms).
Proof.
  revert previousValue vars t.
  induction ms as [|m ms IH]; intros previousValue vars t; simpl.
  - unfold ret, dropped_by. simpl. rewrite filter_true, app_nil_r.
    now destruct vars.
  - unfold bind at 1, reduce_callback at 1.
    unfold bind, matcher_match, emit, ret, modify. simpl.
    unfold matches_of at 1.
    destruct (minimatch plat (matcher_pattern m) path false) eqn:Em;
      destruct (isSome config) eqn:Ec; simpl;
      rewrite IH, <- app_assoc; simpl; f_equal; f_equal.
    + now rewrite orb_true_r.
    + unfold JsSet.delete. rewrite filter_filter. f_equal.
      apply filter_ext. intros p. unfold dropped_by, matches_of. simpl.
      rewrite Em. rewrite !andb_true_r.
      now rewrite negb_orb.
    + now rewrite orb_true_r.
    + f_equal. apply filter_ext. intros p. unfold dropped_by.
      now rewrite !andb_false_r.
    + f_equal. apply filter_ext. intros p. unfold dropped_by, matches_of.
      simpl. rewrite Em. now rewrite andb_false_r.
    + f_equal. apply filter_ext. intros p. unfold dropped_by.
      now rewrite !andb_false_r.
Qed.

Lemma directoryFilter_spec entry vars t :
  directoryFilter plat basePath patterns configLoader entry vars t =
  directoryFilter_result plat basePath patterns configLoader entry vars t.
Proof.
  unfold directoryFilter, directoryFilter_result, bind.
  rewrite some_matchers_spec. 
  destruct (existsb (matches_of (entry_path entry) true) group_matchers); simpl.
  - unfold call, emit, ret.
    destruct (loadConfigArrayForDirectory configLoader _); simpl.
    + reflexivity.
    + now rewrite <- !app_assoc.
  - reflexivity.
Qed.

Lemma entryFilter_spec entry vars t :
  entryFilter plat basePath patterns configLoader entry vars t =
  entryFilter_result plat basePath patterns configLoader entry vars t.
Proof.
  unfold entryFilter, entryFilter_result.
  destruct (entry_isDirectory entry); [reflexivity|].
  unfold bind at 1, call.
  destruct (loadConfigArrayForFile configLoader _) as [e|configs];
    [reflexivity|].
  unfold bind at 1, emit. unfold bind at 1, get.
  destruct (0 <? JsSet.size (unmatchedPatterns vars))%nat.
  - unfold bind at 1.
    change (reduce _ group_matchers false)
      with (reduce (reduce_callback
                      (entry_path entry)
                      (getConfig configs
                         (path_resolve plat basePath (entry_path entry))))
                   group_matchers false).
    rewrite reduce_matchers_spec. unfold ret.
    rewrite orb_false_r, <- !app_assoc. reflexivity.
  - unfold bind at 1. rewrite some_matchers_spec. unfold ret.
    rewrite <- !app_assoc. reflexivity.
Qed.
End FilterFacts.

(** ** The monad *)

Lemma bind_assoc {L A B C} (m : M L A) (f : A -> M L B) (g : B -> M L C) l t :
  bind (bind m f) g l t = bind m (fun x => bind (f x) g) l t.
Proof. unfold bind. now destruct (m l t) as [[[a|e|] l'] t']. Qed.

Lemma walk_dir_eq L (directoryFilter entryFilter : WalkEntry -> M L bool)
  (consumer : WalkEntry -> M L unit) dirPath parentPath depth d :
  walk_dir directoryFilter entryFilter consumer dirPath parentPath depth d =
  (emit (EvList dirPath) ;;
   match d with
   | Enoent => ret tt
   | Eio e => throw (SystemError e)
   | Entries es =>
       walk_each directoryFilter entryFilter consumer
                 dirPath parentPath depth es
   end).
Proof.
  destruct d; try reflexivity.
  simpl. f_equal.
  induction es as [|x rest IH]; [reflexivity|].
  simpl. now rewrite <- IH.
Qed.

(** ** The walk of [globSearch] against the walk of the specification *)

Section WalkFacts.
Variable plat : Platform.
Variable Config : Type.
Variable basePath : string.
Variable patterns : list string.
Variable configLoader : ConfigLoader Config.

Local Abbreviation dF := (directoryFilter plat basePath patterns configLoader).
Local Abbreviation eF := (entryFilter plat basePath patterns configLoader).
Local Abbreviation push := (push_filePath plat basePath).
Local Abbreviation include := (spec_include plat basePath patterns configLoader).
Local Abbreviation descend := (spec_descend plat basePath patterns configLoader).
Local Abbreviation unmatched_after :=
  (spec_unmatched plat basePath patterns configLoader).
Local Abbreviation resolved :=
  (fun entry => path_resolve plat basePath (entry_path entry)).

Local Abbreviation walk_post :=
  (walk_post plat basePath patterns configLoader).

Lemma unmatched_after_app entries1 entries2 unmatched :
  unmatched_after (entries1 ++ entries2) unmatched =
  unmatched_after entries2 (unmatched_after entries1 unmatched).
Proof.
  unfold spec_unmatched. rewrite filter_filter. apply filter_ext.
  intros p. now rewrite existsb_app, negb_orb.
Qed.

Lemma unmatched_after_nil unmatched : unmatched_after [] unmatched = unmatched.
Proof. unfold spec_unmatched. simpl. apply filter_true. Qed.

Lemma walk_post_seq (m1 m2 : M SearchVars unit) entries1 entries2 vars t :
  walk_post entries1 vars (m1 vars t) ->
  (forall vars' t', walk_post entries2 vars' (m2 vars' t')) ->
  walk_post (entries1 ++ entries2) vars ((m1 ;; m2) vars t).
Proof.
  unfold walk_post, bind, outcome_of, local_of.
  destruct (m1 vars t) as [[[a|e|] vars1] t1]; simpl; try tauto.
  intros [Hf Hu] H2. specialize (H2 vars1 t1).
  destruct (m2 vars1 t1) as [[[a2|e2|] vars2] t2]; simpl in *; try tauto.
  - destruct H2 as [Hf2 Hu2]. split.
    + rewrite Hf2, Hf, filter_app, map_app, app_assoc. reflexivity.
    + rewrite Hu2, Hu. symmetry. apply unmatched_after_app.
  - destruct H2 as [He [keep Hk]]. split; [assumption|].
    rewrite Hk, Hu. unfold spec_unmatched. rewrite filter_filter.
    eexists. reflexivity.
Qed.

Lemma has_config_loaded absolutePath configs :
  loadConfigArrayForFile configLoader absolutePath = inr configs ->
  has_config configLoader absolutePath
  = isSome (getConfig configs absolutePath).
Proof. unfold has_config. now intros ->. Qed.

(** One entry shown to the entry filter and yielded to [push] if accepted,
    without the walk below it. *)
Lemma dropped_by_hits entry configs unmatched :
  entry_isDirectory entry = false ->
  loadConfigArrayForFile configLoader (resolved entry) = inr configs ->
  filter (fun pattern =>
            negb (dropped_by plat (matchers plat basePath patterns)
                    (entry_path entry)
                    (isSome (getConfig configs (resolved entry))) pattern))
         unmatched
  = unmatched_after [entry] unmatched.
Proof.
  intros Ed El. unfold spec_unmatched. apply filter_ext. intros p.
  unfold dropped_by, hits, matches_of. simpl.
  rewrite Ed, (has_config_loaded _ El). simpl.
  now rewrite orb_false_r.
Qed.

Lemma include_file entry configs :
  entry_isDirectory entry = false ->
  loadConfigArrayForFile configLoader (resolved entry) = inr configs ->
  include entry
  = existsb (matches_of plat (entry_path entry) false)
            (matchers plat basePath patterns)
    && isSome (getConfig configs (resolved entry)).
Proof.
  intros Ed El. unfold spec_include.
  rewrite Ed, (has_config_loaded _ El). reflexivity.
Qed.

Lemma include_directory entry :
  entry_isDirectory entry = true -> include entry = false.
Proof. intros Ed. unfold spec_include. now rewrite Ed. Qed.

Lemma unmatched_after_directory entry unmatched :
  entry_isDirectory entry = true ->
  unmatched_after [entry] unmatched = unmatched.
Proof.
  intros Ed. unfold spec_unmatched, hits. simpl. rewrite Ed. simpl.
  apply filter_true.
Qed.

Lemma size_zero_nil (s : JsSet.t string) :
  (0 <? JsSet.size s)%nat = false -> s = [].
Proof.
  intros H. apply Nat.ltb_ge in H. unfold JsSet.size in H.
  destruct s; [reflexivity|simpl in H; lia].
Qed.

Lemma walk_post_entryFilter entry vars t :
  walk_post [entry] vars
    ((shouldEmitEntry <- eF entry ;;
      if shouldEmitEntry then push entry else ret tt) vars t).
Proof.
  unfold bind. rewrite entryFilter_spec. unfold entryFilter_result.
  destruct (entry_isDirectory entry) eqn:Ed.
  { unfold walk_post, outcome_of, local_of, ret. cbn [fst snd filter].
    rewrite (include_directory _ Ed), (unmatched_after_directory _ _ Ed).
    cbn [map]. now rewrite app_nil_r. }
  destruct (loadConfigArrayForFile configLoader _) as [e|configs] eqn:El.
  { unfold walk_post, outcome_of, local_of. cbn [fst snd].
    split; [reflexivity|]. exists (fun _ => true). now rewrite filter_true. }
  cbv zeta.
  unfold walk_post. cbn [filter]. rewrite (include_file _ Ed El).
  destruct (0 <? JsSet.size (unmatchedPatterns vars))%nat eqn:Esz.
  - rewrite <- (dropped_by_hits _ _ Ed El).
    destruct (existsb _ _ && isSome _);
      unfold outcome_of, local_of, push_filePath, modify, ret;
      cbn [fst snd map unmatchedPatterns filePaths];
      rewrite ?app_nil_r; split; reflexivity.
  - rewrite (size_zero_nil _ Esz).
    destruct (existsb _ _ && isSome _);
      unfold outcome_of, local_of, push_filePath, modify, ret;
      cbn [fst snd map unmatchedPatterns filePaths];
      rewrite ?app_nil_r, ?(size_zero_nil _ Esz); split; reflexivity.
Qed.

Lemma walk_post_nil vars t : walk_post [] vars (ret tt vars t).
Proof.
  unfold walk_post, outcome_of, local_of, ret. cbn [fst snd filter map].
  now rewrite app_nil_r, unmatched_after_nil.
Qed.

Lemma walk_post_throw entries vars e t :
  walk_post entries vars (Throw (SystemError e), vars, t).
Proof.
  unfold walk_post, outcome_of, local_of. cbn [fst snd].
  split; [reflexivity|]. exists (fun _ => true). now rewrite filter_true.
Qed.

Lemma descend_loaded entry configs :
  existsb (matches_of plat (entry_path entry) true)
          (matchers plat basePath patterns) = true ->
  loadConfigArrayForDirectory configLoader (resolved entry) = inr configs ->
  descend entry = negb (isDirectoryIgnored configs (resolved entry)).
Proof.
  intros Hp Hl. unfold spec_descend, prefix_matches_some, matches_of in *.
  rewrite Hp. unfold provider_keeps_directory. now rewrite Hl.
Qed.

Lemma descend_no_prefix entry :
  existsb (matches_of plat (entry_path entry) true)
          (matchers plat basePath patterns) = false ->
  descend entry = false.
Proof.
  intros Hp. unfold spec_descend, prefix_matches_some, matches_of in *.
  now rewrite Hp.
Qed.

Local Abbreviation reached_d :=
  (reached_dir plat basePath patterns configLoader).
Local Abbreviation reached_e :=
  (reached_ent plat basePath patterns configLoader).

Lemma walk_file_post name dirPath parentPath depth vars t :
  walk_post (reached_e parentPath depth (FileEnt name)) vars
            (walk_ent dF eF push dirPath parentPath depth (FileEnt name)
                      vars t).
Proof.
  cbn [walk_ent reached_ent]. cbv zeta.
  rewrite <- bind_assoc.
  change [walkEntry_of parentPath depth (FileEnt name)]
    with ([walkEntry_of parentPath depth (FileEnt name)] ++ []).
  apply walk_post_seq; [apply walk_post_entryFilter|].
  intros. apply walk_post_nil.
Qed.

Lemma walk_directory_post name contents :
  (forall dirPath parentPath depth vars t,
      walk_post (reached_d parentPath depth contents) vars
                (walk_dir dF eF push dirPath parentPath depth contents
                          vars t)) ->
  forall dirPath parentPath depth vars t,
    walk_post (reached_e parentPath depth (DirectoryEnt name contents)) vars
              (walk_ent dF eF push dirPath parentPath depth
                        (DirectoryEnt name contents) vars t).
Proof.
  intros IH dirPath parentPath depth vars t.
  cbn [walk_ent reached_ent]. cbv zeta.
  set (entry := walkEntry_of parentPath depth (DirectoryEnt name contents)).
  rewrite <- bind_assoc.
  change (entry :: ?l) with ([entry] ++ l).
  apply walk_post_seq; [apply walk_post_entryFilter|].
  intros vars' t'. unfold bind. rewrite directoryFilter_spec.
  unfold directoryFilter_result. cbv zeta.
  destruct (existsb _ _) eqn:Hp.
  - destruct (loadConfigArrayForDirectory configLoader _) as [e|configs] eqn:Hl.
    + apply walk_post_throw.
    + rewrite (descend_loaded _ Hp Hl).
      destruct (negb _); [apply IH|apply walk_post_nil].
  - rewrite (descend_no_prefix _ Hp). apply walk_post_nil.
Qed.

Lemma walk_entries_post es :
  Forall (fun x => forall dirPath parentPath depth vars t,
              walk_post (reached_e parentPath depth x) vars
                        (walk_ent dF eF push dirPath parentPath depth x
                                  vars t)) es ->
  forall dirPath parentPath depth vars t,
    walk_post (reached_d parentPath depth (Entries es)) vars
              (walk_dir dF eF push dirPath parentPath depth (Entries es)
                        vars t).
Proof.
  intros Hall dirPath parentPath depth vars t.
  rewrite walk_dir_eq. unfold bind at 1, emit.
  generalize (t ++ [EvList dirPath]). clear t. revert vars.
  induction Hall as [|x rest Hx _ IH]; intros vars t.
  - apply walk_post_nil.
  - change (reached_d parentPath depth (Entries (x :: rest)))
      with (reached_e parentPath depth x
            ++ reached_d parentPath depth (Entries rest)).
    cbn [walk_each]. apply walk_post_seq; [apply Hx|apply IH].
Qed.

Lemma walk_unreadable_post d dirPath parentPath depth vars t :
  (d = Enoent \/ exists e, d = Eio e) ->
  walk_post (reached_d parentPath depth d) vars
            (walk_dir dF eF push dirPath parentPath depth d vars t).
Proof.
  intros [->|[e ->]]; rewrite walk_dir_eq; unfold bind, emit.
  - apply walk_post_nil.
  - unfold throw. apply walk_post_throw.
Qed.

(** The walk of [globSearch] reaches the entries of the specification and
    treats them as the specification says. *)
Lemma walk_dir_post d :
  forall dirPath parentPath depth vars t,
    walk_post (reached_d parentPath depth d) vars
              (walk_dir dF eF push dirPath parentPath depth d vars t).
Proof.
  apply (DirRead_tree_ind
           (P := fun x => forall dirPath parentPath depth vars t,
                walk_post (reached_e parentPath depth x) vars
                  (walk_ent dF eF push dirPath parentPath depth x vars t))
           (fun d => forall dirPath parentPath depth vars t,
                walk_post (reached_d parentPath depth d) vars
                  (walk_dir dF eF push dirPath parentPath depth d vars t))).
  - apply walk_file_post.
  - apply walk_directory_post.
  - intros. apply walk_unreadable_post. now left.
  - intros. apply walk_unreadable_post. right. now exists e.
  - apply walk_entries_post.
Qed.
End WalkFacts.

(** ** [globSearch] in terms of the group it walks *)

Section SearchFacts.
Variable plat : Platform.
Variable fs : FileSystem.
Variable Config : Type.
Variable basePath : string.
Variable patterns : list string.
Variable rawPatterns : list string.
Variable configLoader : ConfigLoader Config.
Variable errorOnUnmatchedPattern : bool.

Local Abbreviation files := (group_files plat fs basePath patterns configLoader).
Local Abbreviation remaining :=
  (group_unmatched plat fs basePath patterns configLoader).
Local Abbreviation unmatched_error :=
  (UnmatchedSearchPatternsError
     basePath
     (map (fun pattern =>
             JsMap.get pattern (relativeToPatterns plat basePath patterns))
          remaining)
     patterns rawPatterns).

Local Abbreviation search_post :=
  (search_post plat fs basePath patterns rawPatterns configLoader
               errorOnUnmatchedPattern).

Lemma nonempty_size (s : JsSet.t string) :
  (0 <? JsSet.size s)%nat = true <-> s <> [].
Proof.
  unfold JsSet.size. destruct s; simpl; split; try congruence; try easy.
Qed.

Lemma search_finish_post (vars : SearchVars) t :
  filePaths vars = files ->
  unmatchedPatterns vars = remaining ->
  search_post
    (outcome_of
       ((if errorOnUnmatchedPattern
            && (0 <? JsSet.size (unmatchedPatterns vars))%nat
         then throw (UnmatchedSearchPatternsError
                       basePath
                       (map (fun pattern =>
                               JsMap.get pattern
                                 (relativeToPatterns plat basePath patterns))
                            (unmatchedPatterns vars))
                       patterns rawPatterns)
         else ret (filePaths vars)) vars t)).
Proof.
  intros Hf Hu.
  destruct errorOnUnmatchedPattern eqn:Heo; simpl.
  - destruct (0 <? JsSet.size (unmatchedPatterns vars))%nat eqn:E.
    + unfold throw, outcome_of. simpl. right.
      apply nonempty_size in E. rewrite <- Hu. repeat split; assumption.
    + unfold ret, outcome_of. simpl. split; [assumption|].
      intros _. rewrite <- Hu. now apply size_zero_nil.
  - unfold ret, outcome_of. simpl. split; [assumption|congruence].
Qed.

Lemma globSearch_body_post t :
  search_post
    (outcome_of
       (globSearch_body plat fs basePath patterns rawPatterns configLoader
          errorOnUnmatchedPattern
          {| unmatchedPatterns :=
               initial_unmatched plat basePath patterns;
             filePaths := [] |} t)).
Proof.
  unfold globSearch_body. unfold bind at 1, call.
  unfold group_files, group_unmatched, group_entries.
  destruct (hfs_isDirectory fs basePath) as [e|[|]] eqn:Hd.
  - unfold outcome_of. simpl. left. now exists e.
  - unfold bind at 1.
    pose proof (walk_dir_post plat basePath patterns configLoader
                  (hfs_list fs basePath) basePath "" 1
                  {| unmatchedPatterns :=
                       initial_unmatched plat basePath patterns;
                     filePaths := [] |}
                  (t ++ [EvIsDirectory basePath])) as Hw.
    unfold walk_post, outcome_of, local_of in Hw.
    destruct (walk_dir _ _ _ _ _ _ _ _ _) as [[[a|e|] vars] t'];
      cbn [fst snd] in Hw.
    + destruct Hw as [Hf Hu]. unfold bind, get.
      pose proof (search_finish_post vars t') as Hfin.
      unfold group_files, group_unmatched, group_entries in Hfin.
      rewrite Hd in Hfin. apply Hfin; assumption.
    + destruct Hw as [He _]. unfold outcome_of. simpl. left.
      destruct e; try discriminate. now eexists.
    + contradiction.
  - unfold bind, ret, get.
    pose proof (search_finish_post
                  {| unmatchedPatterns :=
                       initial_unmatched plat basePath patterns;
                     filePaths := [] |} (t ++ [EvIsDirectory basePath]))
      as Hfin.
    unfold group_files, group_unmatched, group_entries in Hfin.
    rewrite Hd in Hfin. apply Hfin.
    + reflexivity.
    + unfold spec_unmatched. simpl. now rewrite filter_true.
Qed.

(** [globSearch] leaves the variables of its caller alone and ends as
    [search_post] says, or with no file when the group has no pattern. *)
Lemma globSearch_post L (l : L) t :
  let r := globSearch plat fs basePath patterns rawPatterns configLoader
                      errorOnUnmatchedPattern l t in
  local_of r = l
  /\ (patterns = [] -> outcome_of r = Ok [])
  /\ (patterns <> [] -> search_post (outcome_of r)).
Proof.
  unfold globSearch.
  destruct (Nat.eqb_spec (length patterns) 0) as [Hz|Hnz].
  - apply length_zero_iff_nil in Hz.
    unfold local_of, outcome_of, ret. simpl. repeat split; congruence.
  - unfold scoped.
    pose proof (globSearch_body_post t) as Hb.
    unfold initial_unmatched in Hb.
    destruct (globSearch_body _ _ _ _ _ _ _ _ _) as [[o vars] t'].
    unfold local_of, outcome_of in *. simpl in *.
    repeat split.
    + intros ->. simpl in Hnz. congruence.
    + intros _. exact Hb.
Qed.
End SearchFacts.

(** ** Inclusion of files (rules F-1 to F-3) *)

Lemma isSome_true {A} (o : option A) : isSome o = true <-> exists a, o = Some a.
Proof.
  destruct o; simpl; split; try congruence; eauto.
  intros [a H]. discriminate.
Qed.

Lemma has_config_true Config (configLoader : ConfigLoader Config) p :
  has_config configLoader p = true
  <-> exists configs config,
        loadConfigArrayForFile configLoader p = inr configs
        /\ getConfig configs p = Some config.
Proof.
  unfold has_config.
  destruct (loadConfigArrayForFile configLoader p) as [e|configs].
  - split; [discriminate|]. intros (? & ? & ? & _). discriminate.
  - rewrite isSome_true. split.
    + intros [c Hc]. now exists configs, c.
    + intros (configs' & c & E & Hc). injection E as <-. now exists c.
Qed.

Lemma entryFilter_accepts_iff (plat : Platform) Config basePath patterns
  (configLoader : ConfigLoader Config) entry vars t :
  outcome_of (entryFilter plat basePath patterns configLoader entry vars t)
  = Ok true
  <-> spec_include plat basePath patterns configLoader entry = true.
Proof.
  rewrite entryFilter_spec. unfold entryFilter_result, spec_include.
  destruct (entry_isDirectory entry); [simpl; split; discriminate|].
  unfold has_config. cbv zeta.
  destruct (loadConfigArrayForFile configLoader _) as [e|configs].
  - unfold outcome_of. simpl. rewrite andb_false_r. split; discriminate.
  - fold (matches_some plat basePath patterns (entry_path entry)).
    change (existsb (matches_of plat (entry_path entry) false)
                    (matchers plat basePath patterns))
      with (matches_some plat basePath patterns (entry_path entry)).
    destruct (0 <? JsSet.size (unmatchedPatterns vars))%nat;
      unfold outcome_of; simpl;
      destruct (matches_some plat basePath patterns (entry_path entry) && _);
      split; congruence.
Qed.

Lemma spec_include_true (plat : Platform) Config basePath patterns
  (configLoader : ConfigLoader Config) entry :
  spec_include plat basePath patterns configLoader entry = true
  <-> entry_isDirectory entry = false
      /\ matches_some plat basePath patterns (entry_path entry) = true
      /\ has_config configLoader
                    (path_resolve plat basePath (entry_path entry)) = true.
Proof.
  unfold spec_include. rewrite !andb_true_iff, negb_true_iff. tauto.
Qed.

(** C1: during a group walk a file entry is included in the results, as
    its path resolved against the base path of the group, if and only if
    it is not a directory, at least one compiled matcher matches its
    relative path, and the configuration provider gives a configuration
    for its absolute path; a file without a configuration is never
    emitted.  The first part is the decision of the entry filter on one
    entry; the other parts are the result of a whole walk that ends
    normally: it is the list of the resolved paths of the included entries
    among those the walk reaches. *)
Theorem walk_includes_file_iff :
  forall (plat : Platform) (fs : FileSystem) (Config : Type)
         (basePath : string) (patterns rawPatterns : list string)
         (configLoader : ConfigLoader Config)
         (errorOnUnmatchedPattern : bool),
    (forall entry vars t,
        outcome_of (entryFilter plat basePath patterns configLoader
                                entry vars t) = Ok true
        <-> entry_isDirectory entry = false
            /\ matches_some plat basePath patterns (entry_path entry) = true
            /\ exists configs config,
                 loadConfigArrayForFile configLoader
                   (path_resolve plat basePath (entry_path entry))
                 = inr configs
                 /\ getConfig configs
                      (path_resolve plat basePath (entry_path entry))
                    = Some config)
    /\ (forall L (l : L) t result,
           patterns <> [] ->
           outcome_of (globSearch plat fs basePath patterns rawPatterns
                                  configLoader errorOnUnmatchedPattern l t)
           = Ok result ->
           result = group_files plat fs basePath patterns configLoader
           /\ (forall entry,
                  In entry (group_entries plat fs basePath patterns
                                          configLoader) ->
                  spec_include plat basePath patterns configLoader entry
                  = true ->
                  In (path_resolve plat basePath (entry_path entry)) result)
           /\ (forall p,
                  In p result ->
                  exists entry,
                    In entry (group_entries plat fs basePath patterns
                                            configLoader)
                    /\ p = path_resolve plat basePath (entry_path entry)
                    /\ entry_isDirectory entry = false
                    /\ matches_some plat basePath patterns (entry_path entry)
                       = true
                    /\ has_config configLoader p = true)).
Proof.
  intros. split.
  - intros entry vars t.
    rewrite entryFilter_accepts_iff, spec_include_true, has_config_true.
    reflexivity.
  - intros L l t result Hne Hok.
    destruct (@globSearch_post plat fs Config basePath patterns rawPatterns
                configLoader errorOnUnmatchedPattern L l t)
      as (_ & _ & Hpost).
    specialize (Hpost Hne). rewrite Hok in Hpost.
    destruct Hpost as [-> _].
    split; [reflexivity|]. unfold group_files. split.
    + intros entry Hin Hinc. apply in_map_iff. exists entry.
      split; [reflexivity|]. apply filter_In. now split.
    + intros p Hp. apply in_map_iff in Hp. destruct Hp as (entry & <- & Hf).
      apply filter_In in Hf. destruct Hf as [Hin Hinc].
      apply spec_include_true in Hinc. exists entry. tauto.
Qed.

Lemma walk_includes_file_iff_witness :
  ["/r/a/x.js"; "/r/c/d/w.js"; "/r/c/d/.hidden.js"]
  = group_files Sample.platform Sample.file_system "/r" ["/r/**/*.js"]
                Sample.config_loader.
Proof.
  destruct (@walk_includes_file_iff Sample.platform Sample.file_system unit
              "/r" ["/r/**/*.js"] ["**/*.js"] Sample.config_loader true)
    as [_ H].
  apply (H unit tt []).
  - discriminate.
  - reflexivity.
Defined.

(** ** Traces only grow *)

Create HintDb trace discriminated.

Section Appends.
Variable P : Event -> Prop.

Lemma appends_ret {L A} (a : A) : appends P (@ret L A a).
Proof.
  intros l t. exists []. unfold trace_of, ret. simpl.
  now rewrite app_nil_r.
Qed.

Lemma appends_throw {L A} e : appends P (@throw L A e).
Proof.
  intros l t. exists []. unfold trace_of, throw. simpl.
  now rewrite app_nil_r.
Qed.

Lemma appends_suspend {L A} : appends P (@suspend L A).
Proof.
  intros l t. exists []. unfold trace_of, suspend. simpl.
  now rewrite app_nil_r.
Qed.

Lemma appends_get {L} : appends P (@get L).
Proof.
  intros l t. exists []. unfold trace_of, get. simpl.
  now rewrite app_nil_r.
Qed.

Lemma appends_modify {L} (f : L -> L) : appends P (modify f).
Proof.
  intros l t. exists []. unfold trace_of, modify. simpl.
  now rewrite app_nil_r.
Qed.

Lemma appends_emit {L} ev : P ev -> appends P (@emit L ev).
Proof. intros H l t. exists [ev]. split; [reflexivity|now constructor]. Qed.

Lemma appends_call {L A} ev (r : SysErr + A) :
  P ev -> appends P (@call L A ev r).
Proof.
  intros H l t. exists [ev]. unfold trace_of, call.
  destruct r; (split; [reflexivity|now constructor]).
Qed.

Lemma appends_bind {L A B} (m : M L A) (k : A -> M L B) :
  appends P m -> (forall a, appends P (k a)) -> appends P (bind m k).
Proof.
  intros Hm Hk l t. unfold bind. destruct (Hm l t) as (r1 & H1 & P1).
  destruct (m l t) as [[[a|e|] l1] t1]; unfold trace_of in H1; simpl in H1.
  - destruct (Hk a l1 t1) as (r2 & H2 & P2). exists (r1 ++ r2).
    rewrite H2, H1. split; [now rewrite app_assoc|].
    apply Forall_app. now split.
  - now exists r1.
  - now exists r1.
Qed.

Lemma appends_if {L A} (b : bool) (m1 m2 : M L A) :
  appends P m1 -> appends P m2 -> appends P (if b then m1 else m2).
Proof. now destruct b. Qed.

Hint Resolve appends_ret appends_throw appends_suspend appends_get
  appends_modify appends_emit appends_call appends_bind appends_if : trace.

Lemma appends_some {L A} (f : A -> M L bool) xs :
  (forall x, appends P (f x)) -> appends P (some f xs).
Proof. intros Hf. induction xs; simpl; auto with trace. Qed.

Lemma appends_reduce {L A B} (f : B -> A -> M L B) xs init :
  (forall b x, appends P (f b x)) -> appends P (reduce f xs init).
Proof.
  intros Hf. revert init. induction xs; intros; simpl; auto with trace.
Qed.

Lemma appends_mapM {L A B} (f : A -> M L B) xs :
  (forall x, appends P (f x)) -> appends P (mapM f xs).
Proof. intros Hf. induction xs; simpl; auto 6 with trace. Qed.

Lemma appends_scoped {L L' A} (init : L') (m : M L' A) :
  appends P m -> appends P (@scoped L L' A init m).
Proof.
  intros Hm l t. unfold scoped. destruct (Hm init t) as (r & H & HP).
  exists r. unfold trace_of in *. now destruct (m init t) as [[o l'] t'].
Qed.

Lemma appends_next {L} (m : M L unit) : appends P m -> appends P (next m).
Proof.
  intros Hm l t. unfold next. destruct (Hm l t) as (r & H & HP).
  exists r. unfold trace_of in *. now destruct (m l t) as [[[a|e|] l'] t'].
Qed.

Lemma appends_settle {L} (m : M L (list string)) :
  appends P m -> appends P (settle m).
Proof.
  intros Hm l t. unfold settle. destruct (Hm l t) as (r & H & HP).
  exists r. unfold trace_of in *. now destruct (m l t) as [[[a|e|] l'] t'].
Qed.

Hint Resolve appends_some appends_reduce appends_mapM appends_scoped
  appends_next appends_settle : trace.

Lemma appends_allSettled {L} (ms : list (M L (list string))) :
  Forall (appends P) ms -> appends P (allSettled ms).
Proof. induction 1; simpl; auto 6 with trace. Qed.

Lemma appends_matcher_match {L} plat matcher path partial :
  (forall pattern, P (EvMatch pattern path partial)) ->
  appends P (@matcher_match plat L matcher path partial).
Proof. intros H. unfold matcher_match. auto with trace. Qed.

Hint Resolve appends_allSettled appends_matcher_match : trace.

Section WalkTraces.
Variable L : Type.
Variables directoryFilter entryFilter : WalkEntry -> M L bool.
Variable consumer : WalkEntry -> M L unit.
Hypothesis P_list : forall dirPath, P (EvList dirPath).
Hypothesis directoryFilter_appends :
  forall entry, appends P (directoryFilter entry).
Hypothesis entryFilter_appends :
  forall entry, appends P (entryFilter entry).
Hypothesis consumer_appends : forall entry, appends P (consumer entry).

Local Abbreviation ent_appends :=
  (fun x => forall dirPath parentPath depth,
       appends P (walk_ent directoryFilter entryFilter consumer
                           dirPath parentPath depth x)).
Local Abbreviation dir_appends :=
  (fun d => forall dirPath parentPath depth,
       appends P (walk_dir directoryFilter entryFilter consumer
                           dirPath parentPath depth d)).

Lemma appends_walk_each es :
  Forall ent_appends es ->
  forall dirPath parentPath depth,
    appends P (walk_each directoryFilter entryFilter consumer
                         dirPath parentPath depth es).
Proof.
  intros Hall dirPath parentPath depth.
  induction Hall; cbn [walk_each]; auto with trace.
Qed.

Lemma appends_walk :
  (forall x, ent_appends x) /\ (forall d, dir_appends d).
Proof.
  assert (Hfile : forall name, ent_appends (FileEnt name)).
  { intros. cbn [walk_ent]. auto 7 with trace. }
  assert (Hdir : forall name contents,
             dir_appends contents -> ent_appends (DirectoryEnt name contents)).
  { intros name contents IH dirPath parentPath depth.
    cbn [walk_ent]. auto 9 with trace. }
  assert (Henoent : dir_appends Enoent).
  { intros. rewrite walk_dir_eq. auto with trace. }
  assert (Heio : forall e, dir_appends (Eio e)).
  { intros. rewrite walk_dir_eq. auto with trace. }
  assert (Hentries : forall es, Forall ent_appends es ->
                                dir_appends (Entries es)).
  { intros es Hall dirPath parentPath depth. rewrite walk_dir_eq.
    apply appends_bind; [auto with trace|]. intros _.
    now apply appends_walk_each. }
  split.
  - exact (DirEnt_tree_ind (P := ent_appends) dir_appends
             Hfile Hdir Henoent Heio Hentries).
  - exact (DirRead_tree_ind (P := ent_appends) dir_appends
             Hfile Hdir Henoent Heio Hentries).
Qed.

Lemma appends_walk_dir d dirPath parentPath depth :
  appends P (walk_dir directoryFilter entryFilter consumer
                      dirPath parentPath depth d).
Proof. apply appends_walk. Qed.

(** Reading a directory is the first thing the walk of it does. *)
Lemma walk_dir_trace_head d dirPath parentPath depth l t :
  exists rest,
    trace_of (walk_dir directoryFilter entryFilter consumer
                       dirPath parentPath depth d l t)
    = t ++ [EvList dirPath] ++ rest.
Proof.
  rewrite walk_dir_eq. unfold bind at 1, emit.
  assert (He : appends P
                 (match d with
                  | Enoent => ret tt
                  | Eio e => throw (SystemError e)
                  | Entries es =>
                      walk_each directoryFilter entryFilter consumer
                                dirPath parentPath depth es
                  end)).
  { destruct d; auto with trace. apply appends_walk_each.
    apply Forall_forall. intros x _. apply appends_walk. }
  destruct (He l (t ++ [EvList dirPath])) as (rest & Hr & _).
  exists rest. rewrite Hr. now rewrite <- app_assoc.
Qed.
End WalkTraces.
End Appends.

#[local] Hint Resolve appends_ret appends_throw appends_suspend appends_get
  appends_modify appends_emit appends_call appends_bind appends_if
  appends_some appends_reduce appends_mapM appends_scoped appends_next
  appends_settle appends_allSettled appends_matcher_match
  appends_walk_dir : trace.
#[local] Hint Extern 1 (is_provider_event _ = false) => reflexivity : trace.
#[local] Hint Extern 1 (is_walk_event _ = false) => reflexivity : trace.
#[local] Hint Extern 1 True => exact I : trace.

Lemma extends_elim {L A} (m : M L A) :
  extends m -> forall l t, exists rest, trace_of (m l t) = t ++ rest.
Proof. intros H l t. destruct (H l t) as (rest & Hr & _). now exists rest. Qed.

Section FilterTraces.
Variable plat : Platform.
Variable Config : Type.
Variable basePath : string.
Variable patterns : list string.
Variable configLoader : ConfigLoader Config.

Lemma extends_directoryFilter entry :
  extends (directoryFilter plat basePath patterns configLoader entry).
Proof. unfold extends, directoryFilter. auto 9 with trace. Qed.

Lemma extends_entryFilter entry :
  extends (entryFilter plat basePath patterns configLoader entry).
Proof. unfold extends, entryFilter. auto 12 with trace. Qed.

Lemma extends_push_filePath entry :
  extends (push_filePath plat basePath entry).
Proof. unfold extends, push_filePath. auto with trace. Qed.
End FilterTraces.

#[local] Hint Resolve extends_directoryFilter extends_entryFilter
  extends_push_filePath : trace.

(** ** Descent into directories (rules D-1 to D-3) *)

Lemma reached_dir_head (plat : Platform) Config basePath patterns
  (configLoader : ConfigLoader Config) parentPath depth es x :
  In x es ->
  In (walkEntry_of parentPath depth x)
     (reached_dir plat basePath patterns configLoader parentPath depth
                  (Entries es)).
Proof.
  induction es as [|y rest IH]; intros Hin; [contradiction|].
  change (reached_dir plat basePath patterns configLoader parentPath depth
                      (Entries (y :: rest)))
    with (reached_ent plat basePath patterns configLoader parentPath depth y
          ++ reached_dir plat basePath patterns configLoader parentPath depth
                         (Entries rest)).
  apply in_app_iff. destruct Hin as [->|Hin].
  - left. destruct x; cbn [reached_ent]; now left.
  - right. now apply IH.
Qed.

Lemma provider_keeps_directory_true Config (configLoader : ConfigLoader Config)
  p :
  provider_keeps_directory configLoader p = true
  <-> exists configs,
        loadConfigArrayForDirectory configLoader p = inr configs
        /\ isDirectoryIgnored configs p = false.
Proof.
  unfold provider_keeps_directory.
  destruct (loadConfigArrayForDirectory configLoader p) as [e|configs].
  - split; [discriminate|]. intros (? & ? & _). discriminate.
  - rewrite negb_true_iff. split.
    + intros H. now exists configs.
    + intros (configs' & E & H). now injection E as <-.
Qed.

Lemma directoryFilter_accepts_iff (plat : Platform) Config basePath patterns
  (configLoader : ConfigLoader Config) entry vars t :
  outcome_of (directoryFilter plat basePath patterns configLoader
                              entry vars t) = Ok true
  <-> spec_descend plat basePath patterns configLoader entry = true.
Proof.
  rewrite directoryFilter_spec.
  unfold directoryFilter_result, spec_descend, prefix_matches_some.
  cbv zeta.
  change (existsb (matches_of plat (entry_path entry) true)
                  (matchers plat basePath patterns))
    with (existsb (fun matcher =>
                     minimatch plat (matcher_pattern matcher)
                               (entry_path entry) true)
                  (matchers plat basePath patterns)).
  destruct (existsb _ _); [|simpl; split; discriminate].
  unfold provider_keeps_directory.
  destruct (loadConfigArrayForDirectory configLoader _) as [e|configs];
    unfold outcome_of; simpl.
  - split; discriminate.
  - destruct (negb _); split; congruence.
Qed.

(** The trace of one call of the directory filter: the matchers asked
    whether the path is a prefix of a match, in order, up to the first that
    says so; then, only if one said so, the two calls to the provider. *)
Lemma directoryFilter_trace (plat : Platform) Config basePath patterns
  (configLoader : ConfigLoader Config) entry vars t :
  exists provider_calls,
    trace_of (directoryFilter plat basePath patterns configLoader
                              entry vars t)
    = t ++ map (match_event (entry_path entry) true)
               (upto_first (matches_of plat (entry_path entry) true)
                           (matchers plat basePath patterns))
        ++ provider_calls
    /\ forallb is_provider_event provider_calls = true
    /\ (prefix_matches_some plat basePath patterns (entry_path entry) = false
        -> provider_calls = []).
Proof.
  rewrite directoryFilter_spec.
  unfold directoryFilter_result, prefix_matches_some. cbv zeta.
  change (existsb (matches_of plat (entry_path entry) true)
                  (matchers plat basePath patterns))
    with (existsb (fun matcher =>
                     minimatch plat (matcher_pattern matcher)
                               (entry_path entry) true)
                  (matchers plat basePath patterns)).
  destruct (existsb _ _).
  - destruct (loadConfigArrayForDirectory configLoader _) as [e|configs];
      eexists; unfold trace_of; cbn [snd]; rewrite <- app_assoc;
      (split; [reflexivity|split; [reflexivity|discriminate]]).
  - exists []. unfold trace_of. cbn [snd]. rewrite app_nil_r.
    repeat split.
Qed.

(** The walk enters a directory exactly when the directory filter
    accepts it. *)
Lemma walk_ent_directory (plat : Platform) Config basePath patterns
  (configLoader : ConfigLoader Config) name contents dirPath parentPath depth
  vars t :
  let entry := walkEntry_of parentPath depth (DirectoryEnt name contents) in
  walk_ent (directoryFilter plat basePath patterns configLoader)
           (entryFilter plat basePath patterns configLoader)
           (push_filePath plat basePath)
           dirPath parentPath depth (DirectoryEnt name contents) vars t
  = match directoryFilter plat basePath patterns configLoader entry vars t
    with
    | (Ok true, vars', t') =>
        walk_dir (directoryFilter plat basePath patterns configLoader)
                 (entryFilter plat basePath patterns configLoader)
                 (push_filePath plat basePath)
                 (child_dirPath dirPath name) (entry_path entry) (S depth)
                 contents vars' t'
    | (Ok false, vars', t') => (Ok tt, vars', t')
    | (Throw e, vars', t') => (Throw e, vars', t')
    | (Suspend, vars', t') => (Suspend, vars', t')
    end.
Proof.
  cbv zeta. cbn [walk_ent]. cbv zeta.
  unfold bind at 1. rewrite entryFilter_spec. unfold entryFilter_result.
  cbn [walkEntry_of entry_isDirectory ent_isDirectory].
  unfold bind at 1. unfold ret at 1. unfold bind at 1.
  destruct (directoryFilter _ _ _ _ _ _ _) as [[[[|]|e|] vars'] t'];
    reflexivity.
Qed.

Lemma globSearch_body_reads_base (plat : Platform) (fs : FileSystem) Config
  basePath patterns rawPatterns (configLoader : ConfigLoader Config)
  errorOnUnmatchedPattern vars t :
  hfs_isDirectory fs basePath = inr true ->
  exists rest,
    trace_of (globSearch_body plat fs basePath patterns rawPatterns
                              configLoader errorOnUnmatchedPattern vars t)
    = t ++ [EvIsDirectory basePath; EvList basePath] ++ rest.
Proof.
  intros Hd. unfold globSearch_body. unfold bind at 1, call. rewrite Hd.
  cbn beta iota.
  match goal with
  | |- context [bind (walk_dir ?dF ?eF ?c ?p ?q ?n ?d) ?k _ _] =>
      destruct (@walk_dir_trace_head (fun _ => True) _ dF eF c
                  (fun _ => I)
                  (extends_directoryFilter plat basePath patterns configLoader)
                  (extends_entryFilter plat basePath patterns configLoader)
                  (extends_push_filePath plat basePath)
                  d p q n vars (t ++ [EvIsDirectory basePath]))
        as [rest1 Hw];
      assert (Hk : forall a, extends (k a))
        by (intros; unfold extends; auto 9 with trace);
      unfold bind at 1;
      destruct (walk_dir dF eF c p q n d vars (t ++ [EvIsDirectory basePath]))
        as [[[a|e|] vars1] t1]; unfold trace_of in Hw; cbn [snd] in Hw
  end.
  - destruct (extends_elim (Hk a) vars1 t1) as [rest2 H2].
    exists (rest1 ++ rest2). cbn beta iota in H2 |- *.
    rewrite H2, Hw. now rewrite <- !app_assoc.
  - exists rest1. unfold trace_of. cbn [snd]. rewrite Hw.
    now rewrite <- !app_assoc.
  - exists rest1. unfold trace_of. cbn [snd]. rewrite Hw.
    now rewrite <- !app_assoc.
Qed.

Lemma matches_some_patterns (plat : Platform) basePath patterns path :
  matches_some plat basePath patterns path = true -> patterns <> [].
Proof. intros H ->. discriminate. Qed.

(** C2: during a group walk a directory other than the base path is
    descended into if and only if at least one compiled matcher
    prefix-matches its relative path and the configuration provider does
    not report it ignored; the matchers are asked before the provider, which
    is not consulted at all when no matcher prefix-matches; the base path
    itself is read without asking any filter, so it is never pruned,
    whatever the provider would say about it.  In order: the decision of
    the directory filter; its trace; the walk reads a directory entry
    exactly when the filter accepts it; the walk reads the base path right
    after checking that it is a directory; a matched and configured file
    that lies directly in the base path is in the result for every
    provider. *)
Theorem directory_descended_iff :
  forall (plat : Platform) (fs : FileSystem) (Config : Type)
         (basePath : string) (patterns rawPatterns : list string)
         (configLoader : ConfigLoader Config)
         (errorOnUnmatchedPattern : bool),
    (forall entry vars t,
        outcome_of (directoryFilter plat basePath patterns configLoader
                                    entry vars t) = Ok true
        <-> prefix_matches_some plat basePath patterns (entry_path entry)
            = true
            /\ exists configs,
                 loadConfigArrayForDirectory configLoader
                   (path_resolve plat basePath (entry_path entry))
                 = inr configs
                 /\ isDirectoryIgnored configs
                      (path_resolve plat basePath (entry_path entry))
                    = false)
    /\ (forall entry vars t,
           exists provider_calls,
             trace_of (directoryFilter plat basePath patterns configLoader
                                       entry vars t)
             = t ++ map (match_event (entry_path entry) true)
                        (upto_first (matches_of plat (entry_path entry) true)
                                    (matchers plat basePath patterns))
                 ++ provider_calls
             /\ forallb is_provider_event provider_calls = true
             /\ (prefix_matches_some plat basePath patterns
                                     (entry_path entry) = false ->
                 provider_calls = []))
    /\ (forall name contents dirPath parentPath depth vars t,
           walk_ent (directoryFilter plat basePath patterns configLoader)
                    (entryFilter plat basePath patterns configLoader)
                    (push_filePath plat basePath)
                    dirPath parentPath depth (DirectoryEnt name contents)
                    vars t
           = match directoryFilter plat basePath patterns configLoader
                     (walkEntry_of parentPath depth
                                   (DirectoryEnt name contents)) vars t
             with
             | (Ok true, vars', t') =>
                 walk_dir (directoryFilter plat basePath patterns configLoader)
                          (entryFilter plat basePath patterns configLoader)
                          (push_filePath plat basePath)
                          (child_dirPath dirPath name)
                          (entry_path
                             (walkEntry_of parentPath depth
                                           (DirectoryEnt name contents)))
                          (S depth) contents vars' t'
             | (Ok false, vars', t') => (Ok tt, vars', t')
             | (Throw e, vars', t') => (Throw e, vars', t')
             | (Suspend, vars', t') => (Suspend, vars', t')
             end)
    /\ (forall vars t,
           hfs_isDirectory fs basePath = inr true ->
           exists rest,
             trace_of (globSearch_body plat fs basePath patterns rawPatterns
                         configLoader errorOnUnmatchedPattern vars t)
             = t ++ [EvIsDirectory basePath; EvList basePath] ++ rest)
    /\ (forall L (l : L) t es name result,
           hfs_isDirectory fs basePath = inr true ->
           hfs_list fs basePath = Entries es ->
           In (FileEnt name) es ->
           matches_some plat basePath patterns name = true ->
           has_config configLoader (path_resolve plat basePath name) = true ->
           outcome_of (globSearch plat fs basePath patterns rawPatterns
                                  configLoader errorOnUnmatchedPattern l t)
           = Ok result ->
           In (path_resolve plat basePath name) result).
Proof.
  intros. repeat apply conj.
  - intros entry vars t.
    rewrite directoryFilter_accepts_iff. unfold spec_descend.
    rewrite andb_true_iff, provider_keeps_directory_true. reflexivity.
  - apply directoryFilter_trace.
  - intros. apply walk_ent_directory.
  - intros. now apply globSearch_body_reads_base.
  - intros L l t es name result Hd Hl Hin Hm Hc Hok.
    destruct (@globSearch_post plat fs Config basePath patterns rawPatterns
                configLoader errorOnUnmatchedPattern L l t)
      as (_ & _ & Hpost).
    specialize (Hpost (@matches_some_patterns plat basePath patterns name Hm)).
    rewrite Hok in Hpost. destruct Hpost as [-> _].
    unfold group_files, group_entries. rewrite Hd, Hl.
    apply in_map_iff. exists (walkEntry_of "" 1 (FileEnt name)).
    split; [reflexivity|]. apply filter_In. split.
    + now apply reached_dir_head.
    + apply spec_include_true. repeat split; assumption.
Qed.

Lemma directory_descended_iff_witness :
  isDirectoryIgnored Sample.config_array "/r/b" = true
  /\ In "/r/b/z.js" ["/r/b/z.js"].
Proof.
  split; [reflexivity|].
  destruct (@directory_descended_iff Sample.platform Sample.file_system unit
              "/r/b" ["/r/b/**"] ["b"] Sample.config_loader true)
    as (_ & _ & _ & _ & H).
  apply (H unit tt [] [FileEnt "z.js"] "z.js").
  - reflexivity.
  - reflexivity.
  - now left.
  - reflexivity.
  - reflexivity.
  - reflexivity.
Defined.

(** ** The unmatched set *)

Section UnmatchedFacts.
Variable plat : Platform.
Variable Config : Type.
Variable basePath : string.
Variable patterns : list string.
Variable configLoader : ConfigLoader Config.

Local Abbreviation eF := (entryFilter plat basePath patterns configLoader).
Local Abbreviation dF := (directoryFilter plat basePath patterns configLoader).
Local Abbreviation unmatched_after :=
  (spec_unmatched plat basePath patterns configLoader).

Lemma entryFilter_unmatched entry vars t b :
  outcome_of (eF entry vars t) = Ok b ->
  unmatchedPatterns (local_of (eF entry vars t))
  = unmatched_after [entry] (unmatchedPatterns vars).
Proof.
  rewrite entryFilter_spec. unfold entryFilter_result.
  destruct (entry_isDirectory entry) eqn:Ed.
  { intros _. unfold local_of. cbn [fst snd].
    symmetry. now apply unmatched_after_directory. }
  destruct (loadConfigArrayForFile configLoader _) as [e|configs] eqn:El.
  { unfold outcome_of. simpl. discriminate. }
  cbv zeta. intros _.
  destruct (0 <? JsSet.size (unmatchedPatterns vars))%nat eqn:Esz;
    unfold local_of; cbn [fst snd unmatchedPatterns].
  - now apply dropped_by_hits.
  - now rewrite (size_zero_nil _ Esz).
Qed.

Lemma entryFilter_shrinks entry vars t :
  exists keep,
    unmatchedPatterns (local_of (eF entry vars t))
    = filter keep (unmatchedPatterns vars).
Proof.
  destruct (outcome_of (eF entry vars t)) as [b|e|] eqn:Ho.
  - rewrite (entryFilter_unmatched _ _ _ Ho). unfold spec_unmatched.
    eexists. reflexivity.
  - revert Ho. rewrite entryFilter_spec. unfold entryFilter_result.
    exists (fun _ => true). rewrite filter_true.
    destruct (entry_isDirectory entry); [reflexivity|].
    destruct (loadConfigArrayForFile configLoader _); [reflexivity|].
    cbv zeta in Ho.
    destruct (0 <? JsSet.size (unmatchedPatterns vars))%nat; discriminate.
  - revert Ho. rewrite entryFilter_spec. unfold entryFilter_result.
    destruct (entry_isDirectory entry); [discriminate|].
    destruct (loadConfigArrayForFile configLoader _); [discriminate|].
    cbv zeta.
    destruct (0 <? JsSet.size (unmatchedPatterns vars))%nat; discriminate.
Qed.

Lemma unmatched_after_one entry unmatched pattern :
  In pattern (unmatched_after [entry] unmatched)
  <-> In pattern unmatched
      /\ hits plat basePath patterns configLoader entry pattern = false.
Proof.
  unfold spec_unmatched. rewrite filter_In. simpl.
  rewrite orb_false_r, negb_true_iff. reflexivity.
Qed.

(** With an empty unmatched set the entry filter asks the matchers up to
    the first that matches and leaves the captured variables alone. *)
Lemma entryFilter_fast_path entry vars t configs :
  unmatchedPatterns vars = [] ->
  entry_isDirectory entry = false ->
  loadConfigArrayForFile configLoader
    (path_resolve plat basePath (entry_path entry)) = inr configs ->
  eF entry vars t
  = (Ok (matches_some plat basePath patterns (entry_path entry)
         && isSome (getConfig configs
                      (path_resolve plat basePath (entry_path entry)))),
     vars,
     t ++ [EvLoadConfigArrayForFile
             (path_resolve plat basePath (entry_path entry));
           EvGetConfig (path_resolve plat basePath (entry_path entry))]
       ++ map (match_event (entry_path entry) false)
              (upto_first (matches_of plat (entry_path entry) false)
                          (matchers plat basePath patterns))).
Proof.
  intros Hu Hd Hl. rewrite entryFilter_spec. unfold entryFilter_result.
  rewrite Hd, Hl, Hu. cbn [JsSet.size length Nat.ltb Nat.leb].
  cbv zeta. now rewrite <- app_assoc.
Qed.

Lemma walk_dir_shrinks d dirPath parentPath depth vars t :
  exists keep,
    unmatchedPatterns
      (local_of (walk_dir dF eF (push_filePath plat basePath)
                          dirPath parentPath depth d vars t))
    = filter keep (unmatchedPatterns vars).
Proof.
  pose proof (walk_dir_post plat basePath patterns configLoader d
                            dirPath parentPath depth vars t) as H.
  unfold walk_post in H.
  destruct (outcome_of _) as [a|e|].
  - destruct H as [_ ->]. unfold spec_unmatched. eexists. reflexivity.
  - apply H.
  - contradiction.
Qed.
End UnmatchedFacts.

(** C5: within one group walk the unmatched set only shrinks; a pattern
    leaves it exactly when the walk meets a file that a matcher compiled
    from it matches and that has a configuration; and once the set is empty
    the match check stops at the first matching matcher and the set is not
    touched any more.  In order: the entry filter can only filter the set;
    after it has returned, a pattern is still in the set exactly when it
    was there before and the entry did not hit it; the directory filter
    and the consumer leave the set alone; with an empty set the entry
    filter changes no captured variable and asks the matchers only up to
    the first match; the whole walk of a directory can only filter the
    set. *)
Theorem unmatched_set_only_shrinks :
  forall (plat : Platform) (Config : Type) (basePath : string)
         (patterns : list string) (configLoader : ConfigLoader Config),
    (forall entry vars t,
        exists keep,
          unmatchedPatterns
            (local_of (entryFilter plat basePath patterns configLoader
                                   entry vars t))
          = filter keep (unmatchedPatterns vars))
    /\ (forall entry vars t b pattern,
           outcome_of (entryFilter plat basePath patterns configLoader
                                   entry vars t) = Ok b ->
           (In pattern
               (unmatchedPatterns
                  (local_of (entryFilter plat basePath patterns configLoader
                                         entry vars t)))
            <-> In pattern (unmatchedPatterns vars)
                /\ hits plat basePath patterns configLoader entry pattern
                   = false))
    /\ (forall entry vars t,
           local_of (directoryFilter plat basePath patterns configLoader
                                     entry vars t) = vars
           /\ unmatchedPatterns
                (local_of (push_filePath plat basePath entry vars t))
              = unmatchedPatterns vars)
    /\ (forall entry vars t configs,
           unmatchedPatterns vars = [] ->
           entry_isDirectory entry = false ->
           loadConfigArrayForFile configLoader
             (path_resolve plat basePath (entry_path entry)) = inr configs ->
           entryFilter plat basePath patterns configLoader entry vars t
           = (Ok (matches_some plat basePath patterns (entry_path entry)
                  && isSome (getConfig configs
                               (path_resolve plat basePath
                                             (entry_path entry)))),
              vars,
              t ++ [EvLoadConfigArrayForFile
                      (path_resolve plat basePath (entry_path entry));
                    EvGetConfig
                      (path_resolve plat basePath (entry_path entry))]
                ++ map (match_event (entry_path entry) false)
                       (upto_first
                          (matches_of plat (entry_path entry) false)
                          (matchers plat basePath patterns))))
    /\ (forall d dirPath parentPath depth vars t,
           exists keep,
             unmatchedPatterns
               (local_of
                  (walk_dir (directoryFilter plat basePath patterns
                                             configLoader)
                            (entryFilter plat basePath patterns configLoader)
                            (push_filePath plat basePath)
                            dirPath parentPath depth d vars t))
             = filter keep (unmatchedPatterns vars)).
Proof.
  intros. repeat apply conj.
  - apply entryFilter_shrinks.
  - intros entry vars t b pattern Ho.
    rewrite (entryFilter_unmatched _ _ _ _ _ _ _ Ho).
    apply unmatched_after_one.
  - intros entry vars t. split; [|reflexivity].
    rewrite directoryFilter_spec. unfold directoryFilter_result. cbv zeta.
    destruct (existsb _ _); [|reflexivity].
    now destruct (loadConfigArrayForDirectory configLoader _).
  - apply entryFilter_fast_path.
  - apply walk_dir_shrinks.
Qed.

Lemma unmatched_set_only_shrinks_witness :
  let vars := {| unmatchedPatterns := ["**/*.js"; "**/*.py"];
                 filePaths := [] |} in
  let entry := {| entry_path := "a/x.js"; entry_isDirectory := false;
                  entry_depth := 2 |} in
  unmatchedPatterns
    (local_of (entryFilter Sample.platform "/r" ["/r/**/*.js"; "/r/**/*.py"]
                           Sample.config_loader entry vars []))
  = ["**/*.py"]
  /\ (In "**/*.py"
         (unmatchedPatterns
            (local_of (entryFilter Sample.platform "/r"
                         ["/r/**/*.js"; "/r/**/*.py"]
                         Sample.config_loader entry vars [])))
      <-> In "**/*.py" (unmatchedPatterns vars)
          /\ hits Sample.platform "/r" ["/r/**/*.js"; "/r/**/*.py"]
                  Sample.config_loader entry "**/*.py" = false).
Proof.
  intros vars entry. split; [reflexivity|].
  destruct (@unmatched_set_only_shrinks Sample.platform unit "/r"
              ["/r/**/*.js"; "/r/**/*.py"] Sample.config_loader)
    as (_ & H & _).
  apply (H entry vars [] true). reflexivity.
Defined.

(** ** Classification *)

Section ClassifierFacts.
Variable plat : Platform.
Variable fs : FileSystem.
Variable globInputPaths : bool.
Variable cwd : string.

Lemma forEach_stat_classify vars input stat :
  forEach_stat plat globInputPaths cwd vars stat
               (path_resolve plat cwd input) input
  = match classify plat globInputPaths cwd input stat with
    | Some class => spec_group plat cwd input class vars
    | None => vars
    end.
Proof.
  unfold forEach_stat, classify.
  destruct stat as [[ty]|].
  - unfold isFile, Stats_isDirectory. simpl. now destruct ty.
  - now destruct (globInputPaths && isGlobPattern plat _).
Qed.

Lemma mapM_stat_spec L (filePaths : list string) (l : L) t :
  mapM (stat_or_undefined fs) filePaths l t
  = (Ok (map (fs_stat fs) filePaths), l, t ++ map EvStat filePaths).
Proof.
  revert t. induction filePaths as [|p rest IH]; intros t; simpl.
  - unfold ret. now rewrite app_nil_r.
  - unfold bind at 1. unfold stat_or_undefined at 1.
    unfold bind at 1, emit, ret at 1. unfold bind at 1.
    rewrite IH. unfold ret. now rewrite <- app_assoc.
Qed.

(** The loop of [findFiles] as a fold over the patterns. *)
Lemma classified_fold patterns :
  classified plat globInputPaths cwd patterns
             (map (fs_stat fs) (map (path_resolve plat cwd) patterns))
  = fold_left
      (fun vars input =>
         forEach_stat plat globInputPaths cwd vars
                      (fs_stat fs (path_resolve plat cwd input))
                      (path_resolve plat cwd input) input)
      patterns (initial_vars cwd).
Proof.
  unfold classified. generalize (initial_vars cwd).
  induction patterns as [|p rest IH]; intros vars; simpl; [reflexivity|].
  apply IH.
Qed.
End ClassifierFacts.

Lemma findFiles_eq (plat : Platform) (fs : FileSystem) Config patterns
  globInputPaths cwd (configLoader : ConfigLoader Config)
  errorOnUnmatchedPattern L (l : L) t :
  findFiles plat fs patterns globInputPaths cwd configLoader
            errorOnUnmatchedPattern l t
  = let vars :=
      classified plat globInputPaths cwd patterns
        (map (fs_stat fs) (map (path_resolve plat cwd) patterns)) in
    let t1 := t ++ map EvStat (map (path_resolve plat cwd) patterns) in
    if errorOnUnmatchedPattern && (0 <? length (missingPatterns vars))%nat
    then (Throw (NoFilesFoundError (hd_error (missingPatterns vars))
                                   globInputPaths), l, t1)
    else
      match globMultiSearch plat fs (searches vars) configLoader
                            errorOnUnmatchedPattern l t1 with
      | (Ok globbyResults, l', t') =>
          (Ok (JsSet.from JsString_eqb
                 (map Some (results vars) ++ globbyResults)), l', t')
      | (Throw e, l', t') => (Throw e, l', t')
      | (Suspend, l', t') => (Suspend, l', t')
      end.
Proof.
  unfold findFiles. unfold bind at 1. rewrite mapM_stat_spec. cbv zeta.
  destruct (errorOnUnmatchedPattern && _); [reflexivity|].
  unfold bind, ret.
  now destruct (globMultiSearch _ _ _ _ _ _ _) as [[[a|e|] l'] t'].
Qed.

(** C6, amended: the callback of the loop over the stats treats a pattern
    as the grouping of section 4.B treats the class [classify] gives it:
    a regular file is a literal file, a directory is a literal directory,
    a pattern whose stat fails is a glob if glob input is enabled and its
    normalized form is a glob pattern, and missing (kept with forward
    slashes) otherwise.  A pattern whose stat succeeds and that is neither
    a regular file nor a directory gets no class: it is neither searched
    nor recorded as missing. *)
Theorem classifier_assigns_class :
  forall (plat : Platform) (globInputPaths : bool) (cwd : string)
         (vars : FindVars) (input : string) (stat : option Stats),
    forEach_stat plat globInputPaths cwd vars stat
                 (path_resolve plat cwd input) input
    = match classify plat globInputPaths cwd input stat with
      | Some class => spec_group plat cwd input class vars
      | None => vars
      end
    /\ (forall st, stat = Some st -> isFile st = true ->
                   classify plat globInputPaths cwd input stat
                   = Some (literal_file (path_resolve plat cwd input)))
    /\ (forall st, stat = Some st -> Stats_isDirectory st = true ->
                   classify plat globInputPaths cwd input stat
                   = Some (literal_directory (path_resolve plat cwd input)))
    /\ (stat = None -> globInputPaths = true ->
        isGlobPattern plat (normalizeToPosix input) = true ->
        classify plat globInputPaths cwd input stat
        = Some (glob (normalizeToPosix input)))
    /\ (stat = None ->
        globInputPaths && isGlobPattern plat (normalizeToPosix input)
        = false ->
        classify plat globInputPaths cwd input stat
        = Some (missing (normalizeToPosix input)))
    /\ (forall st, stat = Some st -> isFile st = false ->
                   Stats_isDirectory st = false ->
                   classify plat globInputPaths cwd input stat = None).
Proof.
  intros. repeat apply conj.
  - apply forEach_stat_classify.
  - intros st -> Hf. unfold classify. now rewrite Hf.
  - intros [ty] -> Hd. unfold classify, isFile, Stats_isDirectory in *.
    simpl in *. destruct ty; congruence.
  - intros -> -> Hg. unfold classify. now rewrite Hg.
  - intros -> Hg. unfold classify. now rewrite Hg.
  - intros st -> Hf Hd. unfold classify. now rewrite Hf, Hd.
Qed.

Lemma classifier_assigns_class_witness :
  classify Sample.platform true "/r" "a/x.js"
           (Sample.stat "/r/a/x.js")
  = Some (literal_file "/r/a/x.js")
  /\ classify Sample.platform true "/r" "c"
              (Sample.stat "/r/c")
     = Some (literal_directory "/r/c")
  /\ classify Sample.platform true "/r" "c\*.js" None
     = Some (glob "c/*.js")
  /\ classify Sample.platform false "/r" "c\*.js" None
     = Some (missing "c/*.js")
  /\ classify Sample.platform true "/r" "pipe" (Sample.stat "/r/pipe")
     = None.
Proof.
  pose proof (classifier_assigns_class Sample.platform true "/r"
                (initial_vars "/r") "a/x.js" (Sample.stat "/r/a/x.js"))
    as (_ & Hfile & _).
  pose proof (classifier_assigns_class Sample.platform true "/r"
                (initial_vars "/r") "c" (Sample.stat "/r/c"))
    as (_ & _ & Hdir & _).
  pose proof (classifier_assigns_class Sample.platform true "/r"
                (initial_vars "/r") "c\*.js" None)
    as (_ & _ & _ & Hglob & _).
  pose proof (classifier_assigns_class Sample.platform false "/r"
                (initial_vars "/r") "c\*.js" None)
    as (_ & _ & _ & _ & Hmissing & _).
  pose proof (classifier_assigns_class Sample.platform true "/r"
                (initial_vars "/r") "pipe" (Sample.stat "/r/pipe"))
    as (_ & _ & _ & _ & _ & Hnone).
  repeat apply conj.
  - apply (Hfile {| st_type := S_IFREG |}); reflexivity.
  - apply (Hdir {| st_type := S_IFDIR |}); reflexivity.
  - apply Hglob; reflexivity.
  - apply Hmissing; reflexivity.
  - apply (Hnone {| st_type := S_IFIFO |}); reflexivity.
Defined.

(** C6 as the specification states it fails: a named pipe exists and is
    neither a regular file nor a directory, so the specification classes
    the pattern as missing; the code records nothing for it, and
    [findFiles] returns normally where a missing pattern would make it
    fail.  And a missing pattern that was typed with a backslash is not
    recorded as it was typed. *)
Lemma special_file_is_not_missing :
  spec_classify Sample.platform true "/r" "pipe" (Sample.stat "/r/pipe")
  = missing "pipe"
  /\ forEach_stat Sample.platform true "/r" (initial_vars "/r")
                  (Sample.stat "/r/pipe") "/r/pipe" "pipe"
     <> spec_group Sample.platform "/r" "pipe"
                   (spec_classify Sample.platform true "/r" "pipe"
                                  (Sample.stat "/r/pipe"))
                   (initial_vars "/r")
  /\ missingPatterns
       (forEach_stat Sample.platform true "/r" (initial_vars "/r")
                     (Sample.stat "/r/pipe") "/r/pipe" "pipe") = []
  /\ Sample.find ["pipe"] true true = Ok []
  /\ spec_classify Sample.platform true "/r" "no\such"
                   (Sample.stat "/r/no\such")
     = missing "no\such"
  /\ missingPatterns
       (forEach_stat Sample.platform true "/r" (initial_vars "/r")
                     (Sample.stat "/r/no\such") "/r/no\such" "no\such")
     = ["no/such"].
Proof.
  repeat apply conj; try reflexivity.
  vm_compute. discriminate.
Qed.

(** ** Missing patterns and literal files *)

(** C7: if unmatched patterns are errors and some pattern was classified
    as missing, [findFiles] fails with [NoFilesFoundError] for the first
    missing pattern and the [globInputPaths] flag, and it does so at once:
    all that has happened is the stat of every pattern, no directory has
    been checked or read and the provider has not been called. *)
Theorem missing_pattern_fails_immediately :
  forall (plat : Platform) (fs : FileSystem) (Config : Type)
         (patterns : list string) (globInputPaths : bool) (cwd : string)
         (configLoader : ConfigLoader Config) (L : Type) (l : L)
         (t : list Event) (first : string) (others : list string),
    missingPatterns
      (classified plat globInputPaths cwd patterns
         (map (fs_stat fs) (map (path_resolve plat cwd) patterns)))
    = first :: others ->
    findFiles plat fs patterns globInputPaths cwd configLoader true l t
    = (Throw (NoFilesFoundError (Some first) globInputPaths), l,
       t ++ map EvStat (map (path_resolve plat cwd) patterns))
    /\ forallb (fun ev => is_stat_event ev
                          && negb (is_walk_event ev)
                          && negb (is_provider_event ev))
               (map EvStat (map (path_resolve plat cwd) patterns))
       = true.
Proof.
  intros * Hm. split.
  - rewrite findFiles_eq. cbv zeta. rewrite Hm. reflexivity.
  - apply forallb_forall. intros ev Hin. apply in_map_iff in Hin.
    now destruct Hin as (p & <- & _).
Qed.

Lemma missing_pattern_fails_immediately_witness :
  findFiles Sample.platform Sample.file_system ["a"; "nope"; "gone"] true
            "/r" Sample.config_loader true tt []
  = (Throw (NoFilesFoundError (Some "nope") true), tt,
     [EvStat "/r/a"; EvStat "/r/nope"; EvStat "/r/gone"]).
Proof.
  apply (@missing_pattern_fails_immediately
           Sample.platform Sample.file_system unit
           ["a"; "nope"; "gone"] true "/r" Sample.config_loader unit tt []
           "nope" ["gone"]).
  reflexivity.
Defined.

Section LiteralFiles.
Variable plat : Platform.
Variable fs : FileSystem.
Variable globInputPaths : bool.
Variable cwd : string.

Local Abbreviation step :=
  (fun vars input =>
     forEach_stat plat globInputPaths cwd vars
                  (fs_stat fs (path_resolve plat cwd input))
                  (path_resolve plat cwd input) input).

Lemma forEach_stat_results_mono vars stat filePath input x :
  In x (results vars) ->
  In x (results (forEach_stat plat globInputPaths cwd vars stat
                              filePath input)).
Proof.
  intros Hin. unfold forEach_stat.
  destruct stat as [st|].
  - destruct (isFile st), (Stats_isDirectory st); simpl;
      rewrite ?in_app_iff; auto.
  - destruct (globInputPaths && _); simpl; auto.
Qed.

Lemma fold_results_mono patterns vars x :
  In x (results vars) -> In x (results (fold_left step patterns vars)).
Proof.
  revert vars. induction patterns as [|p rest IH]; intros vars Hin; simpl.
  - assumption.
  - apply IH. now apply forEach_stat_results_mono.
Qed.

Lemma fold_results_file patterns vars input st :
  In input patterns ->
  fs_stat fs (path_resolve plat cwd input) = Some st ->
  isFile st = true ->
  In (path_resolve plat cwd input) (results (fold_left step patterns vars)).
Proof.
  intros Hin Hs Hf. revert vars.
  induction patterns as [|p rest IH]; intros vars; [contradiction|].
  simpl. destruct Hin as [->|Hin].
  - apply fold_results_mono. unfold forEach_stat. rewrite Hs, Hf.
    destruct (Stats_isDirectory st); simpl; apply in_app_iff; right;
      now left.
  - now apply IH.
Qed.
End LiteralFiles.

(** C8: every pattern that resolves against [cwd] to an existing regular
    file is in the result of [findFiles], as its absolute path, whenever
    [findFiles] returns.  The path is put into the results by the loop over
    the stats, which has no access to the configuration provider; the
    statement holds for every provider, so also for one that has no
    configuration for the file. *)
Theorem literal_file_is_returned :
  forall (plat : Platform) (fs : FileSystem) (Config : Type)
         (patterns : list string) (globInputPaths : bool) (cwd : string)
         (configLoader : ConfigLoader Config)
         (errorOnUnmatchedPattern : bool) (L : Type) (l : L)
         (t : list Event) (result : list JsString) (input : string)
         (st : Stats),
    In input patterns ->
    fs_stat fs (path_resolve plat cwd input) = Some st ->
    isFile st = true ->
    outcome_of (findFiles plat fs patterns globInputPaths cwd configLoader
                          errorOnUnmatchedPattern l t) = Ok result ->
    In (path_resolve plat cwd input)
       (results (classified plat globInputPaths cwd patterns
                   (map (fs_stat fs) (map (path_resolve plat cwd) patterns))))
    /\ In (Some (path_resolve plat cwd input)) result.
Proof.
  intros * Hin Hs Hf Hok.
  assert (Hres : In (path_resolve plat cwd input)
                    (results (classified plat globInputPaths cwd patterns
                                (map (fs_stat fs)
                                     (map (path_resolve plat cwd) patterns))))).
  { rewrite classified_fold. now apply fold_results_file with (st := st). }
  split; [exact Hres|].
  rewrite findFiles_eq in Hok. cbv zeta in Hok.
  destruct (errorOnUnmatchedPattern && _); [discriminate|].
  destruct (globMultiSearch _ _ _ _ _ _ _) as [[[globby|e|] l'] t'];
    try discriminate.
  unfold outcome_of in Hok. simpl in Hok. injection Hok as <-.
  apply (@JsSet_from_In _ JsString_eqb JsString_eqb_eq). apply in_app_iff. left.
  now apply in_map.
Qed.

Lemma literal_file_is_returned_witness :
  has_config Sample.hostile_loader "/r/a/y.txt" = false
  /\ In "/r/a/y.txt"
        (results (classified Sample.platform true "/r" ["a/y.txt"]
                    (map Sample.stat ["/r/a/y.txt"])))
  /\ In (Some "/r/a/y.txt") [Some "/r/a/y.txt"].
Proof.
  split; [reflexivity|].
  apply (@literal_file_is_returned
           Sample.platform Sample.file_system unit
           ["a/y.txt"] true "/r" Sample.hostile_loader true unit tt []
           [Some "/r/a/y.txt"] "a/y.txt" {| st_type := S_IFREG |}).
  - now left.
  - reflexivity.
  - reflexivity.
  - reflexivity.
Defined.

(** ** The searches of [globMultiSearch] and their errors *)

Section MultiSearchFacts.
Variable plat : Platform.
Variable fs : FileSystem.
Variable Config : Type.
Variable configLoader : ConfigLoader Config.
Variable errorOnUnmatchedPattern : bool.

Local Abbreviation post :=
  (settled_post plat fs configLoader errorOnUnmatchedPattern).
Local Abbreviation files_of :=
  (fun search : string * GlobSearch =>
     group_files plat fs (fst search) (search_patterns (snd search))
                 configLoader).

Lemma normalizedSearches_nonempty searches :
  Forall (fun search => search_patterns (snd search) <> [])
         (normalizedSearches_of searches).
Proof.
  apply Forall_forall. intros s Hin. unfold normalizedSearches_of in Hin.
  apply filter_In in Hin. destruct Hin as [_ Hlen].
  intros E. rewrite E in Hlen. discriminate.
Qed.

(** Every search settles, and as [search_post] says. *)
Lemma run_searches_post L searches (l : L) t :
  Forall (fun search => search_patterns (snd search) <> []) searches ->
  exists settled t',
    run_searches plat fs configLoader errorOnUnmatchedPattern searches l t
    = (Ok settled, l, t')
    /\ Forall2 post searches settled.
Proof.
  intros Hne. revert t. unfold run_searches.
  induction Hne as [|s rest Hs _ IH]; intros t; simpl.
  - exists [], t. split; [reflexivity|constructor].
  - unfold bind at 1, settle at 1.
    destruct (@globSearch_post plat fs Config (fst s)
                (search_patterns (snd s)) (search_rawPatterns (snd s))
                configLoader errorOnUnmatchedPattern L l t)
      as (Hl & _ & Hpost).
    specialize (Hpost Hs).
    destruct (globSearch _ _ _ _ _ _ _ _ _) as [[o l1] t1].
    unfold local_of, outcome_of in *. simpl in *. subst l1.
    destruct o as [value|reason|]; [| |contradiction].
    + destruct (IH t1) as (settled & t' & Hrun & Hall).
      unfold bind at 1. rewrite Hrun. unfold ret.
      exists (Fulfilled value :: settled), t'.
      split; [reflexivity|]. now constructor.
    + destruct (IH t1) as (settled & t' & Hrun & Hall).
      unfold bind at 1. rewrite Hrun. unfold ret.
      exists (Rejected reason :: settled), t'.
      split; [reflexivity|]. now constructor.
Qed.

(** [throwErrorForUnmatchedPatterns] in closed form. *)
Lemma throwErrorForUnmatchedPatterns_eq L basePath patterns rawPatterns
  unmatched (l : L) t :
  throwErrorForUnmatchedPatterns plat fs basePath patterns rawPatterns
                                 unmatched l t
  = match unmatched with
    | None => (Throw (SystemError (plain "TypeError")), l, t)
    | Some unmatchedPatterns =>
        match hd None unmatchedPatterns with
        | None => (Throw (SystemError (plain "ERR_INVALID_ARG_TYPE")), l, t)
        | Some pattern =>
            let rawPattern :=
              at_index rawPatterns (indexOf patterns (Some pattern)) in
            match globMatch plat fs basePath pattern l t with
            | (Ok true, l', t') =>
                (Throw (AllFilesIgnoredError rawPattern), l', t')
            | (Ok false, l', t') =>
                (Throw (NoFilesFoundError rawPattern true), l', t')
            | (Throw e, l', t') => (Throw e, l', t')
            | (Suspend, l', t') => (Suspend, l', t')
            end
        end
    end.
Proof.
  unfold throwErrorForUnmatchedPatterns.
  destruct unmatched as [unmatchedPatterns|]; [|reflexivity]. cbv zeta.
  destruct (hd None unmatchedPatterns) as [pattern|]; unfold bind, throw.
  - now destruct (globMatch _ _ _ _ _ _) as [[[[|]|e|] l'] t'].
  - reflexivity.
Qed.

Lemma throwErrorForUnmatchedPatterns_throws L basePath patterns rawPatterns
  unmatched (l : L) t a :
  outcome_of (throwErrorForUnmatchedPatterns plat fs basePath patterns
                rawPatterns unmatched l t) <> Ok a.
Proof.
  rewrite throwErrorForUnmatchedPatterns_eq.
  destruct unmatched as [unmatchedPatterns|]; [|discriminate].
  destruct (hd None unmatchedPatterns) as [pattern|]; [|discriminate].
  cbv zeta.
  now destruct (globMatch _ _ _ _ _ _) as [[[[|]|e|] l'] t'].
Qed.

(** The first loop of [globMultiSearch] is decided by the first rejected
    result when unmatched patterns are errors, and otherwise by the first
    rejected result whose reason has no truthy [basePath]: the loop passes
    over the others. *)
Lemma handle_errors_first L settled (l : L) t :
  handle_errors plat fs errorOnUnmatchedPattern settled l t
  = match (if errorOnUnmatchedPattern then first_rejected settled
           else first_unexpected settled) with
    | None => (Ok tt, l, t)
    | Some (reason, search) =>
        if negb (error_basePath_truthy reason) then (Throw reason, l, t)
        else
          throwErrorForUnmatchedPatterns plat fs
            (fst search) (search_patterns (snd search))
            (search_rawPatterns (snd search))
            (error_unmatchedPatterns reason) l t
    end.
Proof.
  induction settled as [|[[value|reason] search] rest IH]; simpl.
  - now destruct errorOnUnmatchedPattern.
  - rewrite IH. now destruct errorOnUnmatchedPattern.
  - destruct (error_basePath_truthy reason) eqn:Ht; cbn [negb].
    + destruct errorOnUnmatchedPattern eqn:E.
      * unfold bind.
        pose proof (@throwErrorForUnmatchedPatterns_throws L
                      (fst search) (search_patterns (snd search))
                      (search_rawPatterns (snd search))
                      (error_unmatchedPatterns reason) l t) as Hne.
        destruct (throwErrorForUnmatchedPatterns _ _ _ _ _ _ _ _)
          as [[[[]|e|] l'] t']; rewrite ?Ht; try reflexivity.
        exfalso. now apply (Hne tt).
      * unfold bind, ret. exact IH.
    + destruct errorOnUnmatchedPattern; cbn [negb]; now rewrite ?Ht.
Qed.

Lemma first_unexpected_falsy settled reason search :
  first_unexpected settled = Some (reason, search) ->
  error_basePath_truthy reason = false.
Proof.
  induction settled as [|[[value|reason'] search'] rest IH]; simpl;
    [discriminate|exact IH|].
  destruct (error_basePath_truthy reason') eqn:Ht; [exact IH|].
  now intros [= <- <-].
Qed.

Lemma first_rejected_post searches settled reason search :
  Forall2 post searches settled ->
  first_rejected (combine settled searches) = Some (reason, search) ->
  In search searches
  /\ search_post plat fs (fst search) (search_patterns (snd search))
                 (search_rawPatterns (snd search)) configLoader
                 errorOnUnmatchedPattern (Throw reason).
Proof.
  induction 1 as [|s r searches settled Hp Hall IH]; simpl; [discriminate|].
  destruct r as [value|reason'].
  - intros H. destruct (IH H). split; [now right|assumption].
  - intros [= <- <-]. split; [now left|exact Hp].
Qed.

(** Every rejected result belongs to a search, and is as [search_post]
    says. *)
Lemma rejected_post searches settled reason search :
  Forall2 post searches settled ->
  In (Rejected reason, search) (combine settled searches) ->
  In search searches
  /\ search_post plat fs (fst search) (search_patterns (snd search))
                 (search_rawPatterns (snd search)) configLoader
                 errorOnUnmatchedPattern (Throw reason).
Proof.
  induction 1 as [|s r searches settled Hp Hall IH]; simpl; [contradiction|].
  intros [[= -> <-]|Hin].
  - split; [now left|exact Hp].
  - destruct (IH Hin). split; [now right|assumption].
Qed.

Lemma first_unexpected_In settled reason search :
  first_unexpected settled = Some (reason, search) ->
  In (Rejected reason, search) settled.
Proof.
  induction settled as [|[[value|reason'] search'] rest IH]; simpl;
    [discriminate|intros H; right; now apply IH|].
  destruct (error_basePath_truthy reason').
  - intros H. right. now apply IH.
  - intros [= <- <-]. now left.
Qed.

Lemma first_unexpected_none settled :
  first_rejected settled = None -> first_unexpected settled = None.
Proof.
  induction settled as [|[[value|reason] search] rest IH]; simpl;
    [reflexivity|exact IH|discriminate].
Qed.

Lemma first_unexpected_first settled reason search :
  first_rejected settled = Some (reason, search) ->
  error_basePath_truthy reason = false ->
  first_unexpected settled = Some (reason, search).
Proof.
  induction settled as [|[[value|reason'] search'] rest IH]; simpl;
    [discriminate|exact IH|].
  intros [= -> ->] Hfalsy. now rewrite Hfalsy.
Qed.

Lemma first_rejected_none searches settled :
  Forall2 post searches settled ->
  first_rejected (combine settled searches) = None ->
  flat_map settled_value settled = map Some (flat_map files_of searches).
Proof.
  induction 1 as [|s r searches settled Hp Hall IH]; simpl; [reflexivity|].
  destruct r as [value|reason']; [|discriminate].
  intros H. rewrite (IH H). simpl in Hp. destruct Hp as [-> _].
  now rewrite map_app.
Qed.

(** What the settled searches give to the second loop: the files of the
    group for a fulfilled search, [undefined] for a rejected one. *)
Lemma settled_values searches settled :
  Forall2 post searches settled ->
  flat_map settled_value settled
  = flat_map (fun item =>
                match fst item with
                | Fulfilled _ => map Some (files_of (snd item))
                | Rejected _ => [None]
                end)
             (combine settled searches).
Proof.
  induction 1 as [|s r searches settled Hp Hall IH]; simpl; [reflexivity|].
  rewrite IH. destruct r as [value|reason']; [|reflexivity].
  simpl in Hp. destruct Hp as [-> _]. reflexivity.
Qed.
End MultiSearchFacts.

Section MultiSearchCases.
Variable plat : Platform.
Variable fs : FileSystem.
Variable Config : Type.
Variable configLoader : ConfigLoader Config.
Variable errorOnUnmatchedPattern : bool.

(** Of the errors of the module a search is only rejected with the error
    for unmatched patterns, and only when unmatched patterns are errors. *)
Lemma discovery_is_unmatched_error basePath patterns rawPatterns reason :
  search_post plat fs basePath patterns rawPatterns configLoader
              errorOnUnmatchedPattern (Throw reason) ->
  is_discovery_error reason = true ->
  errorOnUnmatchedPattern = true
  /\ group_unmatched plat fs basePath patterns configLoader <> []
  /\ reason =
       UnmatchedSearchPatternsError
         basePath
         (map (fun pattern =>
                 JsMap.get pattern (relativeToPatterns plat basePath patterns))
              (group_unmatched plat fs basePath patterns configLoader))
         patterns rawPatterns.
Proof.
  simpl. intros [[e ->]|H] Ht; [discriminate|exact H].
Qed.

(** [globMultiSearch] in closed form: every search settles.  When
    unmatched patterns are errors the first rejected result decides, and
    otherwise the first rejected result whose reason has no truthy
    [basePath].  A reason without a truthy [basePath] is thrown as it is;
    another one is replaced by what the second pass finds for the first of
    its unmatched patterns.  When no result decides, every settled search
    gives its value, which is [undefined] for a rejected one. *)
Lemma globMultiSearch_cases L searches (l : L) t :
  exists settled t1,
    run_searches plat fs configLoader errorOnUnmatchedPattern
                 (normalizedSearches_of searches) l t
    = (Ok settled, l, t1)
    /\ Forall2 (settled_post plat fs configLoader errorOnUnmatchedPattern)
               (normalizedSearches_of searches) settled
    /\ globMultiSearch plat fs searches configLoader errorOnUnmatchedPattern
                       l t
       = match (if errorOnUnmatchedPattern
                then first_rejected
                       (combine settled (normalizedSearches_of searches))
                else first_unexpected
                       (combine settled (normalizedSearches_of searches)))
         with
         | None => (Ok (flat_map settled_value settled), l, t1)
         | Some (reason, search) =>
             if negb (error_basePath_truthy reason)
             then (Throw reason, l, t1)
             else
               match error_unmatchedPatterns reason with
               | None => (Throw (SystemError (plain "TypeError")), l, t1)
               | Some unmatchedPatterns =>
                   match hd None unmatchedPatterns with
                   | None =>
                       (Throw (SystemError (plain "ERR_INVALID_ARG_TYPE")),
                        l, t1)
                   | Some pattern =>
                       let rawPattern :=
                         at_index (search_rawPatterns (snd search))
                                  (indexOf (search_patterns (snd search))
                                           (Some pattern)) in
                       match globMatch plat fs (fst search) pattern l t1 with
                       | (Ok true, l', t') =>
                           (Throw (AllFilesIgnoredError rawPattern), l', t')
                       | (Ok false, l', t') =>
                           (Throw (NoFilesFoundError rawPattern true), l', t')
                       | (Throw e, l', t') => (Throw e, l', t')
                       | (Suspend, l', t') => (Suspend, l', t')
                       end
                   end
               end
         end.
Proof.
  destruct (@run_searches_post plat fs Config configLoader
              errorOnUnmatchedPattern L (normalizedSearches_of searches) l t
              (normalizedSearches_nonempty searches))
    as (settled & t1 & Hrun & Hall).
  exists settled, t1. split; [exact Hrun|]. split; [exact Hall|].
  unfold globMultiSearch. cbv zeta. unfold bind at 1. rewrite Hrun.
  unfold bind at 1. rewrite handle_errors_first.
  destruct (if errorOnUnmatchedPattern then _ else _)
    as [[reason search]|] eqn:Hfirst; [|reflexivity].
  destruct (error_basePath_truthy reason) eqn:Ht; simpl; [|reflexivity].
  rewrite throwErrorForUnmatchedPatterns_eq.
  destruct (error_unmatchedPatterns reason) as [unmatchedPatterns|];
    [|reflexivity].
  destruct (hd None unmatchedPatterns); [|reflexivity].
  cbv zeta.
  now destruct (globMatch _ _ _ _ _ _) as [[[[|]|e|] l'] t'].
Qed.

End MultiSearchCases.

(** ** The return value *)

(** When [findFiles] returns, every search has settled, no settled search
    decided the first loop of [globMultiSearch], and the value is the set
    built from the literal files followed by the values of the settled
    searches. *)
Lemma findFiles_returns_cases (plat : Platform) (fs : FileSystem) Config
  patterns globInputPaths cwd (configLoader : ConfigLoader Config)
  errorOnUnmatchedPattern L (l : L) t result :
  let vars :=
    classified plat globInputPaths cwd patterns
      (map (fs_stat fs) (map (path_resolve plat cwd) patterns)) in
  outcome_of (findFiles plat fs patterns globInputPaths cwd configLoader
                        errorOnUnmatchedPattern l t) = Ok result ->
  exists settled t1,
    run_searches plat fs configLoader errorOnUnmatchedPattern
                 (normalizedSearches_of (searches vars)) l
                 (t ++ map EvStat (map (path_resolve plat cwd) patterns))
    = (Ok settled, l, t1)
    /\ Forall2 (settled_post plat fs configLoader errorOnUnmatchedPattern)
               (normalizedSearches_of (searches vars)) settled
    /\ (if errorOnUnmatchedPattern
        then first_rejected
               (combine settled (normalizedSearches_of (searches vars)))
        else first_unexpected
               (combine settled (normalizedSearches_of (searches vars))))
       = None
    /\ result
       = JsSet.from JsString_eqb
           (map Some (results vars) ++ flat_map settled_value settled).
Proof.
  intros vars Hok.
  rewrite findFiles_eq in Hok. cbv zeta in Hok. fold vars in Hok.
  destruct (errorOnUnmatchedPattern && _); [discriminate|].
  destruct (@globMultiSearch_cases plat fs Config configLoader
              errorOnUnmatchedPattern L (searches vars) l
              (t ++ map EvStat (map (path_resolve plat cwd) patterns)))
    as (settled & t1 & Hrun & Hall & Hms).
  exists settled, t1. split; [exact Hrun|]. split; [exact Hall|].
  rewrite Hms in Hok. clear Hms.
  destruct (if errorOnUnmatchedPattern then _ else _)
    as [[reason search]|].
  - exfalso.
    destruct (negb (error_basePath_truthy reason)); [discriminate|].
    destruct (error_unmatchedPatterns reason) as [unmatchedPatterns|];
      [|discriminate].
    destruct (hd None unmatchedPatterns); [|discriminate].
    cbv zeta in Hok.
    now destruct (globMatch _ _ _ _ _ _) as [[[[|]|e|] l'] t'].
  - split; [reflexivity|].
    unfold outcome_of in Hok. simpl in Hok. now injection Hok as <-.
Qed.

(** C9 fails on the code.  The specification returns the literal files
    followed by the results of the successful walks, and the code documents
    an array of paths.  But when unmatched patterns are not errors, a search
    that was rejected with a foreign error is passed over by the first loop
    of [globMultiSearch] if the error has a [basePath] property, and the
    second loop adds the [value] of every settled result, which is
    [undefined] for a rejected one.  Here the provider cannot load the
    configuration of [/r/a/x.js], and its error has a [basePath]: the
    search of [/r/a] is rejected with it, and [findFiles] returns the
    literal file followed by [undefined]. *)
Theorem swallowed_rejection_is_returned :
  let searches :=
    [("/r/a", {| search_patterns := ["/r/a/*.js"];
                 search_rawPatterns := ["a/*.js"] |})] in
  let t1 :=
    [EvStat "/r/b/z.js"; EvStat "/r/a/*.js"; EvIsDirectory "/r/a";
     EvList "/r/a"; EvLoadConfigArrayForFile "/r/a/x.js"] in
  run_searches Sample.platform Sample.file_system Sample.tagged_loader false
               searches tt [EvStat "/r/b/z.js"; EvStat "/r/a/*.js"]
  = (Ok [Rejected (SystemError Sample.tagged_error)], tt, t1)
  /\ findFiles Sample.platform Sample.file_system ["b/z.js"; "a/*.js"] true
               "/r" Sample.tagged_loader false tt []
     = (Ok [Some "/r/b/z.js"; None], tt, t1).
Proof. split; reflexivity. Qed.

(** ** Errors *)

Lemma findFiles_disabled_cases (plat : Platform) (fs : FileSystem) Config
  patterns globInputPaths cwd (configLoader : ConfigLoader Config) L (l : L)
  t :
  let vars :=
    classified plat globInputPaths cwd patterns
      (map (fs_stat fs) (map (path_resolve plat cwd) patterns)) in
  exists settled t1,
    run_searches plat fs configLoader false
                 (normalizedSearches_of (searches vars)) l
                 (t ++ map EvStat (map (path_resolve plat cwd) patterns))
    = (Ok settled, l, t1)
    /\ Forall2 (settled_post plat fs configLoader false)
               (normalizedSearches_of (searches vars)) settled
    /\ findFiles plat fs patterns globInputPaths cwd configLoader false l t
       = match first_unexpected
                 (combine settled
                          (normalizedSearches_of (searches vars))) with
         | Some (reason, _) => (Throw reason, l, t1)
         | None =>
             (Ok (JsSet.from JsString_eqb
                    (map Some (results vars)
                     ++ flat_map settled_value settled)),
              l, t1)
         end
    /\ (forall reason search,
           In (Rejected reason, search)
              (combine settled (normalizedSearches_of (searches vars))) ->
           exists e, reason = SystemError e).
Proof.
  intros vars.
  destruct (@globMultiSearch_cases plat fs Config configLoader false L
              (searches vars) l
              (t ++ map EvStat (map (path_resolve plat cwd) patterns)))
    as (settled & t1 & Hrun & Hall & Hms).
  exists settled, t1. split; [exact Hrun|]. split; [exact Hall|]. split.
  - rewrite findFiles_eq. cbv zeta. fold vars. cbn [andb].
    rewrite Hms.
    destruct (first_unexpected _) as [[reason search]|] eqn:Hfirst;
      [|reflexivity].
    now rewrite (@first_unexpected_falsy _ _ _ Hfirst).
  - intros reason search Hin.
    destruct (@rejected_post plat fs Config configLoader false _ _ _ _ Hall Hin)
      as [_ Hpost].
    simpl in Hpost. destruct Hpost as [H|(H & _)]; [exact H|discriminate].
Qed.

(** C4: with [errorOnUnmatchedPattern = false], [findFiles] never raises a
    discovery error, however many patterns are missing or unmatched: it
    returns, or it throws a foreign error (one without a [basePath]).
    Foreign errors without a [basePath] propagate unchanged: every search
    settles, no search is rejected with a discovery error, and [findFiles]
    throws the reason of the first rejected search whose reason has no
    truthy [basePath] as it is, or returns if there is none.  So it throws
    the reason of the first rejected search when that one has no
    [basePath], and it returns the literal files followed by the files of
    the groups when no search was rejected. *)
Theorem no_discovery_error_when_disabled :
  forall (plat : Platform) (fs : FileSystem) (Config : Type)
         (patterns : list string) (globInputPaths : bool) (cwd : string)
         (configLoader : ConfigLoader Config) (L : Type) (l : L)
         (t : list Event),
    let r := findFiles plat fs patterns globInputPaths cwd configLoader
                       false l t in
    let vars :=
      classified plat globInputPaths cwd patterns
        (map (fs_stat fs) (map (path_resolve plat cwd) patterns)) in
    match outcome_of r with
    | Ok _ => True
    | Throw e => is_discovery_error e = false
    | Suspend => False
    end
    /\ exists settled t1,
         run_searches plat fs configLoader false
                      (normalizedSearches_of (searches vars)) l
                      (t ++ map EvStat (map (path_resolve plat cwd) patterns))
         = (Ok settled, l, t1)
         /\ r = match first_unexpected
                        (combine settled
                                 (normalizedSearches_of (searches vars))) with
                | Some (reason, _) => (Throw reason, l, t1)
                | None =>
                    (Ok (JsSet.from JsString_eqb
                           (map Some (results vars)
                            ++ flat_map settled_value settled)),
                     l, t1)
                end
         /\ (forall reason search,
                In (Rejected reason, search)
                   (combine settled (normalizedSearches_of (searches vars)))
                -> exists e, reason = SystemError e)
         /\ (forall reason search,
                first_rejected
                  (combine settled (normalizedSearches_of (searches vars)))
                = Some (reason, search) ->
                error_basePath_truthy reason = false ->
                r = (Throw reason, l, t1))
         /\ (first_rejected
               (combine settled (normalizedSearches_of (searches vars)))
             = None ->
             r = (Ok (JsSet.from JsString_eqb
                        (map Some (results vars)
                         ++ map Some
                              (flat_map
                                 (fun search =>
                                    group_files plat fs (fst search)
                                      (search_patterns (snd search))
                                      configLoader)
                                 (normalizedSearches_of (searches vars))))),
                  l, t1)).
Proof.
  intros.
  destruct (@findFiles_disabled_cases plat fs Config patterns globInputPaths
              cwd configLoader L l t)
    as (settled & t1 & Hrun & Hall & Heq & Hsys).
  fold vars in Hrun, Hall, Heq, Hsys. fold r in Heq.
  split.
  - rewrite Heq.
    destruct (first_unexpected _) as [[reason search]|] eqn:Hfirst;
      [|exact I].
    apply first_unexpected_In in Hfirst.
    now destruct (Hsys reason search Hfirst) as [e ->].
  - exists settled, t1. repeat split; try assumption.
    + intros reason search Hfirst Hfalsy. rewrite Heq.
      now rewrite (@first_unexpected_first _ _ _ Hfirst Hfalsy).
    + intros Hnone. rewrite Heq.
      rewrite (@first_unexpected_none _ Hnone).
      now rewrite (first_rejected_none Hall Hnone).
Qed.

Lemma no_discovery_error_when_disabled_witness :
  outcome_of (findFiles Sample.platform Sample.file_system
                        ["nope"; "**/*.py"; "b/*.js"] true "/r"
                        Sample.config_loader false tt [])
  = Ok [Some "/r/b/z.js"]
  /\ outcome_of (findFiles Sample.platform Sample.file_system
                           ["**/*.js"] true "/r"
                           Sample.failing_loader false tt [])
     = Throw (SystemError (plain "EACCES")).
Proof.
  split.
  - destruct (@no_discovery_error_when_disabled
                Sample.platform Sample.file_system unit
                ["nope"; "**/*.py"; "b/*.js"] true "/r"
                Sample.config_loader unit tt [])
      as [_ (settled & t1 & Hrun & Heq & _)].
    vm_compute in Hrun. injection Hrun as <- <-.
    rewrite Heq. reflexivity.
  - destruct (@no_discovery_error_when_disabled
                Sample.platform Sample.file_system unit
                ["**/*.js"] true "/r" Sample.failing_loader unit tt [])
      as [_ (settled & t1 & Hrun & Heq & _)].
    vm_compute in Hrun. injection Hrun as <- <-.
    rewrite Heq. reflexivity.
Defined.

(** ** A base path that is not a directory *)

Section NotADirectory.
Variable plat : Platform.
Variable fs : FileSystem.
Variable Config : Type.
Variable basePath : string.
Variable configLoader : ConfigLoader Config.
Hypothesis not_a_directory : hfs_isDirectory fs basePath = inr false.

Lemma globMatch_not_a_directory L pattern (l : L) t :
  globMatch plat fs basePath pattern l t
  = (Ok false, l, t ++ [EvIsDirectory basePath]).
Proof.
  unfold globMatch, scoped, bind, call, get. cbv zeta.
  now rewrite not_a_directory.
Qed.

Lemma fold_set_nonempty (ps : list string) (m : JsMap.t string) :
  m <> [] ->
  fold_left (fun m pattern =>
               JsMap.set (patternToUse_of plat basePath pattern) pattern m)
            ps m <> [].
Proof.
  revert m. induction ps as [|q rest IH]; intros m Hm; simpl; [assumption|].
  apply IH. apply JsMap_set_nonempty.
Qed.

Lemma relativeToPatterns_nonempty patterns :
  patterns <> [] -> relativeToPatterns plat basePath patterns <> [].
Proof.
  unfold relativeToPatterns.
  destruct patterns as [|p rest]; [congruence|]. intros _. simpl.
  apply fold_set_nonempty. discriminate.
Qed.

Lemma initial_unmatched_nonempty patterns :
  patterns <> [] -> initial_unmatched plat basePath patterns <> [].
Proof.
  intros Hne Hnil. apply (relativeToPatterns_nonempty Hne).
  destruct (relativeToPatterns plat basePath patterns) as [|[k v] m] eqn:E;
    [reflexivity|].
  exfalso.
  assert (Hin : In k (initial_unmatched plat basePath patterns)).
  { unfold initial_unmatched. apply (@JsSet_from_In _ String.eqb String.eqb_eq).
    rewrite E. simpl. now left. }
  now rewrite Hnil in Hin.
Qed.

Lemma globSearch_not_a_directory L patterns rawPatterns
  errorOnUnmatchedPattern (l : L) t :
  patterns <> [] ->
  globSearch plat fs basePath patterns rawPatterns configLoader
             errorOnUnmatchedPattern l t
  = (if errorOnUnmatchedPattern
     then Throw (UnmatchedSearchPatternsError
                   basePath
                   (map (fun pattern =>
                           JsMap.get pattern
                             (relativeToPatterns plat basePath patterns))
                        (initial_unmatched plat basePath patterns))
                   patterns rawPatterns)
     else Ok [],
     l, t ++ [EvIsDirectory basePath]).
Proof.
  intros Hne. unfold globSearch.
  destruct (Nat.eqb_spec (length patterns) 0) as [Hz|_].
  { apply length_zero_iff_nil in Hz. contradiction. }
  unfold scoped, globSearch_body, bind, call, get, ret.
  rewrite not_a_directory. cbn [unmatchedPatterns filePaths].
  fold (initial_unmatched plat basePath patterns).
  pose proof (initial_unmatched_nonempty Hne) as Hu.
  apply nonempty_size in Hu. rewrite Hu.
  now destruct errorOnUnmatchedPattern.
Qed.
End NotADirectory.

Lemma single_glob_searches cwd basePath filePath pattern :
  normalizedSearches_of
    (push_search basePath filePath pattern [(cwd, empty_search)])
  = [(basePath,
      {| search_patterns := [filePath];
         search_rawPatterns := [pattern] |})].
Proof.
  unfold push_search, JsMap.has. cbn [JsMap.get].
  destruct (cwd =? basePath) eqn:E.
  - cbn [JsMap.get]. rewrite E. cbn [JsMap.set]. rewrite E.
    apply String.eqb_eq in E. subst. reflexivity.
  - cbn [JsMap.set]. rewrite E. cbn [JsMap.get]. rewrite E.
    rewrite String.eqb_refl. cbn [JsMap.set]. rewrite E.
    rewrite String.eqb_refl. reflexivity.
Qed.

Section UncheckedBasePath.
Variable plat : Platform.
Variable fs : FileSystem.
Variable Config : Type.
Variable basePath : string.
Variable configLoader : ConfigLoader Config.
Variable e : SysErr.
Hypothesis check_fails : hfs_isDirectory fs basePath = inl e.

Lemma globMatch_check_fails L pattern (l : L) t :
  globMatch plat fs basePath pattern l t
  = (Throw (SystemError e), l, t ++ [EvIsDirectory basePath]).
Proof.
  unfold globMatch, scoped, bind, call. cbv zeta.
  now rewrite check_fails.
Qed.

Lemma globSearch_check_fails L patterns rawPatterns
  errorOnUnmatchedPattern (l : L) t :
  patterns <> [] ->
  globSearch plat fs basePath patterns rawPatterns configLoader
             errorOnUnmatchedPattern l t
  = (Throw (SystemError e), l, t ++ [EvIsDirectory basePath]).
Proof.
  intros Hne. unfold globSearch.
  destruct (Nat.eqb_spec (length patterns) 0) as [Hz|_].
  { apply length_zero_iff_nil in Hz. contradiction. }
  unfold scoped, globSearch_body, bind, call.
  now rewrite check_fails.
Qed.
End UncheckedBasePath.

(** C10, amended: if the directory check answers that the base path of a
    group is not a directory (the path does not exist, or it is something
    else than a directory), the walk of the group reads no directory and
    yields no file: [globSearch] only checks the base path, and then
    returns the empty list, or throws the error for unmatched patterns
    (which then holds every pattern of the group) when unmatched patterns
    are errors; the second pass [globMatch] only checks the base path too
    and answers false, so that the error for the group is
    [NoFilesFoundError]; and a single glob pattern whose static prefix is
    such a path makes [findFiles] throw [NoFilesFoundError] for it.  If
    the check itself fails, as it does with [ENOTDIR] for a path below a
    regular file, nothing catches the failure: [globSearch] and
    [globMatch] are rejected with it, and for a single glob pattern with
    such a static prefix [findFiles] throws it, whether unmatched patterns
    are errors or not (for a failure without a [basePath]). *)
Theorem missing_base_path_yields_nothing :
  forall (plat : Platform) (fs : FileSystem) (Config : Type)
         (basePath : string) (patterns rawPatterns : list string)
         (configLoader : ConfigLoader Config)
         (errorOnUnmatchedPattern : bool) (L : Type) (l : L)
         (t : list Event),
    patterns <> [] ->
    (hfs_isDirectory fs basePath = inr false ->
     globSearch plat fs basePath patterns rawPatterns configLoader
                errorOnUnmatchedPattern l t
     = (if errorOnUnmatchedPattern
        then Throw (UnmatchedSearchPatternsError
                      basePath
                      (map (fun pattern =>
                              JsMap.get pattern
                                (relativeToPatterns plat basePath patterns))
                           (initial_unmatched plat basePath patterns))
                      patterns rawPatterns)
        else Ok [],
        l, t ++ [EvIsDirectory basePath])
     /\ initial_unmatched plat basePath patterns <> []
     /\ (forall pattern,
            globMatch plat fs basePath pattern l t
            = (Ok false, l, t ++ [EvIsDirectory basePath]))
     /\ (forall pattern unmatched,
            throwErrorForUnmatchedPatterns plat fs basePath patterns
              rawPatterns (Some (Some pattern :: unmatched)) l t
            = (Throw (NoFilesFoundError
                        (at_index rawPatterns
                                  (indexOf patterns (Some pattern))) true),
               l, t ++ [EvIsDirectory basePath]))
     /\ (forall cwd input,
            fs_stat fs (path_resolve plat cwd input) = None ->
            isGlobPattern plat (normalizeToPosix input) = true ->
            basePath
            = path_resolve plat cwd (globParent plat (normalizeToPosix input))
            ->
            basePath <> "" ->
            findFiles plat fs [input] true cwd configLoader true l t
            = (Throw (NoFilesFoundError (Some (normalizeToPosix input)) true),
               l,
               t ++ [EvStat (path_resolve plat cwd input);
                     EvIsDirectory basePath; EvIsDirectory basePath])))
    /\ (forall e,
           hfs_isDirectory fs basePath = inl e ->
           globSearch plat fs basePath patterns rawPatterns configLoader
                      errorOnUnmatchedPattern l t
           = (Throw (SystemError e), l, t ++ [EvIsDirectory basePath])
           /\ (forall pattern,
                  globMatch plat fs basePath pattern l t
                  = (Throw (SystemError e), l, t ++ [EvIsDirectory basePath]))
           /\ (forall cwd input,
                  fs_stat fs (path_resolve plat cwd input) = None ->
                  isGlobPattern plat (normalizeToPosix input) = true ->
                  basePath
                  = path_resolve plat cwd
                                 (globParent plat (normalizeToPosix input))
                  ->
                  sys_basePath e = false ->
                  findFiles plat fs [input] true cwd configLoader
                            errorOnUnmatchedPattern l t
                  = (Throw (SystemError e), l,
                     t ++ [EvStat (path_resolve plat cwd input);
                           EvIsDirectory basePath]))).
Proof.
  intros * Hne. split; [intros Hd|intros e He]; repeat apply conj.
  - now apply globSearch_not_a_directory.
  - now apply initial_unmatched_nonempty.
  - intros. now apply globMatch_not_a_directory.
  - intros. rewrite throwErrorForUnmatchedPatterns_eq. cbn [hd]. cbv zeta.
    now rewrite globMatch_not_a_directory.
  - intros cwd input Hs Hg Hb Hbne.
    rewrite findFiles_eq. cbv zeta.
    cbn [map]. rewrite Hs.
    unfold classified. cbn [map combine fold_left fst snd].
    unfold forEach_stat. rewrite Hg. cbn [andb].
    unfold add_search, initial_vars.
    cbn [results missingPatterns searches length Nat.ltb Nat.leb andb].
    unfold globMultiSearch. cbv zeta.
    rewrite single_glob_searches. rewrite <- Hb.
    unfold run_searches. cbn [map allSettled fst snd search_patterns
                                  search_rawPatterns].
    unfold bind at 1. unfold bind at 1. unfold settle at 1.
    rewrite (@globSearch_not_a_directory plat fs Config basePath configLoader
               Hd L [path_resolve plat cwd input] [normalizeToPosix input]
               true l _ ltac:(discriminate)).
    cbv beta iota zeta delta [bind ret].
    cbn [combine handle_errors error_basePath_truthy].
    destruct (basePath =? "") eqn:Eb.
    { apply String.eqb_eq in Eb. contradiction. }
    cbn [negb fst snd search_patterns search_rawPatterns
              error_unmatchedPatterns].
    cbv beta iota zeta delta [bind ret].
    unfold initial_unmatched, relativeToPatterns.
    cbn [fold_left JsMap.set JsMap.keys map fst].
    unfold JsSet.from. cbn [fold_left]. unfold JsSet.add.
    cbn [existsb app map JsMap.get]. rewrite String.eqb_refl.
    rewrite throwErrorForUnmatchedPatterns_eq. cbn [hd]. cbv zeta.
    rewrite (@globMatch_not_a_directory plat fs basePath Hd).
    cbn [indexOf JsString_eqb]. rewrite String.eqb_refl.
    cbn [at_index nth_error]. rewrite <- !app_assoc. reflexivity.
  - now apply globSearch_check_fails.
  - intros. now apply globMatch_check_fails.
  - intros cwd input Hs Hg Hb Hplain.
    rewrite findFiles_eq. cbv zeta.
    cbn [map]. rewrite Hs.
    unfold classified. cbn [map combine fold_left fst snd].
    unfold forEach_stat. rewrite Hg. cbn [andb].
    unfold add_search, initial_vars.
    cbn [results missingPatterns searches length Nat.ltb Nat.leb andb].
    rewrite andb_false_r.
    unfold globMultiSearch. cbv zeta.
    rewrite single_glob_searches. rewrite <- Hb.
    unfold run_searches. cbn [map allSettled fst snd search_patterns
                                  search_rawPatterns].
    unfold bind at 1. unfold bind at 1. unfold settle at 1.
    rewrite (@globSearch_check_fails plat fs Config basePath configLoader
               e He L [path_resolve plat cwd input] [normalizeToPosix input]
               errorOnUnmatchedPattern l _ ltac:(discriminate)).
    cbv beta iota zeta delta [bind ret].
    cbn [combine handle_errors error_basePath_truthy]. rewrite Hplain.
    cbn [negb]. unfold throw. rewrite <- !app_assoc. reflexivity.
Qed.

Lemma missing_base_path_yields_nothing_witness :
  findFiles Sample.platform Sample.file_system ["nope/*.js"] true "/r"
            Sample.config_loader true tt []
  = (Throw (NoFilesFoundError (Some "nope/*.js") true), tt,
     [EvStat "/r/nope/*.js"; EvIsDirectory "/r/nope";
      EvIsDirectory "/r/nope"])
  /\ findFiles Sample.platform Sample.posix_file_system ["a/x.js/sub/*.js"]
               true "/r" Sample.config_loader true tt []
     = (Throw (SystemError (plain "ENOTDIR")), tt,
        [EvStat "/r/a/x.js/sub/*.js"; EvIsDirectory "/r/a/x.js/sub"]).
Proof.
  split.
  - destruct (@missing_base_path_yields_nothing
                Sample.platform Sample.file_system unit "/r/nope"
                ["/r/nope/*.js"] ["nope/*.js"] Sample.config_loader true
                unit tt [] ltac:(discriminate))
      as [H _].
    destruct (H eq_refl) as (_ & _ & _ & _ & Hfind).
    apply (Hfind "/r" "nope/*.js").
    + reflexivity.
    + reflexivity.
    + reflexivity.
    + discriminate.
  - destruct (@missing_base_path_yields_nothing
                Sample.platform Sample.posix_file_system unit "/r/a/x.js/sub"
                ["/r/a/x.js/sub/*.js"] ["a/x.js/sub/*.js"]
                Sample.config_loader true unit tt [] ltac:(discriminate))
      as [_ H].
    destruct (H (plain "ENOTDIR") eq_refl) as (_ & _ & Hfind).
    apply (Hfind "/r" "a/x.js/sub/*.js"); reflexivity.
Defined.

(** C10 as it is stated fails: the path [/r/a/x.js/sub] does not exist,
    because [/r/a/x.js] is a regular file.  The directory check of such a
    path fails with [ENOTDIR], so the second pass does not answer false
    but is rejected, and the glob pattern with this static prefix does not
    surface as [NoFilesFoundError] but as the system error. *)
Lemma missing_prefix_below_a_file_is_a_system_error :
  fs_stat Sample.posix_file_system "/r/a/x.js/sub" = None
  /\ Sample.glob_parent "a/x.js/sub/*.js" = "a/x.js/sub"
  /\ outcome_of (globMatch Sample.platform Sample.posix_file_system
                           "/r/a/x.js/sub" "/r/a/x.js/sub/*.js" tt [])
     <> Ok false
  /\ globMatch Sample.platform Sample.posix_file_system
               "/r/a/x.js/sub" "/r/a/x.js/sub/*.js" tt []
     = (Throw (SystemError (plain "ENOTDIR")), tt,
        [EvIsDirectory "/r/a/x.js/sub"])
  /\ outcome_of (findFiles Sample.platform Sample.posix_file_system
                           ["a/x.js/sub/*.js"] true "/r"
                           Sample.config_loader true tt [])
     <> Throw (NoFilesFoundError (Some "a/x.js/sub/*.js") true)
  /\ outcome_of (findFiles Sample.platform Sample.posix_file_system
                           ["a/x.js/sub/*.js"] true "/r"
                           Sample.config_loader true tt [])
     = Throw (SystemError (plain "ENOTDIR")).
Proof.
  repeat apply conj; try reflexivity; vm_compute; discriminate.
Qed.

(** ** The error for unmatched patterns *)

Section UnmatchedError.
Variable plat : Platform.
Variable fs : FileSystem.
Variable Config : Type.
Variable basePath : string.
Variable patterns : list string.
Variable configLoader : ConfigLoader Config.

Lemma fold_set_get (ps : list string) (m : JsMap.t string) :
  (forall k p, JsMap.get k m = Some p ->
               In p patterns /\ patternToUse_of plat basePath p = k) ->
  incl ps patterns ->
  forall k p,
    JsMap.get k
      (fold_left (fun m pattern =>
                    JsMap.set (patternToUse_of plat basePath pattern)
                              pattern m) ps m) = Some p ->
    In p patterns /\ patternToUse_of plat basePath p = k.
Proof.
  revert m. induction ps as [|q rest IH]; intros m Hm Hincl k p; simpl.
  - apply Hm.
  - apply IH.
    + intros k' p'. rewrite JsMap_get_set.
      destruct (patternToUse_of plat basePath q =? k') eqn:E.
      * intros [= <-]. apply String.eqb_eq in E. split; [|exact E].
        apply Hincl. now left.
      * apply Hm.
    + intros x Hx. apply Hincl. now right.
Qed.

(** Every relative pattern maps back to a pattern of the group that it is
    the relative form of. *)
Lemma relativeToPatterns_get k p :
  JsMap.get k (relativeToPatterns plat basePath patterns) = Some p ->
  In p patterns /\ patternToUse_of plat basePath p = k.
Proof.
  unfold relativeToPatterns. apply fold_set_get.
  - intros k' p'. discriminate.
  - apply incl_refl.
Qed.

Lemma group_unmatched_key k :
  In k (group_unmatched plat fs basePath patterns configLoader) ->
  exists p,
    JsMap.get k (relativeToPatterns plat basePath patterns) = Some p
    /\ In p patterns
    /\ patternToUse_of plat basePath p = k.
Proof.
  unfold group_unmatched, spec_unmatched, initial_unmatched.
  intros Hin. apply filter_In in Hin. destruct Hin as [Hin _].
  apply (proj1 (@JsSet_from_In _ String.eqb String.eqb_eq _ _)) in Hin.
  destruct (JsMap_get_keys _ _ Hin) as [p Hp].
  exists p. split; [exact Hp|]. now apply relativeToPatterns_get.
Qed.
End UnmatchedError.

Lemma indexOf_In (xs : list string) (x : string) :
  In x xs ->
  exists i, indexOf xs (Some x) = Some i /\ nth_error xs i = Some x.
Proof.
  induction xs as [|y rest IH]; [contradiction|].
  intros Hin. simpl. destruct (y =? x) eqn:E.
  - apply String.eqb_eq in E. subst. now exists 0.
  - destruct Hin as [->|Hin]; [now rewrite String.eqb_refl in E|].
    destruct (IH Hin) as (i & Hi & Hn). exists (S i). rewrite Hi.
    split; [reflexivity|exact Hn].
Qed.

(** The raw pattern of a pattern of the group exists when the two arrays
    of the group have the same length. *)
Lemma rawPattern_defined (patterns rawPatterns : list string) (p : string) :
  length patterns = length rawPatterns ->
  In p patterns ->
  exists raw,
    at_index rawPatterns (indexOf patterns (Some p)) = Some raw
    /\ In raw rawPatterns.
Proof.
  intros Hlen Hin. destruct (indexOf_In _ _ Hin) as (i & Hi & Hn).
  rewrite Hi. simpl.
  assert (Hlt : i < length rawPatterns).
  { rewrite <- Hlen. apply nth_error_Some. congruence. }
  apply nth_error_Some in Hlt.
  destruct (nth_error rawPatterns i) as [raw|] eqn:Hr; [|congruence].
  exists raw. split; [reflexivity|]. now apply nth_error_In with (n := i).
Qed.

(** *** The two arrays of every group have the same length *)

Lemma push_search_same_lengths key globbyPattern rawPattern searches :
  same_lengths searches ->
  same_lengths (push_search key globbyPattern rawPattern searches).
Proof.
  intros Hs. unfold push_search.
  set (searches1 := if JsMap.has key searches then searches
                    else JsMap.set key empty_search searches).
  assert (H1 : same_lengths searches1).
  { unfold searches1. destruct (JsMap.has key searches); [exact Hs|].
    intros k s Hin. apply JsMap_set_In in Hin.
    destruct Hin as [[= -> ->]|Hin]; [reflexivity|]. now apply (Hs k). }
  destruct (JsMap.get key searches1) as [s|] eqn:Hg; [|exact H1].
  intros k s' Hin. apply JsMap_set_In in Hin.
  destruct Hin as [[= -> ->]|Hin]; [|now apply (H1 k)].
  simpl. rewrite !length_app. simpl.
  apply JsMap_get_In in Hg. now rewrite (H1 _ _ Hg).
Qed.

Lemma forEach_stat_same_lengths (plat : Platform) globInputPaths cwd vars
  stat filePath input :
  same_lengths (searches vars) ->
  same_lengths (searches (forEach_stat plat globInputPaths cwd vars stat
                                       filePath input)).
Proof.
  intros Hs. unfold forEach_stat.
  destruct stat as [st|].
  - destruct (isFile st), (Stats_isDirectory st); simpl;
      try apply push_search_same_lengths; exact Hs.
  - destruct (globInputPaths && _); simpl;
      try apply push_search_same_lengths; exact Hs.
Qed.

Lemma classified_same_lengths (plat : Platform) globInputPaths cwd patterns
  stats :
  same_lengths (searches (classified plat globInputPaths cwd patterns stats)).
Proof.
  unfold classified.
  assert (H0 : same_lengths (searches (initial_vars cwd))).
  { intros k s [[= <- <-]|[]]. reflexivity. }
  revert H0. generalize (initial_vars cwd).
  generalize (combine stats (combine (map (path_resolve plat cwd) patterns)
                                     patterns)).
  induction l as [|item rest IH]; intros vars Hv; simpl; [exact Hv|].
  apply IH. now apply forEach_stat_same_lengths.
Qed.

(** *** The raw pattern of a pattern *)

(** [indexOf] gives the first position of the pattern. *)
Lemma indexOf_first (xs : list string) (x : string) (i : nat) :
  indexOf xs (Some x) = Some i ->
  nth_error xs i = Some x
  /\ forall j, j < i -> nth_error xs j <> Some x.
Proof.
  revert i. induction xs as [|y rest IH]; intros i; simpl; [discriminate|].
  destruct (y =? x) eqn:E.
  - intros [= <-]. apply String.eqb_eq in E. subst.
    split; [reflexivity|]. intros j Hj. lia.
  - destruct (indexOf rest (Some x)) as [n|]; [|discriminate].
    intros [= <-]. destruct (IH n eq_refl) as [Hn Hfirst].
    split; [exact Hn|]. intros [|j] Hj; simpl.
    + intros [= ->]. now rewrite String.eqb_refl in E.
    + apply Hfirst. lia.
Qed.

Lemma push_search_paired (P : string -> string -> Prop) key globbyPattern
  rawPattern searches :
  same_lengths searches ->
  paired P searches ->
  P globbyPattern rawPattern ->
  paired P (push_search key globbyPattern rawPattern searches).
Proof.
  intros Hlen Hs Hnew. unfold push_search.
  set (searches1 := if JsMap.has key searches then searches
                    else JsMap.set key empty_search searches).
  assert (Hlen1 : same_lengths searches1).
  { unfold searches1. destruct (JsMap.has key searches); [exact Hlen|].
    intros k s Hin. apply JsMap_set_In in Hin.
    destruct Hin as [[= -> ->]|Hin]; [reflexivity|]. now apply (Hlen k). }
  assert (H1 : paired P searches1).
  { unfold searches1. destruct (JsMap.has key searches); [exact Hs|].
    intros k s i p raw Hin. apply JsMap_set_In in Hin.
    destruct Hin as [[= -> ->]|Hin]; [|now apply (Hs k)].
    simpl. now destruct i. }
  destruct (JsMap.get key searches1) as [s|] eqn:Hg; [|exact H1].
  apply JsMap_get_In in Hg.
  intros k s' i p raw Hin. apply JsMap_set_In in Hin.
  destruct Hin as [[= -> ->]|Hin]; [|now apply (H1 k)].
  simpl. pose proof (Hlen1 _ _ Hg) as Hl.
  destruct (Nat.lt_ge_cases i (length (search_patterns s))) as [Hlt|Hge].
  - rewrite !nth_error_app1 by lia. now apply (H1 key).
  - rewrite !nth_error_app2 by lia. rewrite <- Hl.
    destruct (i - length (search_patterns s)) as [|n]; simpl.
    + now intros [= <-] [= <-].
    + now destruct n.
Qed.

Lemma forEach_stat_paired (plat : Platform) globInputPaths cwd inputs vars
  stat input :
  In input inputs ->
  same_lengths (searches vars) ->
  paired (from_input plat cwd inputs) (searches vars) ->
  paired (from_input plat cwd inputs)
         (searches (forEach_stat plat globInputPaths cwd vars stat
                                 (path_resolve plat cwd input) input)).
Proof.
  intros Hin Hlen Hs. unfold forEach_stat.
  destruct stat as [st|].
  - destruct (isFile st), (Stats_isDirectory st); simpl; try exact Hs;
      (apply push_search_paired; [exact Hlen|exact Hs|]);
      exists input; tauto.
  - destruct (globInputPaths && _); simpl; [|exact Hs].
    apply push_search_paired; [exact Hlen|exact Hs|].
    exists input. tauto.
Qed.

(** The items of the loop over the stats: a stat, the resolved input and
    the input. *)
Lemma stat_items (plat : Platform) cwd (inputs ps : list string)
  (stats : list (option Stats)) :
  incl ps inputs ->
  Forall (fun item =>
            In (snd (snd item)) inputs
            /\ fst (snd item) = path_resolve plat cwd (snd (snd item)))
         (combine stats (combine (map (path_resolve plat cwd) ps) ps)).
Proof.
  revert stats. induction ps as [|p rest IH]; intros stats Hsub.
  - destruct stats; constructor.
  - destruct stats as [|st stats]; simpl; constructor.
    + simpl. split; [apply Hsub; now left|reflexivity].
    + apply IH. intros x Hx. apply Hsub. now right.
Qed.

(** Every raw pattern of a group is an input pattern with forward
    slashes, at the position of the pattern the loop made of it. *)
Lemma classified_paired (plat : Platform) globInputPaths cwd patterns stats :
  paired (from_input plat cwd patterns)
         (searches (classified plat globInputPaths cwd patterns stats)).
Proof.
  unfold classified.
  assert (H0 : paired (from_input plat cwd patterns)
                      (searches (initial_vars cwd))).
  { intros k s i p raw [[= <- <-]|[]]. simpl. now destruct i. }
  assert (L0 : same_lengths (searches (initial_vars cwd))).
  { intros k s [[= <- <-]|[]]. reflexivity. }
  pose proof (@stat_items plat cwd patterns patterns stats
                (incl_refl patterns)) as Hitems.
  revert H0 L0 Hitems. generalize (initial_vars cwd).
  generalize (combine stats (combine (map (path_resolve plat cwd) patterns)
                                     patterns)).
  induction l as [|[stat [filePath input]] rest IH]; intros vars Hv Lv Hitems;
    simpl; [exact Hv|].
  inversion Hitems as [|? ? [Hin Hfp] Hrest]; subst. simpl in Hin, Hfp.
  subst filePath.
  apply IH; [| |exact Hrest].
  - now apply forEach_stat_paired.
  - now apply forEach_stat_same_lengths.
Qed.

(** *** What the second pass finds *)

Section SecondPass.
Variable plat : Platform.
Variable fs : FileSystem.
Variable basePath : string.
Variable pattern : string.

Local Abbreviation matcher :=
  {| matcher_pattern := patternToUse_of plat basePath pattern |}.
Local Abbreviation include :=
  (spec_include plat basePath [pattern] permissive_loader).
Local Abbreviation descend :=
  (spec_descend plat basePath [pattern] permissive_loader).
Local Abbreviation reached_d :=
  (reached_dir plat basePath [pattern] permissive_loader).
Local Abbreviation reached_e :=
  (reached_ent plat basePath [pattern] permissive_loader).
Local Abbreviation post := (match_post plat basePath pattern).
Local Abbreviation dF := (globMatch_directoryFilter plat matcher).
Local Abbreviation eF := (globMatch_entryFilter plat matcher).
Local Abbreviation stop := (fun _ : WalkEntry => @suspend bool unit).

Lemma include_permissive entry :
  include entry
  = negb (entry_isDirectory entry)
    && minimatch plat (patternToUse_of plat basePath pattern)
                 (entry_path entry) false.
Proof.
  unfold spec_include, matches_some, has_config. simpl.
  now rewrite orb_false_r, andb_true_r.
Qed.

Lemma descend_permissive entry :
  descend entry
  = minimatch plat (patternToUse_of plat basePath pattern)
              (entry_path entry) true.
Proof.
  unfold spec_descend, prefix_matches_some, provider_keeps_directory. simpl.
  now rewrite orb_false_r, andb_true_r.
Qed.

Lemma match_post_seq (m1 m2 : M bool unit) entries1 entries2 t :
  post entries1 (m1 false t) ->
  (forall t', post entries2 (m2 false t')) ->
  post (entries1 ++ entries2) ((m1 ;; m2) false t).
Proof.
  unfold match_post, bind, outcome_of, local_of. rewrite existsb_app.
  destruct (m1 false t) as [[[a|e|] found] t1]; cbn [fst snd].
  - intros [-> ->] H2. specialize (H2 t1).
    now destruct (m2 false t1) as [[[a2|e2|] found2] t2].
  - tauto.
  - intros [-> ->] _. split; reflexivity.
Qed.

Lemma match_post_nil t : post [] (ret tt false t).
Proof. unfold match_post, outcome_of, local_of, ret. simpl. tauto. Qed.

Lemma match_post_entry entry t :
  post [entry]
       ((shouldEmitEntry <- eF entry ;;
         if shouldEmitEntry then stop entry else ret tt) false t).
Proof.
  unfold match_post. cbn [existsb]. rewrite orb_false_r, include_permissive.
  unfold bind at 1, globMatch_entryFilter. unfold bind at 1, get.
  cbn [orb]. destruct (entry_isDirectory entry).
  - unfold ret, outcome_of, local_of. simpl. tauto.
  - unfold bind at 1, matcher_match. unfold bind at 1, emit, ret at 1.
    cbn [matcher_pattern negb andb].
    destruct (minimatch plat _ (entry_path entry) false);
      unfold bind, modify, ret, suspend, outcome_of, local_of; simpl; tauto.
Qed.

Lemma match_file_post name dirPath parentPath depth t :
  post (reached_e parentPath depth (FileEnt name))
       (walk_ent dF eF stop dirPath parentPath depth (FileEnt name) false t).
Proof.
  cbn [walk_ent reached_ent]. cbv zeta. rewrite <- bind_assoc.
  change [walkEntry_of parentPath depth (FileEnt name)]
    with ([walkEntry_of parentPath depth (FileEnt name)] ++ []).
  apply match_post_seq; [apply match_post_entry|].
  intros. apply match_post_nil.
Qed.

Lemma match_directory_post name contents :
  (forall dirPath parentPath depth t,
      post (reached_d parentPath depth contents)
           (walk_dir dF eF stop dirPath parentPath depth contents false t)) ->
  forall dirPath parentPath depth t,
    post (reached_e parentPath depth (DirectoryEnt name contents))
         (walk_ent dF eF stop dirPath parentPath depth
                   (DirectoryEnt name contents) false t).
Proof.
  intros IH dirPath parentPath depth t.
  cbn [walk_ent reached_ent]. cbv zeta.
  set (entry := walkEntry_of parentPath depth (DirectoryEnt name contents)).
  rewrite <- bind_assoc.
  change (entry :: ?l) with ([entry] ++ l).
  apply match_post_seq; [apply match_post_entry|].
  intros t'. rewrite descend_permissive.
  unfold bind at 1, globMatch_directoryFilter. unfold bind at 1, get.
  cbn [negb]. unfold matcher_match. unfold bind at 1, emit, ret at 1.
  cbn [matcher_pattern].
  destruct (minimatch plat _ (entry_path entry) true);
    [apply IH|apply match_post_nil].
Qed.

Lemma match_entries_post es :
  Forall (fun x => forall dirPath parentPath depth t,
              post (reached_e parentPath depth x)
                   (walk_ent dF eF stop dirPath parentPath depth x false t))
         es ->
  forall dirPath parentPath depth t,
    post (reached_d parentPath depth (Entries es))
         (walk_dir dF eF stop dirPath parentPath depth (Entries es) false t).
Proof.
  intros Hall dirPath parentPath depth t.
  rewrite walk_dir_eq. unfold bind at 1, emit.
  generalize (t ++ [EvList dirPath]). clear t.
  induction Hall as [|x rest Hx _ IH]; intros t.
  - apply match_post_nil.
  - change (reached_d parentPath depth (Entries (x :: rest)))
      with (reached_e parentPath depth x
            ++ reached_d parentPath depth (Entries rest)).
    cbn [walk_each]. apply match_post_seq; [apply Hx|apply IH].
Qed.

(** The walk of [globMatch] stops at the first file that the pattern
    matches among the entries it reaches, and runs to the end if there is
    none. *)
Lemma match_dir_post d :
  forall dirPath parentPath depth t,
    post (reached_d parentPath depth d)
         (walk_dir dF eF stop dirPath parentPath depth d false t).
Proof.
  apply (DirRead_tree_ind
           (P := fun x => forall dirPath parentPath depth t,
                   post (reached_e parentPath depth x)
                        (walk_ent dF eF stop dirPath parentPath depth x
                                  false t))
           (fun d => forall dirPath parentPath depth t,
                post (reached_d parentPath depth d)
                     (walk_dir dF eF stop dirPath parentPath depth d
                               false t))).
  - apply match_file_post.
  - apply match_directory_post.
  - intros. rewrite walk_dir_eq. unfold bind, emit. apply match_post_nil.
  - intros. rewrite walk_dir_eq. unfold bind, emit, throw, match_post,
      outcome_of. reflexivity.
  - apply match_entries_post.
Qed.

Lemma globMatch_eq L (l : L) t :
  globMatch plat fs basePath pattern l t
  = match hfs_isDirectory fs basePath with
    | inl e => (Throw (SystemError e), l, t ++ [EvIsDirectory basePath])
    | inr false => (Ok false, l, t ++ [EvIsDirectory basePath])
    | inr true =>
        match walk_dir dF eF stop basePath "" 1 (hfs_list fs basePath)
                       false (t ++ [EvIsDirectory basePath]) with
        | (Ok _, found, t') => (Ok found, l, t')
        | (Suspend, found, t') => (Ok found, l, t')
        | (Throw e, _, t') => (Throw e, l, t')
        end
    end.
Proof.
  unfold globMatch, scoped, bind, call, next, get. cbv zeta.
  fold (patternToUse_of plat basePath pattern).
  destruct (hfs_isDirectory fs basePath) as [e|[|]]; try reflexivity.
  now destruct (walk_dir _ _ _ _ _ _ _ _ _) as [[[a|e|] found] t'].
Qed.

(** [globMatch] ends with the answer or with a foreign error, and its
    answer says whether the walk reaches a file that the pattern matches. *)
Lemma globMatch_post L (l : L) t :
  let r := globMatch plat fs basePath pattern l t in
  local_of r = l
  /\ match outcome_of r with
     | Ok found =>
         found = existsb include
                         (group_entries plat fs basePath [pattern]
                                        permissive_loader)
     | Throw e => is_discovery_error e = false
     | Suspend => False
     end.
Proof.
  cbv zeta. rewrite globMatch_eq. unfold group_entries.
  destruct (hfs_isDirectory fs basePath) as [e|[|]].
  - unfold local_of, outcome_of. simpl. tauto.
  - pose proof (match_dir_post (hfs_list fs basePath) basePath "" 1
                               (t ++ [EvIsDirectory basePath])) as H.
    unfold match_post, outcome_of, local_of in H.
    destruct (walk_dir _ _ _ _ _ _ _ _ _) as [[[a|e|] found] t'];
      cbn [fst snd] in H; unfold local_of, outcome_of; cbn [fst snd].
    + destruct H as [-> Hh]. split; [reflexivity|now rewrite Hh].
    + tauto.
    + destruct H as [-> Hh]. split; [reflexivity|now rewrite Hh].
  - unfold local_of, outcome_of. simpl. tauto.
Qed.
End SecondPass.

Lemma existsb_filter_nonempty {A B} (f : A -> bool) (g : A -> B) (xs : list A) :
  existsb f xs = true <-> map g (filter f xs) <> [].
Proof.
  induction xs as [|x xs IH]; simpl; [split; congruence|].
  destruct (f x); simpl; [split; [discriminate|reflexivity]|exact IH].
Qed.


(** When the second pass returns, it has found a file exactly when the
    walk without provider reaches an entry that is not a directory and
    that the pattern matches. *)
Lemma globMatch_found_iff (plat : Platform) (fs : FileSystem)
  (basePath pattern : string) L (l : L) t found :
  outcome_of (globMatch plat fs basePath pattern l t) = Ok found ->
  found = true
  <-> exists entry,
        In entry (group_entries plat fs basePath [pattern]
                                permissive_loader)
        /\ entry_isDirectory entry = false
        /\ minimatch plat (patternToUse_of plat basePath pattern)
                     (entry_path entry) false = true.
Proof.
  intros Hok.
  destruct (globMatch_post plat fs basePath pattern l t) as [_ H].
  rewrite Hok in H. subst found.
  rewrite existsb_exists. split.
  - intros (entry & Hin & Hinc). exists entry.
    rewrite include_permissive in Hinc.
    apply andb_true_iff in Hinc. rewrite negb_true_iff in Hinc. tauto.
  - intros (entry & Hin & Hd & Hm). exists entry. split; [exact Hin|].
    rewrite include_permissive, Hd, Hm. reflexivity.
Qed.

(** The second pass never calls the configuration provider. *)
Lemma globMatch_without_provider (plat : Platform) (fs : FileSystem) L
  basePath pattern :
  appends (fun ev => is_provider_event ev = false)
          (@globMatch plat fs L basePath pattern).
Proof.
  unfold globMatch. apply appends_scoped. cbv zeta.
  apply appends_bind; [now apply appends_call|].
  intros [|]; [|apply appends_get].
  apply appends_bind; [|intros; apply appends_get].
  apply appends_next. apply appends_walk_dir.
  - reflexivity.
  - intros entry. unfold globMatch_directoryFilter.
    apply appends_bind; [apply appends_get|]. intros found.
    apply appends_if; [|apply appends_ret].
    now apply appends_matcher_match.
  - intros entry. unfold globMatch_entryFilter.
    apply appends_bind; [apply appends_get|]. intros found.
    apply appends_if; [apply appends_ret|].
    apply appends_bind; [now apply appends_matcher_match|].
    intros m. apply appends_if; [|apply appends_ret].
    apply appends_bind; [apply appends_modify|]. intros _. apply appends_ret.
  - intros entry. apply appends_suspend.
Qed.



(* ========================================================================= *)
(** * Properties beyond the specification *)
(* ========================================================================= *)

(** ** Slashes *)

Lemma normalizeToPosix_app (a b : string) :
  normalizeToPosix (a ++ b) = (normalizeToPosix a ++ normalizeToPosix b)%string.
Proof. induction a as [|c a IH]; simpl; [reflexivity|]. now rewrite IH. Qed.

Lemma normalizeToPosix_clean (p : string) :
  has_backslash (normalizeToPosix p) = false.
Proof.
  induction p as [|c p IH]; simpl; [reflexivity|]. rewrite IH.
  destruct (Ascii.eqb c "\"%char) eqn:E; simpl; rewrite ?E; reflexivity.
Qed.

Lemma normalizeToPosix_fixed (p : string) :
  has_backslash p = false -> normalizeToPosix p = p.
Proof.
  induction p as [|c p IH]; simpl; [reflexivity|].
  destruct (Ascii.eqb c "\"%char); simpl; [discriminate|].
  intros H. now rewrite IH.
Qed.

(** X1: [normalizeToPosix] leaves no backslash, keeps the length, changes
    nothing in a string without backslash (so applying it twice is applying
    it once) and distributes over concatenation. *)
Theorem normalizeToPosix_normalizes :
  forall p q : string,
    has_backslash (normalizeToPosix p) = false
    /\ String.length (normalizeToPosix p) = String.length p
    /\ normalizeToPosix (normalizeToPosix p) = normalizeToPosix p
    /\ (has_backslash p = false -> normalizeToPosix p = p)
    /\ normalizeToPosix (p ++ q)
       = (normalizeToPosix p ++ normalizeToPosix q)%string.
Proof.
  intros p q. repeat apply conj.
  - apply normalizeToPosix_clean.
  - induction p as [|c p IH]; simpl; congruence.
  - apply normalizeToPosix_fixed, normalizeToPosix_clean.
  - apply normalizeToPosix_fixed.
  - apply normalizeToPosix_app.
Qed.

Lemma normalizeToPosix_normalizes_witness :
  normalizeToPosix "src/lib/*.js" = "src/lib/*.js"
  /\ normalizeToPosix "src\lib\*.js" = "src/lib/*.js".
Proof.
  split; [|reflexivity].
  destruct (normalizeToPosix_normalizes "src/lib/*.js" "")
    as (_ & _ & _ & H & _).
  apply H. reflexivity.
Defined.

Lemma isGlobPattern_normalized (plat : Platform) (p : string) :
  isGlobPattern plat (normalizeToPosix p) = isGlob plat (normalizeToPosix p).
Proof.
  unfold isGlobPattern. destruct (path_sep_is_backslash plat); [|reflexivity].
  now rewrite (normalizeToPosix_fixed _ (normalizeToPosix_clean p)).
Qed.

Lemma forEach_stat_with_sep (plat : Platform) backslash globInputPaths cwd
  vars stat filePath input :
  forEach_stat (with_sep backslash plat) globInputPaths cwd vars stat
               filePath input
  = forEach_stat plat globInputPaths cwd vars stat filePath input.
Proof.
  unfold forEach_stat. destruct stat as [st|]; [reflexivity|].
  rewrite !isGlobPattern_normalized. reflexivity.
Qed.

Lemma classified_with_sep (plat : Platform) backslash globInputPaths cwd
  patterns stats :
  classified (with_sep backslash plat) globInputPaths cwd patterns stats
  = classified plat globInputPaths cwd patterns stats.
Proof.
  unfold classified. cbn [path_resolve with_sep].
  generalize (initial_vars cwd).
  generalize (combine stats (combine (map (path_resolve plat cwd) patterns)
                                     patterns)).
  induction l as [|item rest IH]; intros vars; simpl; [reflexivity|].
  rewrite forEach_stat_with_sep. apply IH.
Qed.

(** X2: [findFiles] does not depend on [path.sep].  The separator is only
    looked at by [isGlobPattern], and [findFiles] calls it on a pattern
    whose backslashes have already been replaced; so with the same path
    functions a run gives the same outcome and the same trace on both
    kinds of platform. *)
Theorem findFiles_ignores_path_sep :
  forall (plat : Platform) (fs : FileSystem) (Config : Type)
         (patterns : list string) (globInputPaths : bool) (cwd : string)
         (configLoader : ConfigLoader Config)
         (errorOnUnmatchedPattern : bool) (L : Type) (l : L)
         (t : list Event) (backslash : bool),
    findFiles (with_sep backslash plat) fs patterns globInputPaths cwd
              configLoader errorOnUnmatchedPattern l t
    = findFiles plat fs patterns globInputPaths cwd configLoader
                errorOnUnmatchedPattern l t.
Proof.
  intros. rewrite !findFiles_eq. cbn [path_resolve with_sep].
  rewrite classified_with_sep. reflexivity.
Qed.

(** ** Empty input *)

(** X3: without patterns [findFiles] returns the empty list and touches
    nothing: no stat, no directory is checked or read, the provider is not
    called, and no error is raised even when unmatched patterns are errors.
    The same holds for [globSearch] on a group without patterns. *)
Theorem no_patterns_no_work :
  forall (plat : Platform) (fs : FileSystem) (Config : Type)
         (globInputPaths : bool) (cwd basePath : string)
         (rawPatterns : list string) (configLoader : ConfigLoader Config)
         (errorOnUnmatchedPattern : bool) (L : Type) (l : L)
         (t : list Event),
    findFiles plat fs [] globInputPaths cwd configLoader
              errorOnUnmatchedPattern l t = (Ok [], l, t)
    /\ globSearch plat fs basePath [] rawPatterns configLoader
                  errorOnUnmatchedPattern l t = (Ok [], l, t).
Proof.
  intros. split; [|reflexivity].
  rewrite findFiles_eq. cbn. rewrite andb_false_r, app_nil_r. reflexivity.
Qed.

(** ** Where the returned paths come from *)

Lemma first_rejected_none_In (settled : list (Settled * (string * GlobSearch)))
  reason search :
  first_rejected settled = None -> ~ In (Rejected reason, search) settled.
Proof.
  induction settled as [|[[value|reason'] search'] rest IH]; simpl;
    [tauto| |discriminate].
  intros H [E|Hin]; [discriminate|]. now apply IH.
Qed.

Lemma first_unexpected_none_In
  (settled : list (Settled * (string * GlobSearch))) reason search :
  first_unexpected settled = None ->
  In (Rejected reason, search) settled ->
  error_basePath_truthy reason = true.
Proof.
  induction settled as [|[[value|reason'] search'] rest IH]; simpl;
    [tauto| |].
  - intros H [E|Hin]; [discriminate|]. now apply IH.
  - destruct (error_basePath_truthy reason') eqn:Ht; [|discriminate].
    intros H [[= <- <-]|Hin]; [exact Ht|now apply IH].
Qed.

Section LiteralOrigin.
Variable plat : Platform.
Variable fs : FileSystem.
Variable globInputPaths : bool.
Variable cwd : string.

Lemma forEach_stat_results_inv vars stat filePath input q :
  In q (results (forEach_stat plat globInputPaths cwd vars stat
                              filePath input)) ->
  In q (results vars)
  \/ (q = filePath /\ exists st, stat = Some st /\ isFile st = true).
Proof.
  unfold forEach_stat. destruct stat as [st|].
  - destruct (isFile st) eqn:Hf, (Stats_isDirectory st); simpl;
      rewrite ?in_app_iff; simpl; intros H; try tauto;
      destruct H as [H|[<-|[]]]; try tauto; right; eauto.
  - destruct (globInputPaths && _); simpl; tauto.
Qed.

Lemma fold_results_inv patterns vars q :
  In q (results
          (fold_left
             (fun vars input =>
                forEach_stat plat globInputPaths cwd vars
                             (fs_stat fs (path_resolve plat cwd input))
                             (path_resolve plat cwd input) input)
             patterns vars)) ->
  In q (results vars)
  \/ exists input st,
       In input patterns /\ q = path_resolve plat cwd input
       /\ fs_stat fs q = Some st /\ isFile st = true.
Proof.
  revert vars. induction patterns as [|p rest IH]; intros vars; simpl;
    [tauto|].
  intros H. destruct (IH _ H) as [H1|(input & st & Hin & Hq & Hs & Hf)].
  - apply forEach_stat_results_inv in H1.
    destruct H1 as [H1|(-> & st & Hs & Hf)]; [now left|].
    right. exists p, st. repeat split; auto.
  - right. exists input, st. repeat split; auto.
Qed.
End LiteralOrigin.

(** X4: where the elements of the list [findFiles] returns come from.  A
    string in the list is either the resolved path of an input pattern
    whose stat is a regular file, or the resolved path of an entry that the
    walk of one of the groups reached, that is not a directory, that a
    matcher of the group matches and for which the provider has a
    configuration.  The list can also hold [undefined]: only when
    unmatched patterns are not errors, and only when the search of a group
    was rejected with a foreign error that has a [basePath]. *)
Theorem every_result_is_a_file :
  forall (plat : Platform) (fs : FileSystem) (Config : Type)
         (patterns : list string) (globInputPaths : bool) (cwd : string)
         (configLoader : ConfigLoader Config)
         (errorOnUnmatchedPattern : bool) (L : Type) (l : L)
         (t : list Event) (result : list JsString) (p : JsString),
    let groups :=
      normalizedSearches_of
        (searches
           (classified plat globInputPaths cwd patterns
              (map (fs_stat fs) (map (path_resolve plat cwd) patterns)))) in
    outcome_of (findFiles plat fs patterns globInputPaths cwd configLoader
                          errorOnUnmatchedPattern l t) = Ok result ->
    In p result ->
    match p with
    | Some q =>
        (exists input st,
            In input patterns /\ q = path_resolve plat cwd input
            /\ fs_stat fs q = Some st /\ isFile st = true)
        \/ (exists search entry,
               In search groups
               /\ In entry
                     (group_entries plat fs (fst search)
                                    (search_patterns (snd search))
                                    configLoader)
               /\ q = path_resolve plat (fst search) (entry_path entry)
               /\ entry_isDirectory entry = false
               /\ matches_some plat (fst search)
                               (search_patterns (snd search))
                               (entry_path entry) = true
               /\ has_config configLoader q = true)
    | None =>
        errorOnUnmatchedPattern = false
        /\ exists settled t1 e search,
             run_searches plat fs configLoader errorOnUnmatchedPattern
                          groups l
                          (t ++ map EvStat
                                    (map (path_resolve plat cwd) patterns))
             = (Ok settled, l, t1)
             /\ In (Rejected (SystemError e), search)
                   (combine settled groups)
             /\ sys_basePath e = true
    end.
Proof.
  intros * Hok Hin.
  destruct (findFiles_returns_cases _ _ _ _ _ _ _ _ _ Hok)
    as (settled & t1 & Hrun & Hall & Hnone & Hres).
  fold groups in Hrun, Hall, Hnone.
  rewrite Hres in Hin.
  apply (proj1 (@JsSet_from_In _ JsString_eqb JsString_eqb_eq _ _)) in Hin.
  apply in_app_iff in Hin. destruct Hin as [Hin|Hin].
  - apply in_map_iff in Hin. destruct Hin as (q & <- & Hq).
    left. rewrite classified_fold in Hq.
    apply fold_results_inv in Hq. destruct Hq as [[]|Hq]. exact Hq.
  - rewrite (settled_values Hall) in Hin.
    apply in_flat_map in Hin. destruct Hin as ([r search] & Hitem & Hp).
    cbn [fst snd] in Hp. destruct r as [value|reason].
    + apply in_map_iff in Hp. destruct Hp as (q & <- & Hq).
      right. unfold group_files in Hq. apply in_map_iff in Hq.
      destruct Hq as (entry & <- & He). apply filter_In in He.
      destruct He as [He Hinc]. apply spec_include_true in Hinc.
      exists search, entry.
      apply in_combine_r in Hitem. tauto.
    + destruct Hp as [<-|[]].
      destruct errorOnUnmatchedPattern eqn:Heo.
      { exfalso.
        now apply (@first_rejected_none_In _ reason search Hnone). }
      split; [reflexivity|].
      pose proof (first_unexpected_none_In _ _ _ Hnone Hitem) as Ht.
      destruct (@rejected_post plat fs Config configLoader false _ _ _ _
                  Hall Hitem) as [_ Hpost].
      simpl in Hpost. destruct Hpost as [[e ->]|(H & _)]; [|discriminate].
      exists settled, t1, e, search. repeat split; assumption.
Qed.

Lemma every_result_is_a_file_witness :
  (exists input st,
      In input ["a/x.js"; "c"] /\ "/r/c/d/w.js" = Sample.resolve "/r" input
      /\ Sample.stat "/r/c/d/w.js" = Some st /\ isFile st = true)
  \/ (exists search entry,
         In search
            (normalizedSearches_of
               (searches
                  (classified Sample.platform true "/r" ["a/x.js"; "c"]
                     (map Sample.stat ["/r/a/x.js"; "/r/c"]))))
         /\ In entry
               (group_entries Sample.platform Sample.file_system
                              (fst search)
                              (search_patterns (snd search))
                              Sample.config_loader)
         /\ "/r/c/d/w.js" = Sample.resolve (fst search) (entry_path entry)
         /\ entry_isDirectory entry = false
         /\ matches_some Sample.platform (fst search)
                         (search_patterns (snd search))
                         (entry_path entry) = true
         /\ has_config Sample.config_loader "/r/c/d/w.js" = true).
Proof.
  apply (@every_result_is_a_file
           Sample.platform Sample.file_system unit ["a/x.js"; "c"] true "/r"
           Sample.config_loader true unit tt []
           [Some "/r/a/x.js"; Some "/r/c/d/w.js"; Some "/r/c/d/.hidden.js"]
           (Some "/r/c/d/w.js")).
  - reflexivity.
  - right. now left.
Defined.

(** X24: what [findFiles] returns.  When it returns, every search has
    settled, and the value is the literal files followed by what each
    settled search gives, in the order of the groups, with every element
    kept at its first occurrence only; so it has no duplicates.  When no
    search was rejected, which is always so when unmatched patterns are
    errors, the value is the literal files followed by the files of the
    groups.  The last part says what keeping the first occurrence means
    for the set built from a list. *)
Theorem result_is_deduplicated_concatenation :
  forall (plat : Platform) (fs : FileSystem) (Config : Type)
         (patterns : list string) (globInputPaths : bool) (cwd : string)
         (configLoader : ConfigLoader Config)
         (errorOnUnmatchedPattern : bool) (L : Type) (l : L)
         (t : list Event) (result : list JsString),
    outcome_of (findFiles plat fs patterns globInputPaths cwd configLoader
                          errorOnUnmatchedPattern l t) = Ok result ->
    let vars :=
      classified plat globInputPaths cwd patterns
        (map (fs_stat fs) (map (path_resolve plat cwd) patterns)) in
    let all :=
      map Some
          (results vars
           ++ flat_map
                (fun search =>
                   group_files plat fs (fst search)
                               (search_patterns (snd search)) configLoader)
                (normalizedSearches_of (searches vars))) in
    NoDup result
    /\ (exists settled t1,
           run_searches plat fs configLoader errorOnUnmatchedPattern
                        (normalizedSearches_of (searches vars)) l
                        (t ++ map EvStat
                                  (map (path_resolve plat cwd) patterns))
           = (Ok settled, l, t1)
           /\ result
              = JsSet.from JsString_eqb
                  (map Some (results vars)
                   ++ flat_map settled_value settled)
           /\ (errorOnUnmatchedPattern = true ->
               first_rejected
                 (combine settled (normalizedSearches_of (searches vars)))
               = None)
           /\ (first_rejected
                 (combine settled (normalizedSearches_of (searches vars)))
               = None ->
               result = JsSet.from JsString_eqb all
               /\ forall p, In p result <-> In p all))
    /\ (forall x xs,
           JsSet.from JsString_eqb (x :: xs)
           = x :: JsSet.from JsString_eqb
                    (filter (fun y => negb (JsString_eqb y x)) xs)).
Proof.
  intros * Hok vars all.
  destruct (findFiles_returns_cases _ _ _ _ _ _ _ _ _ Hok)
    as (settled & t1 & Hrun & Hall & Hnone & Hres).
  fold vars in Hrun, Hall, Hnone, Hres.
  split; [|split].
  - rewrite Hres. apply (@JsSet_from_NoDup _ JsString_eqb JsString_eqb_eq).
  - exists settled, t1. split; [exact Hrun|]. split; [exact Hres|]. split.
    + intros Heo. now rewrite Heo in Hnone.
    + intros Hfirst.
      assert (Hall' : result = JsSet.from JsString_eqb all).
      { rewrite Hres, (first_rejected_none Hall Hfirst).
        unfold all. now rewrite map_app. }
      split; [exact Hall'|]. intros p. rewrite Hall'.
      apply (@JsSet_from_In _ JsString_eqb JsString_eqb_eq).
  - intros x xs. apply JsSet_from_cons.
Qed.

Lemma result_is_deduplicated_concatenation_witness :
  NoDup [Some "/r/a/x.js"; Some "/r/c/d/w.js"; Some "/r/c/d/.hidden.js"].
Proof.
  apply (@result_is_deduplicated_concatenation
           Sample.platform Sample.file_system unit
           ["a/x.js"; "a"; "**/*.js"] true "/r" Sample.config_loader true
           unit tt []).
  reflexivity.
Defined.

(** ** The second pass *)

(** X5: when the second pass [globMatch] returns, it returns true exactly
    when a search of the group for that single pattern would yield a file
    under a provider that ignores no directory and configures every file;
    that is, exactly when the walk, descending only into directories that
    the pattern prefix-matches, reaches a non-directory entry that the
    pattern matches. *)
Theorem second_pass_finds_matching_file :
  forall (plat : Platform) (fs : FileSystem) (basePath pattern : string)
         (L : Type) (l : L) (t : list Event) (found : bool),
    outcome_of (globMatch plat fs basePath pattern l t) = Ok found ->
    (found = true
     <-> group_files plat fs basePath [pattern] permissive_loader <> [])
    /\ (found = true
        <-> exists entry,
              In entry (group_entries plat fs basePath [pattern]
                                      permissive_loader)
              /\ entry_isDirectory entry = false
              /\ minimatch plat (patternToUse_of plat basePath pattern)
                           (entry_path entry) false = true).
Proof.
  intros * Hok. split.
  - destruct (globMatch_post plat fs basePath pattern l t) as [_ H].
    rewrite Hok in H. subst found.
    unfold group_files. apply existsb_filter_nonempty.
  - now apply (@globMatch_found_iff plat fs basePath pattern L l t).
Qed.

Lemma second_pass_finds_matching_file_witness :
  (true = true
   <-> group_files Sample.platform Sample.file_system "/r" ["/r/**/z.js"]
                   permissive_loader <> [])
  /\ (true = true
      <-> exists entry,
            In entry (group_entries Sample.platform Sample.file_system "/r"
                                    ["/r/**/z.js"] permissive_loader)
            /\ entry_isDirectory entry = false
            /\ Sample.glob_match
                 (patternToUse_of Sample.platform "/r" "/r/**/z.js")
                 (entry_path entry) false = true).
Proof.
  apply (@second_pass_finds_matching_file
           Sample.platform Sample.file_system "/r" "/r/**/z.js" unit tt []
           true).
  reflexivity.
Defined.

Lemma indexOf_not_In (xs : list string) (x : string) :
  ~ In x xs -> indexOf xs (Some x) = None.
Proof.
  induction xs as [|y rest IH]; simpl; [reflexivity|].
  intros Hnot. destruct (y =? x) eqn:E.
  - apply String.eqb_eq in E. subst. exfalso. apply Hnot. now left.
  - rewrite IH; [reflexivity|]. intros Hin. apply Hnot. now right.
Qed.

(** X6: [throwErrorForUnmatchedPatterns] always throws: it never returns
    and never stays pending.  What it throws is [AllFilesIgnoredError] or
    [NoFilesFoundError] with glob enabled, both for the raw pattern of the
    first unmatched pattern, or a foreign error (from the second pass, or
    the [TypeError] for an empty array of unmatched patterns); and it
    leaves the variables of its caller alone.  The raw pattern is
    [undefined] when the first unmatched pattern is not a pattern of the
    group.  Unmatched patterns that cannot be indexed ([undefined],
    [null]) make it throw a [TypeError] before it does anything else. *)
Theorem throwErrorForUnmatchedPatterns_always_throws :
  forall (plat : Platform) (fs : FileSystem) (basePath : string)
         (patterns rawPatterns : list string) (unmatched : list JsString)
         (L : Type) (l : L) (t : list Event),
    let r := throwErrorForUnmatchedPatterns plat fs basePath patterns
               rawPatterns (Some unmatched) l t in
    let rawPattern :=
      at_index rawPatterns (indexOf patterns (hd None unmatched)) in
    local_of r = l
    /\ (exists error,
           outcome_of r = Throw error
           /\ (error = AllFilesIgnoredError rawPattern
               \/ error = NoFilesFoundError rawPattern true
               \/ exists e, error = SystemError e))
    /\ (forall pattern,
           hd None unmatched = Some pattern ->
           ~ In pattern patterns ->
           rawPattern = None)
    /\ throwErrorForUnmatchedPatterns plat fs basePath patterns rawPatterns
                                      None l t
       = (Throw (SystemError (plain "TypeError")), l, t).
Proof.
  intros. subst r rawPattern.
  split; [|split; [|split; [|reflexivity]]].
  - rewrite throwErrorForUnmatchedPatterns_eq.
    destruct (hd None unmatched) as [pattern|]; [|reflexivity]. cbv zeta.
    destruct (globMatch_post plat fs basePath pattern l t) as [Hl H].
    destruct (globMatch plat fs basePath pattern l t)
      as [[[[|]|e|] l'] t']; unfold local_of, outcome_of in *;
      cbn [fst snd] in *; subst l'; reflexivity.
  - rewrite throwErrorForUnmatchedPatterns_eq.
    destruct (hd None unmatched) as [pattern|]; cbv zeta.
    + destruct (globMatch_post plat fs basePath pattern l t) as [Hl H].
      destruct (globMatch plat fs basePath pattern l t)
        as [[[[|]|e|] l'] t']; unfold local_of, outcome_of in *;
        cbn [fst snd] in *; subst l'.
      * eexists. split; [reflexivity|]. now left.
      * eexists. split; [reflexivity|]. right. now left.
      * eexists. split; [reflexivity|].
        right. right. destruct e; try discriminate. now eexists.
      * contradiction.
    + unfold outcome_of. simpl.
      eexists. split; [reflexivity|]. right. right. now eexists.
  - intros pattern -> Hnot. now rewrite (indexOf_not_In _ _ Hnot).
Qed.

Lemma throwErrorForUnmatchedPatterns_always_throws_witness :
  outcome_of
    (throwErrorForUnmatchedPatterns Sample.platform Sample.file_system "/r"
                                    ["/r/*.py"] ["*.py"]
                                    (Some [Some "/r/*.md"]) tt [])
  = Throw (NoFilesFoundError None true)
  /\ at_index ["*.py"] (indexOf ["/r/*.py"] (Some "/r/*.md")) = None.
Proof.
  split; [reflexivity|].
  destruct (@throwErrorForUnmatchedPatterns_always_throws
              Sample.platform Sample.file_system "/r" ["/r/*.py"] ["*.py"]
              [Some "/r/*.md"] unit tt [])
    as (_ & _ & H & _).
  apply (H "/r/*.md"); [reflexivity|].
  cbn. intuition discriminate.
Defined.

(** ** The search groups *)

Lemma JsMap_set_keys {V} (k : string) (v : V) (m : JsMap.t V) :
  JsMap.keys (JsMap.set k v m)
  = if JsMap.has k m then JsMap.keys m else JsMap.keys m ++ [k].
Proof.
  unfold JsMap.has, JsMap.keys.
  induction m as [|[k0 v0] m IH]; simpl; [reflexivity|].
  destruct (k0 =? k) eqn:E; simpl.
  - apply String.eqb_eq in E. now subst.
  - rewrite IH. now destruct (JsMap.get k m).
Qed.

Lemma JsMap_has_keys {V} (k : string) (m : JsMap.t V) :
  JsMap.has k m = true <-> In k (JsMap.keys m).
Proof.
  unfold JsMap.has, JsMap.keys.
  induction m as [|[k0 v0] m IH]; simpl; [split; [discriminate|tauto]|].
  destruct (k0 =? k) eqn:E.
  - apply String.eqb_eq in E. split; auto.
  - apply String.eqb_neq in E. rewrite IH. split; [auto|].
    intros [H|H]; [congruence|exact H].
Qed.

Lemma JsMap_set_keys_NoDup {V} (k : string) (v : V) (m : JsMap.t V) :
  NoDup (JsMap.keys m) -> NoDup (JsMap.keys (JsMap.set k v m)).
Proof.
  intros H. rewrite JsMap_set_keys.
  destruct (JsMap.has k m) eqn:E; [exact H|].
  apply NoDup_app; [exact H|constructor; [intros []|constructor]|].
  intros x Hx [<-|[]]. apply JsMap_has_keys in Hx. congruence.
Qed.

Lemma JsMap_set_keys_head {V} (k c : string) (v : V) (m : JsMap.t V) :
  hd_error (JsMap.keys m) = Some c ->
  hd_error (JsMap.keys (JsMap.set k v m)) = Some c.
Proof.
  intros H. rewrite JsMap_set_keys.
  destruct (JsMap.has k m); [exact H|].
  destruct (JsMap.keys m); [discriminate|exact H].
Qed.

Lemma push_search_well_keyed cwd key globbyPattern rawPattern searches :
  well_keyed cwd searches ->
  well_keyed cwd (push_search key globbyPattern rawPattern searches).
Proof.
  intros Hs. unfold push_search.
  set (searches1 := if JsMap.has key searches then searches
                    else JsMap.set key empty_search searches).
  assert (H1 : well_keyed cwd searches1).
  { unfold searches1. destruct (JsMap.has key searches); [exact Hs|].
    destruct Hs. split;
      [now apply JsMap_set_keys_NoDup|now apply JsMap_set_keys_head]. }
  destruct (JsMap.get key searches1); [|exact H1].
  destruct H1. split;
    [now apply JsMap_set_keys_NoDup|now apply JsMap_set_keys_head].
Qed.

Lemma classified_well_keyed (plat : Platform) globInputPaths cwd patterns
  stats :
  well_keyed cwd
    (searches (classified plat globInputPaths cwd patterns stats)).
Proof.
  unfold classified.
  assert (H0 : well_keyed cwd (searches (initial_vars cwd))).
  { split; simpl; [repeat constructor; intros []|reflexivity]. }
  revert H0. generalize (initial_vars cwd).
  generalize (combine stats (combine (map (path_resolve plat cwd) patterns)
                                     patterns)).
  induction l as [|item rest IH]; intros vars Hv; simpl; [exact Hv|].
  apply IH. unfold forEach_stat.
  destruct (fst item) as [st|].
  - destruct (isFile st), (Stats_isDirectory st); simpl;
      try apply push_search_well_keyed; exact Hv.
  - destruct (globInputPaths && _); simpl;
      try apply push_search_well_keyed; exact Hv.
Qed.

(** X7: whatever the patterns and their stats are, the search groups that
    the loop of [findFiles] builds are well formed: in every group the
    array of patterns and the array of raw patterns have the same length,
    no two groups have the same base path, and the group of [cwd] comes
    first. *)
Theorem search_groups_are_well_formed :
  forall (plat : Platform) (globInputPaths : bool) (cwd : string)
         (patterns : list string) (stats : list (option Stats)),
    let groups :=
      searches (classified plat globInputPaths cwd patterns stats) in
    (forall key search,
        In (key, search) groups ->
        length (search_patterns search) = length (search_rawPatterns search))
    /\ NoDup (JsMap.keys groups)
    /\ hd_error (JsMap.keys groups) = Some cwd.
Proof.
  intros. split.
  - apply classified_same_lengths.
  - apply classified_well_keyed.
Qed.

Lemma search_groups_are_well_formed_witness :
  length ["/r/a/**"; "/r/a/*.js"] = length ["a"; "a/*.js"].
Proof.
  destruct (search_groups_are_well_formed
              Sample.platform true "/r" ["a"; "a/*.js"; "b/*.js"]
              (map Sample.stat ["/r/a"; "/r/a/*.js"; "/r/b/*.js"]))
    as [H _].
  apply (H "/r/a" {| search_patterns := ["/r/a/**"; "/r/a/*.js"];
                     search_rawPatterns := ["a"; "a/*.js"] |}).
  vm_compute. right. now left.
Defined.

Lemma group_unmatched_NoDup (plat : Platform) (fs : FileSystem) Config
  basePath patterns (configLoader : ConfigLoader Config) :
  NoDup (group_unmatched plat fs basePath patterns configLoader).
Proof.
  unfold group_unmatched, spec_unmatched, initial_unmatched.
  apply NoDup_filter.
  apply (@JsSet_from_NoDup _ String.eqb String.eqb_eq).
Qed.

Lemma map_get_NoDup (m : JsMap.t string) (f : string -> string)
  (ks : list string) :
  NoDup ks ->
  (forall k, In k ks -> exists p, JsMap.get k m = Some p /\ f p = k) ->
  NoDup (map (fun k => JsMap.get k m) ks).
Proof.
  induction 1 as [|k rest Hnotin Hnd IH]; intros Hkeys; simpl;
    constructor.
  - intros Hin. apply in_map_iff in Hin. destruct Hin as (k' & Hg' & Hk').
    destruct (Hkeys k (or_introl eq_refl)) as (p & Hg & Hr).
    destruct (Hkeys k' (or_intror Hk')) as (p' & Hgp' & Hr').
    rewrite Hg, Hgp' in Hg'. injection Hg' as ->.
    apply Hnotin. congruence.
  - apply IH. intros k' Hk'. apply Hkeys. now right.
Qed.

(** X8: the error that [globSearch] throws for unmatched patterns is well
    formed.  It is only thrown when unmatched patterns are errors; it
    carries the base path, the patterns and the raw patterns of the group;
    and its unmatched patterns are a non-empty list, without [undefined]
    and without repetition, of patterns of the group. *)
Theorem unmatched_error_is_well_formed :
  forall (plat : Platform) (fs : FileSystem) (Config : Type)
         (basePath : string) (patterns rawPatterns : list string)
         (configLoader : ConfigLoader Config)
         (errorOnUnmatchedPattern : bool) (L : Type) (l : L)
         (t : list Event) (errorBasePath : string)
         (unmatched : list JsString) (errorPatterns errorRaw : list string),
    outcome_of (globSearch plat fs basePath patterns rawPatterns
                           configLoader errorOnUnmatchedPattern l t)
    = Throw (UnmatchedSearchPatternsError errorBasePath unmatched
                                          errorPatterns errorRaw) ->
    errorOnUnmatchedPattern = true
    /\ errorBasePath = basePath
    /\ errorPatterns = patterns
    /\ errorRaw = rawPatterns
    /\ unmatched <> []
    /\ NoDup unmatched
    /\ (forall x, In x unmatched -> exists p, x = Some p /\ In p patterns).
Proof.
  intros * Hthrow.
  destruct (@globSearch_post plat fs Config basePath patterns rawPatterns
              configLoader errorOnUnmatchedPattern L l t)
    as (_ & Hempty & Hpost).
  destruct (list_eq_dec string_dec patterns []) as [He|Hne].
  { rewrite (Hempty He) in Hthrow. discriminate. }
  specialize (Hpost Hne). rewrite Hthrow in Hpost. simpl in Hpost.
  destruct Hpost as [[e He]|(Heo & Hrem & Herr)]; [discriminate|].
  injection Herr as -> -> -> ->.
  repeat apply conj; try reflexivity; try assumption.
  - intros E. apply map_eq_nil in E. contradiction.
  - apply map_get_NoDup with (f := patternToUse_of plat basePath).
    + apply group_unmatched_NoDup.
    + intros k Hk.
      destruct (group_unmatched_key _ _ _ _ _ _ Hk) as (p & Hg & _ & Hr).
      now exists p.
  - intros x Hx. apply in_map_iff in Hx. destruct Hx as (k & <- & Hk).
    destruct (group_unmatched_key _ _ _ _ _ _ Hk) as (p & Hg & Hp & _).
    now exists p.
Qed.

Lemma unmatched_error_is_well_formed_witness :
  [Some "/r/**/*.py"] <> []
  /\ NoDup [Some "/r/**/*.py"].
Proof.
  destruct (@unmatched_error_is_well_formed
              Sample.platform Sample.file_system unit "/r"
              ["/r/**/*.js"; "/r/**/*.py"] ["**/*.js"; "**/*.py"]
              Sample.config_loader true unit tt [] "/r"
              [Some "/r/**/*.py"]
              ["/r/**/*.js"; "/r/**/*.py"] ["**/*.js"; "**/*.py"]
              eq_refl)
    as (_ & _ & _ & _ & H1 & H2 & _).
  now split.
Defined.

(** ** Strict and lenient runs *)

Section StrictLenient.
Variable plat : Platform.
Variable fs : FileSystem.
Variable Config : Type.
Variable configLoader : ConfigLoader Config.

Lemma globSearch_body_eq basePath patterns rawPatterns
  errorOnUnmatchedPattern vars t :
  globSearch_body plat fs basePath patterns rawPatterns configLoader
                  errorOnUnmatchedPattern vars t
  = match
      (isDir <- call (EvIsDirectory basePath) (hfs_isDirectory fs basePath) ;;
       if isDir
       then walk_dir (directoryFilter plat basePath patterns configLoader)
                     (entryFilter plat basePath patterns configLoader)
                     (push_filePath plat basePath)
                     basePath "" 1 (hfs_list fs basePath)
       else ret tt)%m vars t
    with
    | (Ok _, vars1, t1) =>
        if errorOnUnmatchedPattern
           && (0 <? JsSet.size (unmatchedPatterns vars1))%nat
        then (Throw (UnmatchedSearchPatternsError
                       basePath
                       (map (fun pattern =>
                               JsMap.get pattern
                                 (relativeToPatterns plat basePath patterns))
                            (unmatchedPatterns vars1))
                       patterns rawPatterns), vars1, t1)
        else (Ok (filePaths vars1), vars1, t1)
    | (Throw e, vars1, t1) => (Throw e, vars1, t1)
    | (Suspend, vars1, t1) => (Suspend, vars1, t1)
    end.
Proof.
  unfold globSearch_body. rewrite <- bind_assoc. unfold bind at 1.
  destruct (bind _ _ vars t) as [[[a|e|] vars1] t1]; try reflexivity.
  unfold bind, get. now destruct (errorOnUnmatchedPattern && _).
Qed.

Lemma globSearch_strict_ok L basePath patterns rawPatterns (l l' : L) t t' v :
  globSearch plat fs basePath patterns rawPatterns configLoader true l t
  = (Ok v, l', t') ->
  globSearch plat fs basePath patterns rawPatterns configLoader false l t
  = (Ok v, l', t').
Proof.
  unfold globSearch. destruct (length patterns =? 0)%nat; [trivial|].
  unfold scoped. rewrite !globSearch_body_eq.
  destruct (bind _ _ _ t) as [[[a|e|] vars1] t1]; try discriminate.
  cbn [andb].
  destruct (0 <? JsSet.size (unmatchedPatterns vars1))%nat;
    [discriminate|trivial].
Qed.

Lemma allSettled_cons L (m : M L (list string)) ms (l : L) t :
  allSettled (m :: ms) l t
  = match m l t with
    | (Suspend, l1, t1) => (Suspend, l1, t1)
    | (o, l1, t1) =>
        match allSettled ms l1 t1 with
        | (Ok rs, l2, t2) =>
            (Ok (match o with
                 | Ok v => Fulfilled v
                 | Throw e => Rejected e
                 | Suspend => Fulfilled []
                 end :: rs), l2, t2)
        | (Throw e, l2, t2) => (Throw e, l2, t2)
        | (Suspend, l2, t2) => (Suspend, l2, t2)
        end
    end.
Proof.
  simpl. unfold bind at 1, settle.
  destruct (m l t) as [[[v|e|] l1] t1]; try reflexivity;
    unfold bind, ret;
    now destruct (allSettled ms l1 t1) as [[[rs|e'|] l2] t2].
Qed.

Lemma run_searches_strict_ok L searches (l l' : L) t t' settled :
  run_searches plat fs configLoader true searches l t = (Ok settled, l', t') ->
  Forall (fun r => exists v, r = Fulfilled v) settled ->
  run_searches plat fs configLoader false searches l t
  = (Ok settled, l', t').
Proof.
  unfold run_searches. revert l t settled.
  induction searches as [|s rest IH]; intros l t settled; [trivial|].
  cbn [map]. rewrite !allSettled_cons.
  destruct (globSearch plat fs (fst s) _ _ configLoader true l t)
    as [[[v|e|] l1] t1] eqn:Hs.
  - rewrite (globSearch_strict_ok _ _ _ _ _ Hs).
    destruct (allSettled (map _ rest) l1 t1) as [[[rs|e|] l2] t2] eqn:Hr;
      try discriminate.
    intros [= <- <- <-] Hall. inversion Hall; subst.
    now rewrite (IH _ _ _ Hr).
  - destruct (allSettled (map _ rest) l1 t1) as [[[rs|e'|] l2] t2];
      try discriminate.
    intros [= <- <- <-] Hall. inversion Hall; subst.
    destruct H1 as [v Hv]. discriminate.
  - discriminate.
Qed.

Lemma no_rejection_all_fulfilled searches settled :
  Forall2 (settled_post plat fs configLoader true) searches settled ->
  first_rejected (combine settled searches) = None ->
  Forall (fun r => exists v, r = Fulfilled v) settled.
Proof.
  induction 1 as [|s r searches settled Hp Hall IH]; simpl; [constructor|].
  destruct r as [v|reason]; [|discriminate].
  intros H. constructor; [now exists v|now apply IH].
Qed.
End StrictLenient.

(** X9: [errorOnUnmatchedPattern] only adds errors.  Whenever the strict
    run of [findFiles] returns, the lenient run on the same input returns
    the same list, after the same external calls. *)
Theorem strict_result_is_lenient_result :
  forall (plat : Platform) (fs : FileSystem) (Config : Type)
         (patterns : list string) (globInputPaths : bool) (cwd : string)
         (configLoader : ConfigLoader Config) (L : Type) (l l' : L)
         (t t' : list Event) (result : list JsString),
    findFiles plat fs patterns globInputPaths cwd configLoader true l t
    = (Ok result, l', t') ->
    findFiles plat fs patterns globInputPaths cwd configLoader false l t
    = (Ok result, l', t').
Proof.
  intros * Hstrict.
  rewrite findFiles_eq in Hstrict |- *. cbv zeta in Hstrict |- *.
  cbn [andb].
  destruct (true && _); [discriminate|].
  set (vars := classified plat globInputPaths cwd patterns
                 (map (fs_stat fs) (map (path_resolve plat cwd) patterns)))
    in *.
  set (t0 := t ++ map EvStat (map (path_resolve plat cwd) patterns)) in *.
  destruct (@globMultiSearch_cases plat fs Config configLoader true L
              (searches vars) l t0)
    as (settled & t1 & Hrun & Hall & Hms).
  rewrite Hms in Hstrict.
  destruct (first_rejected _) as [[reason search]|] eqn:Hfirst.
  { exfalso.
    destruct (negb (error_basePath_truthy reason)); [discriminate|].
    destruct (error_unmatchedPatterns reason) as [unmatchedPatterns|];
      [|discriminate].
    destruct (hd None unmatchedPatterns); [|discriminate].
    cbv zeta in Hstrict.
    now destruct (globMatch _ _ _ _ _ _) as [[[[|]|e|] l2] t2]. }
  pose proof (no_rejection_all_fulfilled Hall Hfirst) as Hful.
  pose proof (@run_searches_strict_ok plat fs Config configLoader L _ _ _ _ _
                _ Hrun Hful) as Hlenient.
  destruct (@globMultiSearch_cases plat fs Config configLoader false L
              (searches vars) l t0)
    as (settled' & t1' & Hrun' & _ & Hms').
  rewrite Hlenient in Hrun'. injection Hrun' as <- <-.
  rewrite Hms', (@first_unexpected_none _ Hfirst). exact Hstrict.
Qed.

Lemma strict_result_is_lenient_result_witness :
  outcome_of (findFiles Sample.platform Sample.file_system
                        ["a/x.js"; "c"] true "/r" Sample.config_loader
                        false tt [])
  = Ok [Some "/r/a/x.js"; Some "/r/c/d/w.js"; Some "/r/c/d/.hidden.js"].
Proof.
  erewrite (@strict_result_is_lenient_result
              Sample.platform Sample.file_system unit ["a/x.js"; "c"] true
              "/r" Sample.config_loader unit tt).
  - reflexivity.
  - vm_compute. reflexivity.
Defined.

(** ** Counting messages *)

Lemma add_stats_assoc a b c :
  add_stats (add_stats a b) c = add_stats a (add_stats b c).
Proof. unfold add_stats. simpl. f_equal; lia. Qed.

Lemma add_stats_comm a b : add_stats a b = add_stats b a.
Proof. unfold add_stats. f_equal; lia. Qed.

Lemma add_stats_zero a : add_stats a zero_stats = a.
Proof. destruct a. unfold add_stats. simpl. f_equal; lia. Qed.

Lemma count_message_add stat m :
  count_message stat m = add_stats stat (count_message zero_stats m).
Proof.
  unfold count_message, add_stats.
  destruct (fatal_truthy m || _); simpl;
    destruct (fatal_truthy m), (isSome (msg_fix m)); f_equal; lia.
Qed.

Lemma fold_count_add messages stat :
  fold_left count_message messages stat
  = add_stats stat (calculateStatsPerFile messages).
Proof.
  unfold calculateStatsPerFile. revert stat.
  induction messages as [|m rest IH]; intros stat; simpl.
  - now rewrite add_stats_zero.
  - rewrite IH, (IH (count_message zero_stats m)), <- add_stats_assoc.
    now rewrite <- count_message_add.
Qed.

Lemma calculateStatsPerFile_app a b :
  calculateStatsPerFile (a ++ b)
  = add_stats (calculateStatsPerFile a) (calculateStatsPerFile b).
Proof.
  unfold calculateStatsPerFile at 1. rewrite fold_left_app.
  fold (calculateStatsPerFile a). apply fold_count_add.
Qed.

Lemma calculateStatsPerFile_cons m rest :
  calculateStatsPerFile (m :: rest)
  = add_stats (count_message zero_stats m) (calculateStatsPerFile rest).
Proof. apply (calculateStatsPerFile_app [m] rest). Qed.

(** X10: the counters of [calculateStatsPerFile] are counts of messages:
    errors are the messages that are fatal or for which [isErrorMessage]
    holds (severity 2), warnings are all the others, fatal errors
    are the fatal messages, and fixable errors and warnings are the errors
    and warnings that have a fix. *)
Theorem calculateStatsPerFile_counts :
  forall messages : list LintMessage,
    let stat := calculateStatsPerFile messages in
    errorCount stat = length (filter is_error messages)
    /\ warningCount stat
       = length (filter (fun m => negb (is_error m)) messages)
    /\ fatalErrorCount stat = length (filter fatal_truthy messages)
    /\ fixableErrorCount stat
       = length (filter (fun m => is_error m && isSome (msg_fix m)) messages)
    /\ fixableWarningCount stat
       = length (filter (fun m => negb (is_error m) && isSome (msg_fix m))
                        messages).
Proof.
  induction messages as [|m rest IH]; [now repeat split|].
  cbv zeta in *. rewrite calculateStatsPerFile_cons.
  destruct IH as (He & Hw & Hf & Hfe & Hfw).
  unfold add_stats, count_message, is_error, isErrorMessage in *.
  cbn [filter].
  destruct (fatal_truthy m) eqn:Ef, (severity m =? 2)%nat eqn:Es,
    (isSome (msg_fix m)) eqn:Ex; cbn;
    rewrite ?He, ?Hw, ?Hf, ?Hfe, ?Hfw; repeat split; reflexivity.
Qed.

(** X11: the counters are consistent: every message is an error or a
    warning and not both, a fatal message is an error, and only errors are
    fixable errors and only warnings fixable warnings; for no message all
    counters are zero. *)
Theorem calculateStatsPerFile_consistent :
  forall messages : list LintMessage,
    let stat := calculateStatsPerFile messages in
    errorCount stat + warningCount stat = length messages
    /\ fatalErrorCount stat <= errorCount stat
    /\ fixableErrorCount stat <= errorCount stat
    /\ fixableWarningCount stat <= warningCount stat
    /\ calculateStatsPerFile [] = zero_stats.
Proof.
  induction messages as [|m rest IH]; [now repeat split|].
  cbv zeta in *. rewrite calculateStatsPerFile_cons.
  destruct IH as (Hs & Hf & Hfe & Hfw & _).
  unfold add_stats, count_message.
  destruct (fatal_truthy m), (severity m =? 2)%nat, (isSome (msg_fix m));
    cbn; repeat split; lia.
Qed.

(** X12: the counters of a concatenation are the sums of the counters of
    the parts, so that they do not depend on the order of the messages. *)
Theorem calculateStatsPerFile_additive :
  forall a b : list LintMessage,
    calculateStatsPerFile (a ++ b)
    = add_stats (calculateStatsPerFile a) (calculateStatsPerFile b)
    /\ (Permutation a b ->
        calculateStatsPerFile a = calculateStatsPerFile b).
Proof.
  intros a b. split; [apply calculateStatsPerFile_app|].
  induction 1 as [|m a b _ IH|m1 m2 a|a b c _ IH1 _ IH2].
  - reflexivity.
  - now rewrite !calculateStatsPerFile_cons, IH.
  - rewrite !calculateStatsPerFile_cons, <- !add_stats_assoc.
    f_equal. apply add_stats_comm.
  - congruence.
Qed.

Lemma calculateStatsPerFile_additive_witness :
  let warning := {| ruleId := Some "semi"; fatal := None; severity := 1;
                    message := "Missing semicolon.";
                    msg_fix := Some {| fix_range := (3, 3);
                                       fix_text := ";" |};
                    nodeType := None |} in
  let parse := {| ruleId := None; fatal := Some true; severity := 2;
                  message := "Parsing error"; msg_fix := None;
                  nodeType := None |} in
  calculateStatsPerFile [warning; parse]
  = calculateStatsPerFile [parse; warning].
Proof.
  intros warning parse.
  apply (calculateStatsPerFile_additive [warning; parse] [parse; warning]).
  apply perm_swap.
Defined.

(** ** Results for ignored files *)

(** X13: the result that [createIgnoreResult] builds is consistent with
    the other helpers, for every file, base directory and status: its
    counters are those [calculateStatsPerFile] computes from its messages,
    and its single message is a warning, not an error message, so that it
    disappears when only errors are kept. *)
Theorem createIgnoreResult_is_one_warning :
  forall (plat : Platform) (node : NodeLib)
         (filePath baseDir configStatus : string),
    let r := createIgnoreResult plat node filePath baseDir configStatus in
    result_stats r = calculateStatsPerFile (result_messages r)
    /\ length (result_messages r) = 1
    /\ filter isErrorMessage (result_messages r) = []
    /\ result_suppressedMessages r = []
    /\ result_filePath r = filePath.
Proof. intros. now repeat split. Qed.

(** X14: which message an ignored file gets.  The statuses "external" and
    "unconfigured" have their own messages, whatever the paths are.  For
    every other status the message is the one about [node_modules] exactly
    when the base directory is not the empty string and one of the
    directories of the file path relative to it is [node_modules]; it is
    the one about ignore patterns otherwise. *)
Theorem createIgnoreResult_message :
  forall (plat : Platform) (node : NodeLib)
         (filePath baseDir configStatus : string),
    let text :=
      map message
          (result_messages
             (createIgnoreResult plat node filePath baseDir configStatus)) in
    (configStatus = "external" -> text = [message_external])
    /\ (configStatus = "unconfigured" -> text = [message_unconfigured])
    /\ (configStatus <> "external" -> configStatus <> "unconfigured" ->
        (text = [message_node_modules]
         <-> baseDir <> ""
             /\ In "node_modules"
                   (split (path_sep plat)
                          (path_dirname node
                             (path_relative plat baseDir filePath))))
        /\ (text <> [message_node_modules]
            -> text = [message_ignore_pattern])).
Proof.
  intros. subst text. unfold createIgnoreResult. cbn [result_messages map message].
  repeat apply conj.
  - intros ->. reflexivity.
  - intros ->. reflexivity.
  - intros He Hu. apply String.eqb_neq in He, Hu. rewrite He, Hu.
    unfold isInNodeModules, includes.
    destruct (baseDir =? "") eqn:Eb; cbn [negb andb].
    + apply String.eqb_eq in Eb. split; [|reflexivity].
      split; [discriminate|]. intros [H _]. contradiction.
    + apply String.eqb_neq in Eb.
      destruct (existsb _ _) eqn:Ex.
      * split; [|intros H; now contradiction H].
        split; [|reflexivity]. intros _. split; [exact Eb|].
        apply existsb_exists in Ex. destruct Ex as (x & Hx & E).
        apply String.eqb_eq in E. now subst.
      * split; [|reflexivity]. split; [discriminate|].
        intros [_ Hin]. exfalso.
        assert (existsb (String.eqb "node_modules")
                        (split (path_sep plat)
                               (path_dirname node
                                  (path_relative plat baseDir filePath)))
                = true).
        { apply existsb_exists. exists "node_modules".
          split; [exact Hin|apply String.eqb_refl]. }
        congruence.
Qed.

Lemma createIgnoreResult_message_witness :
  map message
      (result_messages
         (createIgnoreResult Sample.platform SampleNode.node
            "/r/node_modules/pkg/index.js" "/r" "ignored"))
  = [message_node_modules].
Proof.
  destruct (createIgnoreResult_message
              Sample.platform SampleNode.node
              "/r/node_modules/pkg/index.js" "/r" "ignored")
    as (_ & _ & H).
  destruct H as [[_ H] _]; try discriminate.
  apply H. split; [discriminate|]. vm_compute. now left.
Defined.

(* ------------------------------------------------------------------------- *)
(** ** The cache file *)
(* ------------------------------------------------------------------------- *)

(** X15: the cache file.  Whether the resolved path exists matters only
    through its being a directory: the result is the file
    [prefix + hash(cwd)] inside the resolved path when that path is a
    directory or the normalized name ends in [path.sep], and the resolved
    path itself otherwise, so a missing path and an existing file are
    treated alike; and leaving the prefix out is giving [".cache_"]. *)
Theorem getCacheFile_directory_form :
  forall (plat : Platform) (node : NodeLib) (cacheFile cwd : string)
         (prefix : option string),
    let normalized := path_normalize node cacheFile in
    let resolved := path_resolve plat cwd normalized in
    let is_directory :=
      match fs_lstatSync node resolved with
      | Some fileStats => Stats_isDirectory fileStats
      | None => false
      end in
    let name :=
      match prefix with Some p => p | None => ".cache_" end in
    getCacheFile plat node cacheFile cwd prefix
    = (if is_directory || ends_with_sep plat normalized
       then path_join node resolved (name ++ hash node cwd)
       else resolved)
    /\ getCacheFile plat node cacheFile cwd None
       = getCacheFile plat node cacheFile cwd (Some ".cache_").
Proof.
  intros. split; [|reflexivity].
  unfold getCacheFile. fold normalized. fold resolved. subst is_directory.
  destruct (fs_lstatSync node resolved) as [fileStats|]; reflexivity.
Qed.

(* ------------------------------------------------------------------------- *)
(** ** Non-empty strings *)
(* ------------------------------------------------------------------------- *)

Lemma drop_prefix_Some :
  forall prefix s rest,
    drop_prefix prefix s = Some rest <-> s = prefix ++ rest.
Proof.
  induction prefix as [|a prefix IH]; intros s rest; simpl.
  - split; congruence.
  - destruct s as [|b s]; [split; discriminate|].
    destruct (Ascii.eqb_spec a b) as [->|Hne].
    + rewrite IH. split; [now intros ->|now intros [= ->]].
    + split; [discriminate|]. intros [= -> _]. exfalso. now apply Hne.
Qed.

Lemma starts_with_both :
  forall w w' r r',
    w ++ r = w' ++ r' -> starts_with w w' = true \/ starts_with w' w = true.
Proof.
  unfold starts_with.
  induction w as [|a w IH]; intros w' r r' H; [now left|].
  destruct w' as [|b w']; [now right|].
  simpl in *. injection H as -> H.
  rewrite Ascii.eqb_refl. now apply (IH w' r r').
Qed.

Lemma starts_with_antisym :
  forall w w',
    starts_with w w' = true -> starts_with w' w = true -> w = w'.
Proof.
  unfold starts_with. intros w w' H H'.
  apply isSome_true in H, H'. destruct H as [r H], H' as [r' H'].
  apply drop_prefix_Some in H, H'.
  rewrite H' in H at 1. rewrite <- app_assoc in H.
  rewrite <- (app_nil_r w') in H at 1. apply app_inv_head in H.
  symmetry in H. apply app_eq_nil in H. destruct H as [-> _].
  now rewrite app_nil_r in H'.
Qed.

Lemma drop_first_Some (table : list (list ascii)) s rest :
  drop_first table s = Some rest ->
  exists w, In w table /\ s = w ++ rest.
Proof.
  induction table as [|w tb IH]; simpl; [discriminate|].
  destruct (drop_prefix w s) as [s'|] eqn:E.
  - intros [= ->]. apply drop_prefix_Some in E. exists w. now split; [left|].
  - intros H. destruct (IH H) as (w' & Hin & Hs). exists w'.
    now split; [right|].
Qed.

Lemma drop_first_None (table : list (list ascii)) s w rest :
  drop_first table s = None -> In w table -> s <> w ++ rest.
Proof.
  induction table as [|w' tb IH]; simpl; [contradiction|].
  destruct (drop_prefix w' s) as [s'|] eqn:E; [discriminate|].
  intros H [->|Hin] Hs; [|now apply (IH H Hin Hs)].
  apply drop_prefix_Some in Hs. congruence.
Qed.

Section Stripping.
Variable table : list (list ascii).
Hypothesis table_prefix_free : prefix_free table = true.
Hypothesis table_nonempty : Forall (fun w => w <> []) table.

(** The lists that are made of elements of the table. *)
Local Abbreviation made_of_table :=
  (fun s : list ascii =>
     exists ws, Forall (fun w => In w table) ws /\ s = concat ws).

Lemma table_unique w w' r r' :
  In w table -> In w' table -> w ++ r = w' ++ r' -> w = w' /\ r = r'.
Proof.
  intros Hw Hw' H.
  assert (E : w = w').
  { unfold prefix_free in table_prefix_free.
    rewrite forallb_forall in table_prefix_free.
    pose proof (table_prefix_free w Hw) as H1.
    pose proof (table_prefix_free w' Hw') as H2.
    rewrite forallb_forall in H1, H2.
    specialize (H1 w' Hw'). specialize (H2 w Hw).
    destruct (starts_with_both _ _ _ _ H) as [S|S]; rewrite S in *;
      cbn [negb orb] in *; now apply starts_with_antisym. }
  subst w'. split; [reflexivity|]. now apply app_inv_head in H.
Qed.

Lemma drop_first_app w rest :
  In w table -> drop_first table (w ++ rest) = Some rest.
Proof.
  intros Hin. destruct (drop_first table (w ++ rest)) as [r|] eqn:E.
  - destruct (@drop_first_Some table (w ++ rest) r E) as (w' & Hin' & Hs).
    now destruct (@table_unique w w' rest r Hin Hin' Hs) as [_ ->].
  - exfalso. now apply (@drop_first_None table _ w rest E Hin).
Qed.

Lemma drop_all_split fuel s :
  exists ws,
    Forall (fun w => In w table) ws
    /\ s = concat ws ++ drop_all table fuel s.
Proof.
  revert s. induction fuel as [|fuel IH]; intros s; simpl.
  - now exists [].
  - destruct (drop_first table s) as [s'|] eqn:E; [|now exists []].
    destruct (@drop_first_Some table s s' E) as (w & Hin & ->).
    destruct (IH s') as (ws & Hws & Hs').
    exists (w :: ws). split; [now constructor|].
    simpl. rewrite <- app_assoc. now rewrite <- Hs'.
Qed.

Lemma drop_all_nil fuel : drop_all table fuel [] = [].
Proof.
  induction fuel as [|fuel IH]; simpl; [reflexivity|].
  destruct (drop_first table []) as [s'|] eqn:E; [|reflexivity].
  destruct (@drop_first_Some table [] s' E) as (w & _ & Hs).
  symmetry in Hs. apply app_eq_nil in Hs. destruct Hs as [_ ->].
  exact IH.
Qed.

Lemma drop_all_concat ws fuel :
  Forall (fun w => In w table) ws ->
  length ws <= fuel ->
  drop_all table fuel (concat ws) = [].
Proof.
  intros Hws. revert fuel.
  induction Hws as [|w ws Hw Hws IH]; intros fuel Hlen; simpl.
  - apply drop_all_nil.
  - destruct fuel as [|fuel]; [simpl in Hlen; lia|]. simpl.
    rewrite (@drop_first_app w (concat ws) Hw). apply IH. simpl in Hlen. lia.
Qed.

Lemma concat_length_le ws :
  Forall (fun w => In w table) ws -> length ws <= length (concat ws).
Proof.
  induction 1 as [|w ws Hw Hws IH]; simpl; [lia|].
  rewrite length_app.
  assert (w <> []).
  { rewrite Forall_forall in table_nonempty. now apply table_nonempty. }
  destruct w; [congruence|simpl; lia].
Qed.

(** Stripping leaves nothing exactly of the lists made of elements of the
    table, and it keeps whether a list is made of them. *)
Lemma drop_all_empty s :
  drop_all table (length s) s = [] <-> made_of_table s.
Proof.
  split.
  - intros H. destruct (drop_all_split (length s) s) as (ws & Hws & Hs).
    rewrite H, app_nil_r in Hs. now exists ws.
  - intros (ws & Hws & ->). apply drop_all_concat; [exact Hws|].
    now apply concat_length_le.
Qed.

Lemma drop_all_made s :
  made_of_table (drop_all table (length s) s) <-> made_of_table s.
Proof.
  split.
  - intros (ws2 & Hws2 & H2).
    destruct (drop_all_split (length s) s) as (ws & Hws & Hs).
    exists (ws ++ ws2). split; [now apply Forall_app|].
    now rewrite concat_app, <- H2.
  - intros H. apply drop_all_empty in H. rewrite H. now exists [].
Qed.
End Stripping.

Lemma rev_empty : forall (A : Type) (l : list A), rev l = [] <-> l = [].
Proof.
  intros A l. split; [|now intros ->].
  intros H. apply (f_equal (@rev A)) in H. now rewrite rev_involutive in H.
Qed.

Lemma rev_concat :
  forall (A : Type) (ls : list (list A)),
    rev (concat ls) = concat (map (@rev A) (rev ls)).
Proof.
  intros A ls. induction ls as [|x ls IH]; simpl; [reflexivity|].
  rewrite rev_app_distr, IH, map_app, concat_app. simpl.
  now rewrite app_nil_r.
Qed.

(** A list is made of reversed elements exactly when its reverse is made
    of the elements. *)
Lemma made_of_reversed (table : list (list ascii)) (s : list ascii) :
  (exists ws,
      Forall (fun w => In w (map (@rev ascii) table)) ws
      /\ rev s = concat ws)
  <-> (exists ws, Forall (fun w => In w table) ws /\ s = concat ws).
Proof.
  split; intros (ws & Hws & Hs).
  - exists (map (@rev ascii) (rev ws)). split.
    + apply Forall_forall. intros w Hw. apply in_map_iff in Hw.
      destruct Hw as (w' & <- & Hw'). apply in_rev in Hw'.
      rewrite Forall_forall in Hws. specialize (Hws w' Hw').
      apply in_map_iff in Hws. destruct Hws as (w0 & <- & Hw0).
      now rewrite rev_involutive.
    + rewrite <- rev_concat, <- Hs. now rewrite rev_involutive.
  - exists (map (@rev ascii) (rev ws)). split.
    + apply Forall_forall. intros w Hw. apply in_map_iff in Hw.
      destruct Hw as (w' & <- & Hw'). apply in_rev in Hw'.
      rewrite Forall_forall in Hws. apply in_map. now apply Hws.
    + now rewrite <- rev_concat, Hs.
Qed.

Lemma string_of_list_ascii_empty :
  forall l, string_of_list_ascii l = ""%string <-> l = [].
Proof. intros [|c l]; cbn; split; congruence. Qed.

Lemma white_space_nonempty : Forall (fun w => w <> []) white_space.
Proof. vm_compute. repeat constructor; discriminate. Qed.

Lemma reversed_white_space_nonempty :
  Forall (fun w => w <> []) (map (@rev ascii) white_space).
Proof. vm_compute. repeat constructor; discriminate. Qed.

Lemma white_space_prefix_free : prefix_free white_space = true.
Proof. vm_compute. reflexivity. Qed.

Lemma reversed_white_space_prefix_free :
  prefix_free (map (@rev ascii) white_space) = true.
Proof. vm_compute. reflexivity. Qed.

(** [trim] leaves nothing exactly of the blank strings. *)
Lemma trim_empty : forall s, trim s = ""%string <-> blank s.
Proof.
  intros s. unfold trim, trimEnd_bytes, trimStart_bytes, blank.
  set (bs := list_ascii_of_string s).
  set (u := drop_all white_space (length bs) bs).
  rewrite string_of_list_ascii_empty, rev_empty.
  rewrite <- (length_rev u).
  rewrite (@drop_all_empty (map (@rev ascii) white_space)
             reversed_white_space_prefix_free
             reversed_white_space_nonempty (rev u)).
  rewrite made_of_reversed.
  apply (@drop_all_made white_space white_space_prefix_free
           white_space_nonempty bs).
Qed.

(** X16: a value is a non-empty string exactly when it is a string that is
    not blank, that is, one that does not consist of white space and line
    terminators only; no value of another type is one. *)
Theorem isNonEmptyString_iff :
  forall value : JsValue,
    isNonEmptyString value = true
    <-> exists s, value = VString s /\ ~ blank s.
Proof.
  intros value. split.
  - destruct value; cbn; try discriminate.
    intros H. exists s. split; [reflexivity|].
    apply negb_true_iff, String.eqb_neq in H.
    now rewrite <- trim_empty.
  - intros (s & -> & Hs). cbn.
    apply negb_true_iff, String.eqb_neq. now rewrite trim_empty.
Qed.

(** X17: the two tests of arrays of non-empty strings differ on the empty
    array only, which the one accepts and the other rejects. *)
Theorem array_tests_differ_on_empty_array :
  isEmptyArrayOrArrayOfNonEmptyString (VArray []) = true
  /\ isArrayOfNonEmptyString (VArray []) = false
  /\ forall value : JsValue,
       value <> VArray [] ->
       isArrayOfNonEmptyString value
       = isEmptyArrayOrArrayOfNonEmptyString value.
Proof.
  repeat split.
  intros value H. destruct value; try reflexivity.
  destruct items; [congruence|reflexivity].
Qed.

Lemma array_tests_differ_on_empty_array_witness :
  isArrayOfNonEmptyString (VArray [VString "a"; VString " "])
  = isEmptyArrayOrArrayOfNonEmptyString (VArray [VString "a"; VString " "]).
Proof.
  destruct array_tests_differ_on_empty_array as (_ & _ & H).
  apply H. discriminate.
Defined.

(* ------------------------------------------------------------------------- *)
(** ** Options *)
(* ------------------------------------------------------------------------- *)

Lemma push_not_nil :
  forall errors message, push errors message = [] -> False.
Proof. intros [] m; discriminate. Qed.

Lemma push_if_nil :
  forall test message errors,
    push_if test message errors = [] -> test = false /\ errors = [].
Proof.
  intros [] message errors H; [now apply push_not_nil in H|now split].
Qed.

Lemma plugins_nil :
  forall (a b : bool) (m m' : string) (errors : list string),
    (if a then push errors m else if b then push errors m' else errors) = []
    -> a = false /\ b = false /\ errors = [].
Proof.
  intros [] b m m' errors H; [now apply push_not_nil in H|].
  destruct b; [now apply push_not_nil in H|]. now repeat split.
Qed.

Lemma length_zero_nil :
  forall (A : Type) (l : list A), (0 <? length l)%nat = false -> l = [].
Proof. intros A [|x l]; [reflexivity|discriminate]. Qed.

Lemma In_length_pos :
  forall (A : Type) (x : A) (l : list A),
    In x l -> (0 <? length l)%nat = true.
Proof. intros A x [|y l] H; [contradiction|reflexivity]. Qed.

Lemma hd_push :
  forall errors message x,
    hd_error errors = Some x -> hd_error (push errors message) = Some x.
Proof. intros [|e errors] m x H; [discriminate|exact H]. Qed.

Lemma hd_push_if :
  forall test message errors x,
    hd_error errors = Some x
    -> hd_error (push_if test message errors) = Some x.
Proof. intros [] m errors x H; [now apply hd_push|exact H]. Qed.

Lemma hd_plugins :
  forall (a b : bool) (m m' : string) (errors : list string) x,
    hd_error errors = Some x
    -> hd_error (if a then push errors m
                 else if b then push errors m' else errors) = Some x.
Proof. intros [] [] m m' errors x H; try exact H; now apply hd_push. Qed.

Lemma In_push_if :
  forall test message errors x,
    In x errors -> In x (push_if test message errors).
Proof.
  intros [] m errors x H; [|exact H].
  apply in_or_app. now left.
Qed.

Lemma In_push_if_here :
  forall message errors, In message (push_if true message errors).
Proof. intros m errors. apply in_or_app. right. now left. Qed.

(** What an empty list of errors says of the tests that fill it. *)
Ltac peel H :=
  match type of H with
  | push_if _ _ _ = [] =>
      let Hc := fresh "Hc" in
      apply push_if_nil in H; destruct H as [Hc H]
  | (if _ then push _ _ else if _ then push _ _ else _) = [] =>
      let Ha := fresh "Ha" in
      let Hb := fresh "Hb" in
      apply plugins_nil in H; destruct H as (Ha & Hb & H)
  | push _ _ = [] => now apply push_not_nil in H
  | (if ?c then _ else []) = [] =>
      let Hu := fresh "Hu" in
      destruct c eqn:Hu
  end.

(** The list of errors of [processOptions] is named [errs], and the case
    that it is empty is taken apart. *)
Ltac name_errors :=
  unfold processOptions; cbv zeta;
  match goal with |- context [InvalidOptions ?E] => set (errs := E) end.

Lemma typeof_is :
  forall v s, negb (typeof v =? s) = false -> typeof v = s.
Proof. intros v s H. now apply negb_false_iff, String.eqb_eq in H. Qed.

Lemma isNonEmptyString_VString :
  forall v,
    isNonEmptyString v = true -> exists s, v = VString s /\ trim s <> ""%string.
Proof.
  intros []; cbn; try discriminate. intros H. exists s.
  split; [reflexivity|]. now apply negb_true_iff, String.eqb_neq in H.
Qed.

Lemma is_string_eq :
  forall v s, is_string v s = true -> v = VString s.
Proof.
  intros []; cbn; try discriminate. intros t H.
  now apply String.eqb_eq in H; subst.
Qed.

Lemma is_null_eq : forall v, is_null v = true -> v = VNull.
Proof. now intros []. Qed.

Lemma is_true_eq : forall v, is_true v = true <-> v = VBool true.
Proof.
  intros v. split; [|now intros ->].
  destruct v as [| |[]| | | | |]; cbn; congruence.
Qed.

Lemma configFile_cases :
  forall v,
    negb (isNonEmptyString v) && negb (is_null v) && negb (is_true v) = false
    -> let c := if is_true v then VBool false else v in
       (c = VNull \/ c = VBool false \/ isNonEmptyString c = true)
       /\ (c = VBool false -> v = VBool true)
       /\ (v = VBool true -> c = VBool false).
Proof.
  intros v H.
  destruct v as [| |[]| | | | |]; try discriminate H;
    cbn [is_true]; cbv zeta.
  - repeat split; try discriminate; tauto.
  - repeat split; try discriminate; tauto.
  - rewrite !andb_true_r in H. apply negb_false_iff in H.
    repeat split; try discriminate; tauto.
Qed.

Lemma rest_properties_nil :
  forall options,
    rest_properties options = []
    <-> forall key, In key (map fst options) -> In key known_options.
Proof.
  intros options. unfold rest_properties. split.
  - intros H key Hin. apply in_map_iff in Hin.
    destruct Hin as ([k v] & <- & Hin). cbn.
    destruct (includes known_options k) eqn:E.
    + apply existsb_exists in E. destruct E as (x & Hx & E).
      apply String.eqb_eq in E. now subst.
    + assert (Hf : In (k, v)
                      (filter (fun kv => negb (includes known_options (fst kv)))
                              options)).
      { apply filter_In. split; [exact Hin|]. cbn [fst]. now rewrite E. }
      rewrite H in Hf. contradiction.
  - intros H.
    destruct (filter _ options) as [|[k v] rest] eqn:E; [reflexivity|].
    assert (Hf : In (k, v)
                    (filter (fun kv => negb (includes known_options (fst kv)))
                            options)) by (rewrite E; now left).
    apply filter_In in Hf. destruct Hf as [Hin Hneg]. cbn [fst] in Hneg.
    apply negb_true_iff in Hneg.
    assert (Hk : In k known_options).
    { apply H. apply in_map_iff. now exists (k, v). }
    assert (includes known_options k = true).
    { apply existsb_exists. exists k. split; [exact Hk|apply String.eqb_refl]. }
    congruence.
Qed.

(** X18: an option that [processOptions] does not know is always refused:
    the call throws the error of invalid options, and the first message of
    the error lists the unknown names in the order of the object, whatever
    else is wrong with the options. *)
Theorem processOptions_rejects_unknown_options :
  forall (node : NodeLib) (options : list (string * JsValue)) (key : string),
    In key (map fst options) ->
    ~ In key known_options ->
    exists errors,
      processOptions node options = InvalidOptions errors
      /\ hd_error errors
         = Some ("Unknown options: "
                 ++ String.concat ", " (map fst (rest_properties options)))
                %string.
Proof.
  intros node options key Hin Hunknown.
  assert (Hrest : (1 <=? length (map fst (rest_properties options)))%nat
                  = true).
  { destruct (rest_properties options) eqn:E; [|reflexivity].
    exfalso. apply Hunknown.
    now apply (proj1 (rest_properties_nil options) E). }
  name_errors.
  assert (Hhd : hd_error errs
                = Some ("Unknown options: "
                        ++ String.concat
                             ", " (map fst (rest_properties options)))%string).
  { subst errs. repeat first [apply hd_push_if | apply hd_plugins].
    rewrite Hrest. repeat apply hd_push_if. reflexivity. }
  exists errs. split; [|exact Hhd].
  destruct errs; [discriminate|reflexivity].
Qed.

Lemma processOptions_rejects_unknown_options_witness :
  exists errors,
    processOptions SampleNode.node
                   [("cache", VBool true); ("rules", VObject []);
                    ("envs", VNull)]
    = InvalidOptions errors
    /\ hd_error errors = Some "Unknown options: rules, envs".
Proof.
  apply (@processOptions_rejects_unknown_options
           SampleNode.node
           [("cache", VBool true); ("rules", VObject []); ("envs", VNull)]
           "rules").
  - cbn. tauto.
  - cbn. intuition discriminate.
Defined.

(** X19: what [processOptions] returns is valid.  When it returns the
    normalized options, every name of the given object is one it knows; the
    eight switches are booleans; the working directory given (or the one of
    the process) is a string that is not blank and is an absolute path, and
    the result holds it normalized; the cache location is a non-empty
    string and the cache strategy one of the two known; [configFile] is
    null, [false] or a non-empty string, and [false] exactly when
    [overrideConfigFile] was [true]; [fix] is a boolean or a function;
    [fixTypes] is null or an array of fix types; [flags] is an array of
    non-empty strings and [ignorePatterns] such an array or null; and the
    rule filter is a function. *)
Theorem processOptions_normalized_is_valid :
  forall (node : NodeLib) (options : list (string * JsValue))
         (o : ESLintOptions),
    processOptions node options = Normalized o ->
    (forall key, In key (map fst options) -> In key known_options)
    /\ Forall (fun v => typeof v = "boolean")
              [opt_allowInlineConfig o; opt_cache o;
               opt_errorOnUnmatchedPattern o; opt_globInputPaths o;
               opt_ignore o; opt_stats o; opt_passOnNoPatterns o;
               opt_warnIgnored o]
    /\ (exists s,
          with_default options "cwd" (VString (process_cwd node)) = VString s
          /\ trim s <> ""%string
          /\ path_isAbsolute node s = true
          /\ opt_cwd o = VString (path_normalize node s))
    /\ isNonEmptyString (opt_cacheLocation o) = true
    /\ (opt_cacheStrategy o = VString "metadata"
        \/ opt_cacheStrategy o = VString "content")
    /\ (opt_configFile o = VNull
        \/ opt_configFile o = VBool false
        \/ isNonEmptyString (opt_configFile o) = true)
    /\ (opt_configFile o = VBool false
        <-> with_default options "overrideConfigFile" VNull = VBool true)
    /\ (typeof (opt_fix o) = "boolean" \/ typeof (opt_fix o) = "function")
    /\ (opt_fixTypes o = VNull \/ isFixTypeArray (opt_fixTypes o) = true)
    /\ isEmptyArrayOrArrayOfNonEmptyString (opt_flags o) = true
    /\ (opt_ignorePatterns o = VNull
        \/ isEmptyArrayOrArrayOfNonEmptyString (opt_ignorePatterns o) = true)
    /\ typeof (opt_baseConfig o) = "object"
    /\ typeof (opt_overrideConfig o) = "object"
    /\ typeof (opt_ruleFilter o) = "function".
Proof.
  intros node options o. name_errors.
  destruct (0 <? length errs)%nat eqn:HE; [discriminate|].
  apply length_zero_nil in HE. subst errs. repeat peel HE. clear HE.
  apply orb_false_iff in Hc13. destruct Hc13 as [Hcwd Habs].
  apply negb_false_iff in Hcwd, Habs, Hc9, Hc15.
  destruct (isNonEmptyString_VString _ Hcwd) as (s & Es & Hs).
  rewrite Es in *.
  destruct (with_default options "flags" (VArray [])) as [| | | | | |items|]
    eqn:Ef; try discriminate.
  intros H. injection H as <-. cbn [opt_allowInlineConfig opt_baseConfig
    opt_cache opt_cacheLocation opt_cacheStrategy opt_configFile
    opt_overrideConfig opt_cwd opt_errorOnUnmatchedPattern opt_fix
    opt_fixTypes opt_flags opt_globInputPaths opt_ignore opt_ignorePatterns
    opt_stats opt_passOnNoPatterns opt_warnIgnored opt_ruleFilter].
  repeat apply conj.
  - apply rest_properties_nil.
    destruct (rest_properties options); [reflexivity|discriminate].
  - repeat constructor; now apply typeof_is.
  - exists s. now repeat split.
  - exact Hc15.
  - apply andb_false_iff in Hc14.
    destruct Hc14 as [H|H]; apply negb_false_iff, is_string_eq in H; tauto.
  - apply (configFile_cases _ Hc4).
  - apply (configFile_cases _ Hc4).
  - apply (configFile_cases _ Hc4).
  - apply andb_false_iff in Hc11.
    destruct Hc11 as [H|H]; apply typeof_is in H; tauto.
  - apply andb_false_iff in Hc10.
    destruct Hc10 as [H|H]; apply negb_false_iff in H;
      [left; now apply is_null_eq|now right].
  - exact Hc9.
  - apply andb_false_iff in Hc6.
    destruct Hc6 as [H|H]; apply negb_false_iff in H;
      [now right|left; now apply is_null_eq].
  - now apply typeof_is.
  - now apply typeof_is.
  - now apply typeof_is.
Qed.

Lemma processOptions_normalized_is_valid_witness :
  exists o,
    processOptions SampleNode.node [("cwd", VString "/w"); ("fix", VBool true)]
    = Normalized o
    /\ opt_cwd o = VString "/w"
    /\ (typeof (opt_fix o) = "boolean" \/ typeof (opt_fix o) = "function").
Proof.
  eexists. split; [reflexivity|]. split; [reflexivity|].
  destruct (@processOptions_normalized_is_valid
              SampleNode.node [("cwd", VString "/w"); ("fix", VBool true)]
              _ eq_refl)
    as (_ & _ & _ & _ & _ & _ & _ & Hfix & _).
  exact Hfix.
Defined.

(** X20: [processOptions] never fails with a [TypeError]: whenever it is
    about to normalize the working directory and to copy the flags, the
    tests before have made sure that the one is a string and the other an
    array. *)
Theorem processOptions_never_TypeError :
  forall (node : NodeLib) (options : list (string * JsValue)),
    processOptions node options <> TypeError.
Proof.
  intros node options. name_errors.
  destruct (0 <? length errs)%nat eqn:HE; [discriminate|].
  apply length_zero_nil in HE. subst errs. repeat peel HE. clear HE.
  apply orb_false_iff in Hc13. destruct Hc13 as [Hcwd _].
  apply negb_false_iff in Hcwd, Hc9.
  destruct (isNonEmptyString_VString _ Hcwd) as (s & -> & _).
  destruct (with_default options "flags" (VArray [])); discriminate.
Qed.

Lemma get_property_insert_undefined :
  forall (before after : list (string * JsValue)) (key key' : string)
         (default : JsValue),
    ~ In key (map fst (before ++ after)) ->
    with_default (before ++ (key, VUndefined) :: after) key' default
    = with_default (before ++ after) key' default.
Proof.
  intros before after key key' default Hnot.
  unfold with_default, get_property.
  induction before as [|[k v] before IH]; cbn [app find fst snd].
  - destruct (key =? key')%string eqn:E; [|reflexivity].
    apply String.eqb_eq in E. subst key'.
    destruct (find (fun kv => (fst kv =? key)%string) after) as [[k v]|] eqn:F;
      [|reflexivity].
    exfalso. apply Hnot. apply find_some in F. destruct F as [Hin Hk].
    cbn in Hk. apply String.eqb_eq in Hk. subst k.
    cbn. apply in_map_iff. now exists (key, v).
  - destruct (k =? key')%string; [reflexivity|].
    apply IH. intros H. apply Hnot. cbn. now right.
Qed.

Lemma rest_properties_insert_known :
  forall (before after : list (string * JsValue)) (key : string) (v : JsValue),
    In key known_options ->
    rest_properties (before ++ (key, v) :: after)
    = rest_properties (before ++ after).
Proof.
  intros before after key v Hknown. unfold rest_properties.
  rewrite !filter_app. cbn [filter fst].
  assert (E : includes known_options key = true).
  { apply existsb_exists. exists key.
    split; [exact Hknown|apply String.eqb_refl]. }
  now rewrite E.
Qed.

(** X21: an option given as [undefined] is an option left out: adding a
    property whose value is [undefined] under a known name that the object
    does not have changes nothing of what [processOptions] returns or
    throws. *)
Theorem processOptions_undefined_is_absent :
  forall (node : NodeLib) (before after : list (string * JsValue))
         (key : string),
    In key known_options ->
    ~ In key (map fst (before ++ after)) ->
    processOptions node (before ++ (key, VUndefined) :: after)
    = processOptions node (before ++ after).
Proof.
  intros node before after key Hknown Hnot. unfold processOptions.
  pose proof (fun key' default =>
                @get_property_insert_undefined before after key key' default
                                               Hnot) as Hget.
  rewrite !Hget.
  rewrite (@rest_properties_insert_known before after key VUndefined Hknown).
  reflexivity.
Qed.

Lemma processOptions_undefined_is_absent_witness :
  processOptions SampleNode.node
                 ([("fix", VBool true)] ++ ("cwd", VUndefined)
                  :: [("cache", VNumber 1)])
  = processOptions SampleNode.node
                   ([("fix", VBool true)] ++ [("cache", VNumber 1)]).
Proof.
  apply processOptions_undefined_is_absent.
  - cbn. tauto.
  - cbn. intuition discriminate.
Defined.

(** X22: an array given as [plugins] is always refused, with the message
    that points to [overrideConfig.plugins] among the messages of the
    error, although an array passes the test that [plugins] is an
    object. *)
Theorem processOptions_rejects_array_plugins :
  forall (node : NodeLib) (options : list (string * JsValue))
         (items : list JsValue),
    get_property options "plugins" = VArray items ->
    exists errors,
      processOptions node options = InvalidOptions errors
      /\ In "'plugins' doesn't add plugins to configuration to load. Please use the 'overrideConfig.plugins' option instead."%string
            errors
      /\ typeof (get_property options "plugins") = "object"%string.
Proof.
  intros node options items Hp.
  assert (Hw : with_default options "plugins" (VObject []) = VArray items).
  { unfold with_default. now rewrite Hp. }
  name_errors.
  assert (Hin : In "'plugins' doesn't add plugins to configuration to load. Please use the 'overrideConfig.plugins' option instead."%string
                   errs).
  { subst errs. do 3 apply In_push_if. rewrite Hw.
    apply In_push_if_here. }
  exists errs. rewrite (@In_length_pos _ _ _ Hin), Hp. now repeat split.
Qed.

Lemma processOptions_rejects_array_plugins_witness :
  exists errors,
    processOptions SampleNode.node [("plugins", VArray [VString "a"])]
    = InvalidOptions errors
    /\ In "'plugins' doesn't add plugins to configuration to load. Please use the 'overrideConfig.plugins' option instead."%string
          errors.
Proof.
  destruct (@processOptions_rejects_array_plugins
              SampleNode.node [("plugins", VArray [VString "a"])]
              [VString "a"] eq_refl)
    as (errors & H & Hin & _).
  exists errors. now split.
Defined.

Lemma get_property_In :
  forall (options : list (string * JsValue)) (key : string) (v : JsValue),
    NoDup (map fst options) ->
    In (key, v) options ->
    get_property options key = v.
Proof.
  intros options key v. unfold get_property.
  induction options as [|[k w] options IH]; cbn [map fst find snd];
    intros Hnd Hin; [contradiction|].
  inversion Hnd as [|? ? Hk Hnd']; subst.
  destruct Hin as [E|Hin].
  - injection E as -> ->. now rewrite String.eqb_refl.
  - destruct (k =? key)%string eqn:E; [|now apply IH].
    apply String.eqb_eq in E. subst k. exfalso. apply Hk.
    apply in_map_iff. now exists (key, v).
Qed.

Lemma get_property_absent :
  forall (options : list (string * JsValue)) (key : string),
    ~ In key (map fst options) ->
    get_property options key = VUndefined.
Proof.
  intros options key H. unfold get_property.
  destruct (find (fun kv => (fst kv =? key)%string) options) as [[k v]|] eqn:F;
    [|reflexivity].
  exfalso. apply H. apply find_some in F. destruct F as [Hin Hk].
  cbn in Hk. apply String.eqb_eq in Hk. subst k.
  apply in_map_iff. now exists (key, v).
Qed.

Lemma get_property_Permutation :
  forall (options options' : list (string * JsValue)) (key : string),
    Permutation options options' ->
    NoDup (map fst options) ->
    get_property options' key = get_property options key.
Proof.
  intros options options' key Hperm Hnd.
  assert (Hnd' : NoDup (map fst options')).
  { apply (Permutation_NoDup (l := map fst options)); [|exact Hnd].
    now apply Permutation_map. }
  destruct (in_dec string_dec key (map fst options)) as [Hin|Hnot].
  - apply in_map_iff in Hin. destruct Hin as ([k v] & E & Hin).
    cbn in E. subst k.
    rewrite (@get_property_In options key v Hnd Hin).
    apply get_property_In; [exact Hnd'|].
    now apply (Permutation_in _ Hperm).
  - rewrite (@get_property_absent options key Hnot).
    apply get_property_absent. intros H. apply Hnot.
    apply (Permutation_in (l := map fst options')); [|exact H].
    apply Permutation_map. now apply Permutation_sym.
Qed.

(** X23: the order of the options does not matter: two objects with the
    same properties, in whatever order, get the same result when their
    unknown properties, if any, come in the same order. *)
Theorem processOptions_ignores_order :
  forall (node : NodeLib) (options options' : list (string * JsValue)),
    Permutation options options' ->
    NoDup (map fst options) ->
    rest_properties options' = rest_properties options ->
    processOptions node options' = processOptions node options.
Proof.
  intros node options options' Hperm Hnd Hrest.
  unfold processOptions, with_default.
  pose proof (fun key =>
                @get_property_Permutation options options' key Hperm Hnd)
    as Hget.
  rewrite !Hget, Hrest.
  reflexivity.
Qed.

Lemma processOptions_ignores_order_witness :
  processOptions SampleNode.node
                 [("cache", VBool true); ("rules", VNull); ("fix", VNumber 0)]
  = processOptions SampleNode.node
                   [("rules", VNull); ("fix", VNumber 0);
                    ("cache", VBool true)].
Proof.
  apply processOptions_ignores_order.
  - apply Permutation_sym. apply (Permutation_cons_app [_; _] []).
    apply Permutation_refl.
  - cbn. repeat constructor; cbn; intuition discriminate.
  - reflexivity.
Defined.
